(** * Synthesis Watermelon: a shallow embedding of [synthesis_watermelon.py]

    The game keeps Python objects (pieces, pymunk bodies and shapes) that are
    compared by identity and mutated in place.  They are modelled as three
    typed stores indexed by addresses, with one allocation counter.  The
    physics library is modelled by what the program can observe of it: the
    registry of bodies and shapes, the positions it writes during a step and
    the contacts it reports to the collision callback.  Both are supplied from
    outside, as the player's input is.

    Coordinates are Python floats.  Finite values are modelled as exact
    rationals (rounding is not modelled); the three non-finite values are
    kept, with their IEEE arithmetic and comparisons. *)

From Stdlib Require Import QArith.
From stdpp Require Import gmap list.
Close Scope Q_scope.
Local Open Scope Z_scope.

(** ** Python floats *)

Inductive pyfloat := Finite (q : Q) | PosInf | NegInf | NaN.

Definition of_int (z : Z) : pyfloat := Finite (inject_Z z).

(** [math.isfinite] *)
Definition isfinite (f : pyfloat) : bool :=
  match f with Finite _ => true | _ => false end.

Definition fneg (a : pyfloat) : pyfloat :=
  match a with
  | Finite x => Finite (Qred (- x))
  | PosInf => NegInf
  | NegInf => PosInf
  | NaN => NaN
  end.

Definition fadd (a b : pyfloat) : pyfloat :=
  match a, b with
  | NaN, _ | _, NaN => NaN
  | Finite x, Finite y => Finite (Qred (x + y))
  | PosInf, NegInf | NegInf, PosInf => NaN
  | PosInf, _ | _, PosInf => PosInf
  | NegInf, _ | _, NegInf => NegInf
  end.

Definition fsub (a b : pyfloat) : pyfloat := fadd a (fneg b).

(** [a / 2] *)
Definition fhalf (a : pyfloat) : pyfloat :=
  match a with Finite x => Finite (Qred (x / 2)) | _ => a end.

Definition Qltb (x y : Q) : bool := negb (Qle_bool y x).

(** [a < b]; every comparison with NaN is false. *)
Definition fltb (a b : pyfloat) : bool :=
  match a, b with
  | NaN, _ | _, NaN => false
  | Finite x, Finite y => Qltb x y
  | NegInf, NegInf => false
  | NegInf, _ => true
  | _, NegInf => false
  | PosInf, _ => false
  | _, PosInf => true
  end.

(** Python's two-argument [min] and [max] return the first argument unless
    the second compares strictly below (above) it. *)
Definition py_min (a b : pyfloat) : pyfloat := if fltb b a then b else a.
Definition py_max (a b : pyfloat) : pyfloat := if fltb a b then b else a.

(** [math.hypot(dx, dy) < c] for a finite bound [c].  The hypotenuse of two
    finite numbers is compared through squares; with a non-finite argument
    the hypotenuse is infinite or NaN and the comparison is false. *)
Definition hypot_lt (dx dy : pyfloat) (c : Q) : bool :=
  match dx, dy with
  | Finite a, Finite b => Qltb 0 c && Qltb (a * a + b * b) (c * c)
  | _, _ => false
  end.

Record Vec2d := mkVec { vx : pyfloat; vy : pyfloat }.

Definition vec_of_ints (x y : Z) : Vec2d := mkVec (of_int x) (of_int y).
Definition vec_sub (p d : Vec2d) : Vec2d := mkVec (fsub (vx p) (vx d)) (fsub (vy p) (vy d)).
Definition vec_add (p d : Vec2d) : Vec2d := mkVec (fadd (vx p) (vx d)) (fadd (vy p) (vy d)).
Definition vec_finite (p : Vec2d) : bool := isfinite (vx p) && isfinite (vy p).

(** ** Constants *)

Definition WIDTH : Z := 600.
Definition HEIGHT : Z := 800.
Definition BORDER_THICKNESS : Z := 10.
Definition FPS : Z := 60.
Definition MAX_LEVEL : Z := 10.
Definition COOLDOWN_TIME : Q := 1.

Inductive wm_state := WAITING | MOVING | STOPPED.

Global Instance wm_state_eq_dec : EqDecision wm_state.
Proof. solve_decision. Defined.

(** ** Objects *)

Inductive body_kind := STATIC | KINEMATIC | DYNAMIC.

Global Instance body_kind_eq_dec : EqDecision body_kind.
Proof. solve_decision. Defined.

(** A [pymunk.Body].  Velocities and the moment of inertia are read and
    written by the library only and are left out. *)
Record Body := mkBody {
  body_type : body_kind;
  mass : Z;
  position : Vec2d;
  user_data : option positive
}.

(** A [pymunk.Shape]: the circle of a piece or the segment of a wall. *)
Record Shape := mkShape {
  sh_body : positive;
  sh_radius : Z;
  collision_type : Z
}.

Record Watermelon := mkWatermelon {
  level : Z;
  radius : Z;
  state : wm_state;
  merged : bool;
  body : positive;
  shape : positive
}.

(** The program state: the three object stores with the allocation counter,
    the [Physics] object (registry of the space and [merge_pairs]) and the
    fields of [Game]. *)
Record Game := mkGame {
  wms : gmap positive Watermelon;
  bodies : gmap positive Body;
  shapes : gmap positive Shape;
  next_id : positive;
  space_bodies : list positive;
  space_shapes : list positive;
  merge_pairs : list (positive * positive);
  watermelons : list positive;
  waiting_wm : positive;
  score : Z;
  game_over : bool;
  cooldown : Q;
  can_spawn : bool
}.

Definition set_wms (f : gmap positive Watermelon → gmap positive Watermelon) (g : Game) : Game :=
  mkGame (f (wms g)) (bodies g) (shapes g) (next_id g) (space_bodies g) (space_shapes g)
    (merge_pairs g) (watermelons g) (waiting_wm g) (score g) (game_over g) (cooldown g) (can_spawn g).
Definition set_bodies (f : gmap positive Body → gmap positive Body) (g : Game) : Game :=
  mkGame (wms g) (f (bodies g)) (shapes g) (next_id g) (space_bodies g) (space_shapes g)
    (merge_pairs g) (watermelons g) (waiting_wm g) (score g) (game_over g) (cooldown g) (can_spawn g).
Definition set_shapes (f : gmap positive Shape → gmap positive Shape) (g : Game) : Game :=
  mkGame (wms g) (bodies g) (f (shapes g)) (next_id g) (space_bodies g) (space_shapes g)
    (merge_pairs g) (watermelons g) (waiting_wm g) (score g) (game_over g) (cooldown g) (can_spawn g).
Definition set_next_id (n : positive) (g : Game) : Game :=
  mkGame (wms g) (bodies g) (shapes g) n (space_bodies g) (space_shapes g)
    (merge_pairs g) (watermelons g) (waiting_wm g) (score g) (game_over g) (cooldown g) (can_spawn g).
Definition set_space (bs ss : list positive) (g : Game) : Game :=
  mkGame (wms g) (bodies g) (shapes g) (next_id g) bs ss
    (merge_pairs g) (watermelons g) (waiting_wm g) (score g) (game_over g) (cooldown g) (can_spawn g).
Definition set_merge_pairs (l : list (positive * positive)) (g : Game) : Game :=
  mkGame (wms g) (bodies g) (shapes g) (next_id g) (space_bodies g) (space_shapes g)
    l (watermelons g) (waiting_wm g) (score g) (game_over g) (cooldown g) (can_spawn g).
Definition set_watermelons (l : list positive) (g : Game) : Game :=
  mkGame (wms g) (bodies g) (shapes g) (next_id g) (space_bodies g) (space_shapes g)
    (merge_pairs g) l (waiting_wm g) (score g) (game_over g) (cooldown g) (can_spawn g).
Definition set_waiting_wm (w : positive) (g : Game) : Game :=
  mkGame (wms g) (bodies g) (shapes g) (next_id g) (space_bodies g) (space_shapes g)
    (merge_pairs g) (watermelons g) w (score g) (game_over g) (cooldown g) (can_spawn g).
Definition set_score (z : Z) (g : Game) : Game :=
  mkGame (wms g) (bodies g) (shapes g) (next_id g) (space_bodies g) (space_shapes g)
    (merge_pairs g) (watermelons g) (waiting_wm g) z (game_over g) (cooldown g) (can_spawn g).
Definition set_game_over (b : bool) (g : Game) : Game :=
  mkGame (wms g) (bodies g) (shapes g) (next_id g) (space_bodies g) (space_shapes g)
    (merge_pairs g) (watermelons g) (waiting_wm g) (score g) b (cooldown g) (can_spawn g).
Definition set_cooldown (q : Q) (g : Game) : Game :=
  mkGame (wms g) (bodies g) (shapes g) (next_id g) (space_bodies g) (space_shapes g)
    (merge_pairs g) (watermelons g) (waiting_wm g) (score g) (game_over g) q (can_spawn g).
Definition set_can_spawn (b : bool) (g : Game) : Game :=
  mkGame (wms g) (bodies g) (shapes g) (next_id g) (space_bodies g) (space_shapes g)
    (merge_pairs g) (watermelons g) (waiting_wm g) (score g) (game_over g) (cooldown g) b.

(** A Python reference always points to an object.  Reading through an
    address that holds nothing yields these placeholders; the
    well-formedness invariant below shows that no run ever does so. *)
Definition no_vec : Vec2d := mkVec NaN NaN.
Definition no_body : Body := mkBody STATIC 0 no_vec None.
Definition no_shape : Shape := mkShape 1 0 0.
Definition no_wm : Watermelon := mkWatermelon 0 0 STOPPED true 1 1.

Definition wm_of (g : Game) (w : positive) : Watermelon := default no_wm (wms g !! w).
Definition body_of (g : Game) (b : positive) : Body := default no_body (bodies g !! b).
Definition shape_of (g : Game) (s : positive) : Shape := default no_shape (shapes g !! s).

(** [wm.body.position] *)
Definition pos_of (g : Game) (w : positive) : Vec2d := position (body_of g (body (wm_of g w))).

Definition with_position (p : Vec2d) (b : Body) : Body :=
  mkBody (body_type b) (mass b) p (user_data b).
Definition with_sh_body (b : positive) (s : Shape) : Shape :=
  mkShape b (sh_radius s) (collision_type s).
Definition with_body_state (b : positive) (st : wm_state) (o : Watermelon) : Watermelon :=
  mkWatermelon (level o) (radius o) st (merged o) b (shape o).
Definition with_merged (m : bool) (o : Watermelon) : Watermelon :=
  mkWatermelon (level o) (radius o) (state o) m (body o) (shape o).

(** [body.position = p] *)
Definition set_position (b : positive) (p : Vec2d) (g : Game) : Game :=
  set_bodies (alter (with_position p) b) g.

(** ** Results of operations that may leave the program *)

Inductive outcome (A : Type) :=
| Done (a : A)      (* returned normally *)
| Exited            (* [sys.exit()] *)
| Raised.           (* an uncaught exception: a failed pymunk assertion *)
Arguments Done {A} a.
Arguments Exited {A}.
Arguments Raised {A}.

Global Instance outcome_bind : MBind outcome := λ A B k m,
  match m with Done a => k a | Exited => Exited | Raised => Raised end.

Definition lift_opt {A} (o : option A) : outcome A :=
  match o with Some a => Done a | None => Raised end.

(** [list.remove(x)]: drops the first occurrence, [ValueError] without one. *)
Fixpoint remove_first {A} `{EqDecision A} (x : A) (l : list A) : option (list A) :=
  match l with
  | [] => None
  | y :: l' => if decide (x = y) then Some l' else cons y <$> remove_first x l'
  end.

(** A loop whose body may raise. *)
Fixpoint for_each {A} (f : A → Game → outcome Game) (l : list A) (g : Game) : outcome Game :=
  match l with
  | [] => Done g
  | x :: l' => g' ← f x g; for_each f l' g'
  end.

(** ** The piece: class [Watermelon] *)

Definition _calculate_radius (lvl : Z) : Z := 45 + (lvl - 1) * 8.

(** [Watermelon(pos, level, state)]: the piece, its body and its circle are
    new objects, each at the next free address of its store; the address of
    the piece is returned.  A kinematic body has no mass of its own: the
    field is 0 there. *)
Definition Watermelon_init (pos : Vec2d) (lvl : Z) (st : wm_state) (g : Game)
  : positive * Game :=
  let a := next_id g in
  let lvl' := Z.min lvl MAX_LEVEL in
  let r := _calculate_radius lvl' in
  let bo := match st with
            | WAITING => mkBody KINEMATIC 0 pos (Some a)
            | _ => mkBody DYNAMIC 1 pos (Some a)
            end in
  (a, set_next_id (Pos.succ a)
        (set_shapes <[a := mkShape a r 1]>
          (set_bodies <[a := bo]>
            (set_wms <[a := mkWatermelon lvl' r st false a a]> g)))).

(** [convert_to_dynamic]: the body of a Waiting piece is replaced by a new
    dynamic one at the same position; the circle moves over to it. *)
Definition convert_to_dynamic (w : positive) (g : Game) : Game :=
  let o := wm_of g w in
  if decide (state o = WAITING) then
    let nb := next_id g in
    let new_body := mkBody DYNAMIC 120 (position (body_of g (body o))) (Some w) in
    set_wms (alter (with_body_state nb MOVING) w)
      (set_shapes (alter (with_sh_body nb) (shape o))
        (set_next_id (Pos.succ nb) (set_bodies <[nb := new_body]> g)))
  else g.

(** [update] *)
Definition Watermelon_update (w : positive) (g : Game) : Game :=
  let o := wm_of g w in
  let g1 :=
    if negb (isfinite (vx (pos_of g w))) || negb (isfinite (vy (pos_of g w)))
    then set_position (body o) (vec_of_ints (WIDTH `div` 2) (HEIGHT `div` 2)) g
    else g in
  if decide (state o = WAITING) then
    let x := py_max (of_int (radius o))
               (py_min (vx (pos_of g1 w)) (of_int (WIDTH - radius o))) in
    set_position (body o) (mkVec x (of_int 50)) g1
  else g1.

(** ** The physics world: class [Physics] over a [pymunk.Space] *)

(** [space.add(body, shape)]; pymunk asserts that neither is registered. *)
Definition Physics_add (b s : positive) (g : Game) : outcome Game :=
  if bool_decide (b ∈ space_bodies g) || bool_decide (s ∈ space_shapes g) then Raised
  else Done (set_space (space_bodies g ++ [b]) (space_shapes g ++ [s]) g).

(** [space.remove(body, shape)]; pymunk asserts that both are registered. *)
Definition Physics_remove (b s : positive) (g : Game) : outcome Game :=
  if bool_decide (b ∈ space_bodies g) && bool_decide (s ∈ space_shapes g)
  then Done (set_space (filter (λ x, x ≠ b) (space_bodies g))
                       (filter (λ x, x ≠ s) (space_shapes g)) g)
  else Raised.

(** One wall of [_create_borders]: a static body at the origin carrying a
    segment, both registered. *)
Definition create_border (g : Game) : Game :=
  let a := next_id g in
  set_space (space_bodies g ++ [a]) (space_shapes g ++ [a])
    (set_next_id (Pos.succ a)
      (set_shapes <[a := mkShape a BORDER_THICKNESS 0]>
        (set_bodies <[a := mkBody STATIC 0 (vec_of_ints 0 0) None]> g))).

(** [Physics()]: a new space with its four walls and no pending pair. *)
Definition Physics_init (g : Game) : Game :=
  create_border (create_border (create_border (create_border
    (set_merge_pairs [] (set_space [] [] g))))).

(** [body.shapes]: the shapes attached to a body. *)
Definition body_shapes (g : Game) (b : positive) : list positive :=
  (filter (λ kv, sh_body kv.2 = b) (map_to_list (shapes g))).*1.

(** The guard of [Physics.step]: a body with a non-finite coordinate is
    unregistered together with its shapes. *)
Definition evict (b : positive) (g : Game) : outcome Game :=
  let p := position (body_of g b) in
  if negb (isfinite (vx p)) || negb (isfinite (vy p)) then
    let ss := body_shapes g b in
    if bool_decide (b ∈ space_bodies g) && forallb (λ s, bool_decide (s ∈ space_shapes g)) ss
    then Done (set_space (filter (λ x, x ≠ b) (space_bodies g))
                         (filter (λ x, x ∉ ss) (space_shapes g)) g)
    else Raised
  else Done g.

(** The begin-callback installed by [Game._init_collision_handler].  A body
    without [user_data] raises [AttributeError], which the callback
    swallows. *)
Definition collision_handler (shape_a shape_b : positive) (g : Game) : Game :=
  match user_data (body_of g (sh_body (shape_of g shape_a))),
        user_data (body_of g (sh_body (shape_of g shape_b))) with
  | Some wm1, Some wm2 =>
      let o1 := wm_of g wm1 in
      let o2 := wm_of g wm2 in
      if bool_decide (level o1 = level o2) && negb (merged o1) && negb (merged o2)
         && negb (bool_decide (state o1 = WAITING)) && negb (bool_decide (state o2 = WAITING))
      then set_merge_pairs (merge_pairs g ++ [(wm1, wm2)])
             (set_wms (alter (with_merged true) wm2)
               (set_wms (alter (with_merged true) wm1) g))
      else g
  | _, _ => g
  end.

(** What one [space.step(dt)] does, as far as the program sees it: new
    positions for bodies and contacts that begin. *)
Record PhysOut := mkPhysOut {
  ph_moves : list (positive * Vec2d);
  ph_contacts : list (positive * positive)
}.

(** The library moves registered dynamic bodies only. *)
Definition apply_move (m : positive * Vec2d) (g : Game) : Game :=
  if bool_decide (m.1 ∈ space_bodies g) && bool_decide (body_type (body_of g m.1) = DYNAMIC)
  then set_position m.1 m.2 g else g.

(** The library reports a contact between two registered shapes on different
    bodies, and calls the handler registered for collision types (1, 1) only
    when both shapes have that type. *)
Definition report_contact (c : positive * positive) (g : Game) : Game :=
  if bool_decide (c.1 ∈ space_shapes g) && bool_decide (c.2 ∈ space_shapes g)
     && negb (bool_decide (sh_body (shape_of g c.1) = sh_body (shape_of g c.2)))
     && bool_decide (collision_type (shape_of g c.1) = 1)
     && bool_decide (collision_type (shape_of g c.2) = 1)
  then collision_handler c.1 c.2 g else g.

(** [space.step(dt)]: the callback does not read positions, so the order of
    the moves and the contacts does not matter. *)
Definition space_step (ph : PhysOut) (g : Game) : Game :=
  foldl (λ g c, report_contact c g) (foldl (λ g m, apply_move m g) g (ph_moves ph))
    (ph_contacts ph).

(** [Physics.step(dt)]: the guard runs over a copy of the registered bodies,
    then the space is stepped. *)
Definition Physics_step (ph : PhysOut) (g : Game) : outcome Game :=
  g1 ← for_each evict (space_bodies g) g;
  Done (space_step ph g1).

(** ** The game: class [Game] *)

Definition _create_waiting_wm (g : Game) : positive * Game :=
  let (wm, g1) := Watermelon_init (vec_of_ints (WIDTH `div` 2) 50) 1 WAITING g in
  (wm, set_watermelons (watermelons g1 ++ [wm]) g1).

(** [Game.__init__], also run in place by a restart.  The argument supplies
    the object stores: objects of an earlier game stay where they are and
    are no longer referenced. *)
Definition Game_init (g : Game) : Game :=
  let g1 := set_watermelons [] (Physics_init g) in
  let (wm, g2) := _create_waiting_wm g1 in
  set_can_spawn true (set_cooldown 0%Q (set_game_over false (set_score 1 (set_waiting_wm wm g2)))).

Definition empty_store : Game :=
  mkGame ∅ ∅ ∅ 1%positive [] [] [] [] 1%positive 0 false 0%Q false.

(** The state in which [game.run()] starts. *)
Definition new_game : Game := Game_init empty_store.

Definition _check_collision (g : Game) (wm1 wm2 : positive) : bool :=
  hypot_lt (fsub (vx (pos_of g wm1)) (vx (pos_of g wm2)))
           (fsub (vy (pos_of g wm1)) (vy (pos_of g wm2)))
           (inject_Z (radius (wm_of g wm1) + radius (wm_of g wm2)) * (9 # 10)).

Definition _release_wm (g : Game) : outcome Game :=
  let w := waiting_wm g in
  if negb (can_spawn g) || negb (bool_decide (state (wm_of g w) = WAITING)) then Done g
  else if existsb (λ wm, negb (bool_decide (wm = w)) && _check_collision g wm w) (watermelons g)
  then Done (set_game_over true g)
  else
    let g1 := convert_to_dynamic w g in
    g2 ← Physics_add (body (wm_of g1 w)) (shape (wm_of g1 w)) g1;
    Done (set_cooldown COOLDOWN_TIME (set_can_spawn false g2)).

(** The body of the loop of [_process_merges], for one pair of the copy. *)
Definition process_pair (p : positive * positive) (g : Game) : outcome Game :=
  let wm1 := p.1 in
  let wm2 := p.2 in
  if bool_decide (wm1 ∈ watermelons g) && bool_decide (wm2 ∈ watermelons g) then
    let new_pos := mkVec (fhalf (fadd (vx (pos_of g wm1)) (vx (pos_of g wm2))))
                         (fhalf (fadd (vy (pos_of g wm1)) (vy (pos_of g wm2)))) in
    let new_level := level (wm_of g wm1) + 1 in
    g1 ← Physics_remove (body (wm_of g wm1)) (shape (wm_of g wm1)) g;
    g2 ← Physics_remove (body (wm_of g1 wm2)) (shape (wm_of g1 wm2)) g1;
    l1 ← lift_opt (remove_first wm1 (watermelons g2));
    l2 ← lift_opt (remove_first wm2 l1);
    let (new_wm, g3) := Watermelon_init new_pos new_level MOVING (set_watermelons l2 g2) in
    g4 ← Physics_add (body (wm_of g3 new_wm)) (shape (wm_of g3 new_wm)) g3;
    let g5 := set_watermelons (watermelons g4 ++ [new_wm]) g4 in
    let g6 := set_score (Z.max (score g5) new_level) g5 in
    mp ← lift_opt (remove_first (wm1, wm2) (merge_pairs g6));
    Done (set_merge_pairs mp g6)
  else Done g.

Definition _process_merges (g : Game) : outcome Game :=
  for_each process_pair (merge_pairs g) g.

(** The spawn branch of [_update], taken while [can_spawn] is false. *)
Definition tick_cooldown (g : Game) : Game :=
  let g1 := set_cooldown (Qred (cooldown g - 1 / inject_Z FPS)) g in
  if Qle_bool (cooldown g1) 0 then
    let g2 := set_can_spawn true g1 in
    let (new_wm, g3) := Watermelon_init (vec_of_ints (WIDTH `div` 2) 50) 1 WAITING g2 in
    if existsb (λ wm, _check_collision g3 new_wm wm) (watermelons g3)
    then set_game_over true g3
    else set_waiting_wm new_wm (set_watermelons (watermelons g3 ++ [new_wm]) g3)
  else g1.

Definition update_all (g : Game) : Game :=
  foldl (λ g wm, Watermelon_update wm g) g (watermelons g).

Definition _update (g : Game) : outcome Game :=
  let g1 := if negb (can_spawn g) then tick_cooldown g else g in
  _process_merges (update_all g1).

(** ** Input *)

Inductive key := K_r | K_DOWN | K_SPACE | K_LEFT | K_RIGHT | K_other.
Inductive event := QUIT | KEYDOWN (k : key) | OtherEvent.

Global Instance key_eq_dec : EqDecision key.
Proof. solve_decision. Defined.
Global Instance event_eq_dec : EqDecision event.
Proof. solve_decision. Defined.

(** What [pygame.event.get()] and [pygame.key.get_pressed()] return in one
    frame. *)
Record Input := mkInput {
  events : list event;
  pressed_left : bool;
  pressed_right : bool
}.

Definition handle_event (ev : event) (g : Game) : outcome Game :=
  match ev with
  | QUIT => Exited
  | KEYDOWN k =>
      if game_over g && bool_decide (k = K_r) then Done (Game_init g)
      else if negb (game_over g) then
        if bool_decide (k ∈ [K_DOWN; K_SPACE]) then _release_wm g else Done g
      else Done g
  | OtherEvent => Done g
  end.

Definition move_waiting (inp : Input) (g : Game) : Game :=
  if negb (game_over g) && bool_decide (state (wm_of g (waiting_wm g)) = WAITING) then
    let speed := 5 in
    let b := body (wm_of g (waiting_wm g)) in
    let g1 := if pressed_left inp
              then set_position b (vec_sub (position (body_of g b)) (vec_of_ints speed 0)) g
              else g in
    if pressed_right inp
    then set_position b (vec_add (position (body_of g1 b)) (vec_of_ints speed 0)) g1
    else g1
  else g.

Definition _handle_input (inp : Input) (g : Game) : outcome Game :=
  g1 ← for_each handle_event (events inp) g;
  Done (move_waiting inp g1).

(** One iteration of the loop of [Game.run]; drawing and the clock change
    nothing of the state. *)
Definition frame (inp : Input) (ph : PhysOut) (g : Game) : outcome Game :=
  g1 ← _handle_input inp g;
  if game_over g1 then Done g1
  else g2 ← _update g1; Physics_step ph g2.

Fixpoint run (tr : list (Input * PhysOut)) (g : Game) : outcome Game :=
  match tr with
  | [] => Done g
  | (inp, ph) :: tr' => g' ← frame inp ph g; run tr' g'
  end.

(** The states at the frame boundaries of a run of the program. *)
Inductive reachable : Game → Prop :=
| reachable_start : reachable new_game
| reachable_frame g inp ph g' :
    reachable g → frame inp ph g = Done g' → reachable g'.

Definition idle : Input := mkInput [] false false.
Definition still : PhysOut := mkPhysOut [] [].

(** * Vocabulary of the properties *)

(** ** Well-formed states *)

Definition flat_pairs (l : list (positive * positive)) : list positive :=
  l ≫= λ p, [p.1; p.2].

(** The object stores: every address in use was allocated, and a piece, its
    body and its circle point at each other. *)
Record StoreOk (g : Game) : Prop := mkStoreOk {
  st_wms : ∀ w o, wms g !! w = Some o →
    (w < next_id g)%positive
    ∧ level o ≤ MAX_LEVEL ∧ radius o = _calculate_radius (level o)
    ∧ ∃ bo so, bodies g !! body o = Some bo ∧ user_data bo = Some w
               ∧ shapes g !! shape o = Some so ∧ sh_body so = body o;
  st_bodies : ∀ a, is_Some (bodies g !! a) → (a < next_id g)%positive;
  st_shapes : ∀ a, is_Some (shapes g !! a) → (a < next_id g)%positive
}.

(** The game over the stores: which pieces are live, what the space has
    registered, the tracked waiting piece and the pending pairs. *)
Record Inv (g : Game) : Prop := mkInv {
  inv_store : StoreOk g;
  inv_live_nodup : NoDup (watermelons g);
  inv_live : ∀ w, w ∈ watermelons g → ∃ o, wms g !! w = Some o
    ∧ (state o = WAITING → w = waiting_wm g)
    ∧ (state o ≠ WAITING → body o ∈ space_bodies g ∧ shape o ∈ space_shapes g);
  inv_bodies_nodup : NoDup (space_bodies g);
  inv_shapes_nodup : NoDup (space_shapes g);
  inv_space_bodies : ∀ b, b ∈ space_bodies g → ∃ bo, bodies g !! b = Some bo
    ∧ match user_data bo with
      | None => body_type bo = STATIC ∧ vec_finite (position bo) = true
      | Some w => w ∈ watermelons g ∧ body (wm_of g w) = b ∧ state (wm_of g w) ≠ WAITING
      end;
  inv_space_shapes : ∀ s, s ∈ space_shapes g → ∃ so, shapes g !! s = Some so
    ∧ sh_body so ∈ space_bodies g
    ∧ ∀ w, user_data (body_of g (sh_body so)) = Some w → shape (wm_of g w) = s;
  inv_waiting : is_Some (wms g !! waiting_wm g);
  inv_waiting_live : state (wm_of g (waiting_wm g)) = WAITING → waiting_wm g ∈ watermelons g;
  inv_spawn : can_spawn g = false → state (wm_of g (waiting_wm g)) ≠ WAITING;
  inv_pairs_nodup : NoDup (flat_pairs (merge_pairs g));
  inv_pairs : ∀ p, p ∈ merge_pairs g →
    p.1 ∈ watermelons g ∧ p.2 ∈ watermelons g
    ∧ state (wm_of g p.1) ≠ WAITING ∧ state (wm_of g p.2) ≠ WAITING
    ∧ merged (wm_of g p.1) = true ∧ merged (wm_of g p.2) = true
    ∧ level (wm_of g p.1) = level (wm_of g p.2)
}.

(** A space that holds walls only, as [Physics()] leaves it. *)
Record WallsOnly (g : Game) : Prop := mkWallsOnly {
  wo_store : StoreOk g;
  wo_bodies_nodup : NoDup (space_bodies g);
  wo_shapes_nodup : NoDup (space_shapes g);
  wo_bodies : ∀ b, b ∈ space_bodies g → ∃ bo, bodies g !! b = Some bo
    ∧ user_data bo = None ∧ body_type bo = STATIC ∧ vec_finite (position bo) = true;
  wo_shapes : ∀ s, s ∈ space_shapes g → ∃ so, shapes g !! s = Some so
    ∧ sh_body so ∈ space_bodies g;
  wo_pairs : merge_pairs g = []
}.

(** A body at finite coordinates; every registered body at finite
    coordinates. *)
Definition fin_at (g : Game) (b : positive) : Prop :=
  vec_finite (position (body_of g b)) = true.

Definition space_finite (g : Game) : Prop :=
  ∀ b, b ∈ space_bodies g → vec_finite (position (body_of g b)) = true.

(** ** What is measured *)

(** The number of live pieces that are Waiting. *)
Definition waiting_count (g : Game) : nat :=
  length (filter (λ w, state (wm_of g w) = WAITING) (watermelons g)).

(** The registered bodies that belong to a piece. *)
Definition registered_for (g : Game) (w : positive) : list positive :=
  filter (λ b, user_data (body_of g b) = Some w) (space_bodies g).

(** A live piece that is not Waiting has exactly one registered body, its
    own; the Waiting piece has none; and a registered body belongs to a live
    piece or is a static wall. *)
Definition registry_consistent (g : Game) : Prop :=
  NoDup (space_bodies g)
  ∧ (∀ w, w ∈ watermelons g →
       registered_for g w
       = if decide (state (wm_of g w) = WAITING) then [] else [body (wm_of g w)])
  ∧ (∀ b, b ∈ space_bodies g →
       match user_data (body_of g b) with
       | Some w => w ∈ watermelons g ∧ body (wm_of g w) = b
       | None => body_type (body_of g b) = STATIC
       end).

(** Every piece of [g] is still in the store of [g'], with its level, with
    its merged flag if that was set, and not Waiting if it was not. *)
Definition flags_kept (g g' : Game) : Prop :=
  ∀ w o, wms g !! w = Some o →
    ∃ o', wms g' !! w = Some o' ∧ level o' = level o
          ∧ (merged o = true → merged o' = true)
          ∧ (state o ≠ WAITING → state o' ≠ WAITING).

(** The score and the levels of the live pieces. *)
Definition standing (o : outcome Game) : option (Z * list Z) :=
  match o with
  | Done g => Some (score g, (λ w, level (wm_of g w)) <$> watermelons g)
  | _ => None
  end.

Definition quits (inp : Input) : bool := bool_decide (QUIT ∈ events inp).
Definition restarts (inp : Input) : bool := bool_decide (KEYDOWN K_r ∈ events inp).

(** ** The states single operations lead to *)

(** The test of [_release_wm] against the other live pieces. *)
Definition release_blocked (g : Game) : bool :=
  existsb (λ wm, negb (bool_decide (wm = waiting_wm g)) && _check_collision g wm (waiting_wm g))
    (watermelons g).

(** The state after a release that goes through. *)
Definition after_release (g : Game) : Game :=
  let g1 := convert_to_dynamic (waiting_wm g) g in
  set_cooldown COOLDOWN_TIME (set_can_spawn false
    (set_space (space_bodies g ++ [next_id g])
               (space_shapes g ++ [shape (wm_of g (waiting_wm g))]) g1)).

(** [Game.__init__] after its [Physics()]: the first waiting piece and the
    remaining fields. *)
Definition first_piece (g1 : Game) : Game :=
  let (wm, g2) := _create_waiting_wm g1 in
  set_can_spawn true (set_cooldown 0%Q (set_game_over false (set_score 1 (set_waiting_wm wm g2)))).

(** [wm.merged = True] *)
Definition flag (w : positive) (g : Game) : Game := set_wms (alter (with_merged true) w) g.

(** The two pieces of a pair are unregistered and dropped from the live
    pieces, and the pair from the pending ones. *)
Definition destroyed (p : positive * positive) (g : Game) : Game :=
  set_merge_pairs (filter (λ q, q ≠ p) (merge_pairs g))
    (set_watermelons (filter (λ x, x ≠ p.2) (filter (λ x, x ≠ p.1) (watermelons g)))
      (set_space
        (filter (λ x, x ≠ body (wm_of g p.2))
           (filter (λ x, x ≠ body (wm_of g p.1)) (space_bodies g)))
        (filter (λ x, x ≠ shape (wm_of g p.2))
           (filter (λ x, x ≠ shape (wm_of g p.1)) (space_shapes g))) g)).

(** A piece is registered with the space and joins the live pieces. *)
Definition registered (a : positive) (g : Game) : Game :=
  set_watermelons (watermelons g ++ [a])
    (set_space (space_bodies g ++ [body (wm_of g a)])
               (space_shapes g ++ [shape (wm_of g a)]) g).

(** The state [process_pair] leaves when both pieces of the pair are live. *)
Definition after_merge (p : positive * positive) (g : Game) : Game :=
  let new_pos := mkVec (fhalf (fadd (vx (pos_of g p.1)) (vx (pos_of g p.2))))
                       (fhalf (fadd (vy (pos_of g p.1)) (vy (pos_of g p.2)))) in
  let new_level := level (wm_of g p.1) + 1 in
  set_score (Z.max (score g) new_level)
    (registered (next_id g) (Watermelon_init new_pos new_level MOVING (destroyed p g)).2).

(** ** Runs and states used as examples *)

Definition release_key : Input := mkInput [KEYDOWN K_SPACE] false false.

(** The state a run ends in. *)
Definition result (o : outcome Game) : Game :=
  match o with Done g => g | _ => empty_store end.

(** A Waiting piece whose abscissa is NaN. *)
Definition lost_waiting : Game := set_position 5 (mkVec NaN (of_int 50)) new_game.

(** The first piece is released and stays under the spawn point: when the
    cooldown has elapsed the next piece cannot be placed. *)
Definition blocked : Game :=
  Eval vm_compute in result (run ((release_key, still) :: replicate 59 (idle, still)) new_game).

(** Two frames of play against a finished game. *)
Definition after_game_over : list (Input * PhysOut) :=
  [(release_key, mkPhysOut [(6%positive, vec_of_ints 300 700)] []);
   (mkInput [KEYDOWN K_DOWN; OtherEvent] true true, still)].

(** A run in which two pieces of level 1 come to touch: the first piece is
    released and comes to rest at (300, 700); after the cooldown the second
    one is released, comes to rest at (400, 700), and the engine reports the
    contact of the two circles. *)
Definition two_drops : list (Input * PhysOut) :=
  (release_key, mkPhysOut [(6%positive, vec_of_ints 300 700)] [])
  :: replicate 59 (idle, still)
  ++ [(release_key, mkPhysOut [(8%positive, vec_of_ints 400 700)] [(5%positive, 7%positive)])].

Definition two_touching : Game := Eval vm_compute in result (run two_drops new_game).

(** Two more frames after the two pieces touched: the pair is merged. *)
Definition after_touch : list (Input * PhysOut) :=
  [(idle, still); (mkInput [KEYDOWN K_r] true false, mkPhysOut [] [(9%positive, 5%positive)])].

Definition fused : Game := Eval vm_compute in result (run after_touch two_touching).

(** A run in which the released piece stays near the top, just clear of the
    spawn point, and is pushed under the next waiting piece once that one
    has appeared. *)
Definition crowding : list (Input * PhysOut) :=
  (release_key, mkPhysOut [(6%positive, vec_of_ints 390 50)] [])
  :: replicate 59 (idle, still)
  ++ [(idle, mkPhysOut [(6%positive, vec_of_ints 350 50)] [])].

Definition crowded : Game := Eval vm_compute in result (run crowding new_game).

(** The contact of the two shapes registered last. *)
Definition last_two (l : list positive) : list (positive * positive) :=
  match reverse l with
  | b :: a :: _ => [(a, b)]
  | _ => []
  end.

(** A way to play: release whenever the spawn gate is open; every released
    piece comes to rest at (300, 700), far below the spawn point, and the
    engine reports the contact of the two circles registered last. *)
Definition autoplay (g : Game) : Input * PhysOut :=
  (if can_spawn g then release_key else idle,
   mkPhysOut [(next_id g, vec_of_ints 300 700)] (last_two (space_shapes g))).

Fixpoint play (n : nat) (g : Game) : outcome Game :=
  match n with
  | O => Done g
  | S n => g' ← frame (autoplay g).1 (autoplay g).2 g; play n g'
  end.

(** 1024 drops, one per second: the number of frames after which two pieces
    of level 10 are pending as a pair, and one frame more. *)
Definition eve : nat := N.to_nat 61400.
Definition marathon : nat := S eve.

(** ** Further vocabulary *)

(** The colour table, and the colour [draw] picks for a piece. *)
Definition COLORS : gmap Z (Z * Z * Z) :=
  list_to_map
    [(1, (144, 238, 144)); (2, (152, 251, 152)); (3, (173, 255, 47)); (4, (255, 215, 0));
     (5, (255, 165, 0)); (6, (255, 69, 0)); (7, (255, 0, 0)); (8, (147, 112, 219));
     (9, (138, 43, 226)); (10, (148, 0, 211))].

Definition draw_color (g : Game) (w : positive) : Z * Z * Z :=
  default (200, 200, 200) (COLORS !! level (wm_of g w)).

(** What holds of every piece object of a run. *)
Definition piece_ok (o : Watermelon) : Prop :=
  1 ≤ level o
  ∧ (state o = WAITING ∨ state o = MOVING)
  ∧ (state o = WAITING → level o = 1 ∧ merged o = false).

Definition pieces_ok (g : Game) : Prop := ∀ w o, wms g !! w = Some o → piece_ok o.

(** The tracked piece, while Waiting, is at the spawn height with its circle
    between 0 and [WIDTH]. *)
Definition placed (g : Game) (w : positive) : Prop :=
  state (wm_of g w) = WAITING →
  ∃ x : Q, pos_of g w = mkVec (Finite x) (of_int 50)
           ∧ (inject_Z (radius (wm_of g w)) <= x)%Q
           ∧ (x <= inject_Z (WIDTH - radius (wm_of g w)))%Q.


(** The body of the first piece of [two_touching] at a NaN abscissa. *)
Definition blown_up : Game := set_position 6 (mkVec NaN (of_int 700)) two_touching.

(** A pending pair that names a piece which is not live. *)
Definition stale : Game := set_merge_pairs [(5%positive, 9%positive)] new_game.

(** The levels and states of the pieces and the score, as a run keeps
    them. *)
Record Tally (g : Game) : Prop := mkTally {
  ta_pieces : pieces_ok g;
  ta_score : 1 ≤ score g ≤ MAX_LEVEL + 1;
  ta_live : ∀ w, w ∈ watermelons g → level (wm_of g w) ≤ score g
}.

(** [blown_up] after the guard of [Physics.step]. *)
Definition swept : Game :=
  Eval vm_compute in result (for_each evict (space_bodies blown_up) blown_up).

(** A piece of level [L] counts for [2^(L-1)] pieces of level 1; the weight
    of a state is the count of its live pieces. *)
Definition piece_weight (g : Game) (w : positive) : Z := 2 ^ (level (wm_of g w) - 1).

Definition weight (g : Game) : Z := foldr Z.add 0 (piece_weight g <$> watermelons g).


(** One frame before the next piece is due, with the released piece still
    under the spawn point. *)
Definition ripe : Game :=
  Eval vm_compute in result (run ((release_key, still) :: replicate 58 (idle, still)) new_game).

(** Where [update] leaves a piece that it finds at [p]. *)
Definition settled (o : Watermelon) (p : Vec2d) : Vec2d :=
  let p' := if vec_finite p then p else vec_of_ints (WIDTH `div` 2) (HEIGHT `div` 2) in
  if decide (state o = WAITING)
  then mkVec (py_max (of_int (radius o)) (py_min (vx p') (of_int (WIDTH - radius o))))
             (of_int 50)
  else p'.

(** * Examples *)

Example new_game_pieces : watermelons new_game = [5%positive].
Proof. reflexivity. Qed.
Example new_game_space : space_bodies new_game = [1; 2; 3; 4]%positive.
Proof. reflexivity. Qed.
Example frame_idle : (g ← frame idle still new_game; Done (watermelons g, pos_of g 5)) = Done ([5%positive], vec_of_ints 300 50).
Proof. vm_compute. reflexivity. Qed.
Example frame_release :
  (g ← frame (mkInput [KEYDOWN K_SPACE] false false) still new_game;
   Done (watermelons g, space_bodies g, space_shapes g, state (wm_of g 5), can_spawn g))
  = Done ([5], [1; 2; 3; 4; 6], [1; 2; 3; 4; 5], MOVING, false)%positive.
Proof. vm_compute. reflexivity. Qed.

(** * Properties *)

(** ** Reading the stores after a write *)

Lemma wm_of_lookup g w o : wms g !! w = Some o → wm_of g w = o.
Proof. unfold wm_of. by intros ->. Qed.
Lemma body_of_lookup g b bo : bodies g !! b = Some bo → body_of g b = bo.
Proof. unfold body_of. by intros ->. Qed.
Lemma shape_of_lookup g s so : shapes g !! s = Some so → shape_of g s = so.
Proof. unfold shape_of. by intros ->. Qed.

Lemma body_of_set_position g b p b' :
  body_of (set_position b p g) b' =
  if decide (b = b') then
    match bodies g !! b with Some bo => with_position p bo | None => no_body end
  else body_of g b'.
Proof.
  unfold body_of, set_position; simpl. rewrite lookup_alter.
  destruct (decide (b = b')) as [<-|]; [by destruct (bodies g !! b)|done].
Qed.

Lemma wm_of_set_position g b p w : wm_of (set_position b p g) w = wm_of g w.
Proof. done. Qed.

Lemma pos_of_set_position_same g b p w :
  body (wm_of g w) = b → is_Some (bodies g !! b) →
  pos_of (set_position b p g) w = p.
Proof.
  intros Hb [bo Hbo]. unfold pos_of. rewrite wm_of_set_position, body_of_set_position, Hb.
  rewrite decide_True by done. by rewrite Hbo.
Qed.

(** ** Comparisons of finite floats *)

Lemma Qltb_lt x y : Qltb x y = true ↔ (x < y)%Q.
Proof.
  unfold Qltb. rewrite negb_true_iff, <- not_true_iff_false, Qle_bool_iff.
  split; [apply Qnot_le_lt | apply Qlt_not_le].
Qed.

Lemma Qltb_ge x y : Qltb x y = false ↔ (y <= x)%Q.
Proof. unfold Qltb. by rewrite negb_false_iff, Qle_bool_iff. Qed.

(** The clamp of [update]: a finite abscissa ends between the two bounds
    whenever the bounds are in order. *)
Lemma clamp_between (lo hi : Z) (x : Q) :
  lo ≤ hi →
  ∃ q, py_max (of_int lo) (py_min (Finite x) (of_int hi)) = Finite q
       ∧ (inject_Z lo <= q)%Q ∧ (q <= inject_Z hi)%Q.
Proof.
  intros Hle. assert (Hq : (inject_Z lo <= inject_Z hi)%Q) by (by rewrite <- Zle_Qle).
  unfold py_min, py_max, of_int; simpl.
  destruct (Qltb (inject_Z hi) x) eqn:E1; simpl.
  - destruct (Qltb (inject_Z lo) (inject_Z hi)) eqn:E2.
    + eexists; split; [done|]. split; [done|apply Qle_refl].
    + apply Qltb_ge in E2. eexists; split; [done|]. split; [apply Qle_refl|done].
  - apply Qltb_ge in E1. destruct (Qltb (inject_Z lo) x) eqn:E2.
    + apply Qltb_lt in E2. eexists; split; [done|]. split; [by apply Qlt_le_weak|done].
    + eexists; split; [done|]. split; [apply Qle_refl|done].
Qed.


(** ** C10: the radius of a piece *)

Lemma _calculate_radius_mono (l1 l2 : Z) :
  l1 < l2 → _calculate_radius l1 < _calculate_radius l2.
Proof. unfold _calculate_radius. lia. Qed.

(** C10. A piece constructed at a level [L] between 1 and 10 keeps that level
    and has radius [45 + (L-1)*8], whatever the position, the initial state
    and the rest of the program state are; and over these levels a higher
    level gives a strictly larger radius. *)
Theorem radius_of_level (L : Z) (pos : Vec2d) (st : wm_state) (g : Game) :
  1 ≤ L ≤ 10 →
  level (wm_of (Watermelon_init pos L st g).2 (Watermelon_init pos L st g).1) = L
  ∧ radius (wm_of (Watermelon_init pos L st g).2 (Watermelon_init pos L st g).1)
    = 45 + (L - 1) * 8
  ∧ ∀ L' pos' st' g', L < L' ≤ 10 →
      radius (wm_of (Watermelon_init pos L st g).2 (Watermelon_init pos L st g).1)
      < radius (wm_of (Watermelon_init pos' L' st' g').2 (Watermelon_init pos' L' st' g').1).
Proof.
  intros HL.
  assert (Hinit : ∀ l p s h, l ≤ 10 →
    wm_of (Watermelon_init p l s h).2 (Watermelon_init p l s h).1
    = mkWatermelon l (_calculate_radius l) s false (next_id h) (next_id h)).
  { intros l p s h Hl. unfold wm_of, Watermelon_init; simpl.
    rewrite lookup_insert_eq; simpl. unfold MAX_LEVEL. by rewrite Z.min_l by lia. }
  split; [by rewrite Hinit by lia|]. split; [by rewrite Hinit by lia|].
  intros L' pos' st' g' HL'. rewrite !Hinit by lia.
  apply _calculate_radius_mono. lia.
Qed.

Lemma radius_of_level_witness :
  radius (wm_of (Watermelon_init (vec_of_ints 300 50) 3 MOVING new_game).2
                (Watermelon_init (vec_of_ints 300 50) 3 MOVING new_game).1) = 61.
Proof.
  destruct (radius_of_level 3 (vec_of_ints 300 50) MOVING new_game) as (_ & H & _); [lia|].
  exact H.
Defined.

(** ** C9: the per-frame correction of a piece *)

Lemma bodies_set_position_is_Some g b p b' :
  is_Some (bodies g !! b') → is_Some (bodies (set_position b p g) !! b').
Proof.
  intros [bo Hbo]. unfold set_position; simpl. rewrite lookup_alter.
  destruct (decide (b = b')) as [->|]; rewrite ?Hbo; eauto.
Qed.

Lemma radius_bounds (o : Watermelon) :
  radius o = _calculate_radius (level o) → level o ≤ MAX_LEVEL →
  radius o < WIDTH `div` 2 ∧ WIDTH `div` 2 ≤ WIDTH - radius o.
Proof.
  intros -> Hl. unfold _calculate_radius, MAX_LEVEL, WIDTH in *.
  change (600 `div` 2) with 300. lia.
Qed.

(** The position [update] leaves a piece at, by cases on what it found. *)
Lemma Watermelon_update_pos g w o bo :
  wms g !! w = Some o → bodies g !! body o = Some bo →
  pos_of (Watermelon_update w g) w =
    let p := if vec_finite (position bo) then position bo
             else vec_of_ints (WIDTH `div` 2) (HEIGHT `div` 2) in
    if decide (state o = WAITING)
    then mkVec (py_max (of_int (radius o)) (py_min (vx p) (of_int (WIDTH - radius o))))
               (of_int 50)
    else p.
Proof.
  intros Hw Hb. unfold Watermelon_update.
  assert (Hpos : pos_of g w = position bo).
  { unfold pos_of. by rewrite (wm_of_lookup _ _ _ Hw), (body_of_lookup _ _ _ Hb). }
  pose proof (wm_of_lookup _ _ _ Hw) as Ho.
  rewrite Hpos, Ho. unfold vec_finite.
  destruct (isfinite (vx (position bo))), (isfinite (vy (position bo))); simpl;
    destruct (decide (state o = WAITING)); simpl; try done;
    repeat (rewrite pos_of_set_position_same;
            [|by rewrite ?wm_of_set_position, Ho|by eauto using bodies_set_position_is_Some]);
    by rewrite ?Hpos.
Qed.




(** ** C7: nothing happens after game-over *)

Lemma handle_events_game_over evs g :
  game_over g = true → KEYDOWN K_r ∉ evs →
  for_each handle_event evs g = if bool_decide (QUIT ∈ evs) then Exited else Done g.
Proof.
  intros Hover. induction evs as [|ev evs IH]; intros Hr; [done|].
  apply not_elem_of_cons in Hr as [Hne Hr]. specialize (IH Hr). simpl.
  destruct ev as [|k|]; simpl.
  - done.
  - rewrite Hover; simpl. rewrite bool_decide_false by congruence. simpl.
    rewrite IH. replace (bool_decide (QUIT ∈ KEYDOWN k :: evs)) with (bool_decide (QUIT ∈ evs));
      [done|]. apply bool_decide_ext. rewrite elem_of_cons. intuition congruence.
  - rewrite IH. replace (bool_decide (QUIT ∈ OtherEvent :: evs)) with (bool_decide (QUIT ∈ evs));
      [done|]. apply bool_decide_ext. rewrite elem_of_cons. intuition congruence.
Qed.

Lemma frame_game_over inp ph g :
  game_over g = true → restarts inp = false →
  frame inp ph g = if quits inp then Exited else Done g.
Proof.
  intros Hover Hr. unfold frame, _handle_input, quits.
  rewrite handle_events_game_over; [|done|by apply bool_decide_eq_false in Hr].
  destruct (bool_decide (QUIT ∈ events inp)); [done|]. simpl.
  unfold move_waiting. rewrite Hover. simpl. by rewrite Hover.
Qed.

(** C7. From a state whose game-over flag is set, frames without a restart
    key leave the whole state as it is (no piece is created, no pair is
    merged, no body moves and the score stays), whatever else the player does
    and whatever the physics engine would report, until the program is
    quit. *)
Theorem game_over_is_final (tr : list (Input * PhysOut)) (g : Game) :
  game_over g = true →
  forallb (λ f, negb (restarts f.1)) tr = true →
  run tr g = if existsb (λ f, quits f.1) tr then Exited else Done g.
Proof.
  intros Hover. induction tr as [|[inp ph] tr IH]; intros Hr; [done|].
  simpl in Hr. apply andb_true_iff in Hr as [Hr1 Hr2]. apply negb_true_iff in Hr1.
  simpl. rewrite frame_game_over by done.
  destruct (quits inp); [done|]. simpl. by apply IH.
Qed.

Lemma blocked_reached :
  run ((release_key, still) :: replicate 59 (idle, still)) new_game = Done blocked.
Proof. vm_compute. reflexivity. Qed.

Lemma game_over_is_final_witness : run after_game_over blocked = Done blocked.
Proof. exact (game_over_is_final after_game_over blocked eq_refl eq_refl). Defined.

(** ** Every state of a run is well formed *)

(** *** Lists *)

Lemma filter_all {A} (P : A → Prop) `{∀ x, Decision (P x)} (l : list A) :
  (∀ x, x ∈ l → P x) → filter P l = l.
Proof.
  induction l as [|y l IH]; intros Hall; [done|].
  rewrite filter_cons_True by (apply Hall; left).
  f_equal. apply IH. intros x Hx. apply Hall. by right.
Qed.

Lemma filter_none {A} (P : A → Prop) `{∀ x, Decision (P x)} (l : list A) :
  (∀ x, x ∈ l → ¬ P x) → filter P l = [].
Proof.
  induction l as [|y l IH]; intros Hall; [done|].
  rewrite filter_cons_False by (apply Hall; left).
  apply IH. intros x Hx. apply Hall. by right.
Qed.

Lemma remove_first_nodup {A} `{EqDecision A} (x : A) (l : list A) :
  NoDup l → x ∈ l → remove_first x l = Some (filter (λ y, y ≠ x) l).
Proof.
  induction l as [|y l IH]; intros Hnd Hin; [by apply elem_of_nil in Hin|].
  apply NoDup_cons in Hnd as [Hy Hnd]. simpl.
  destruct (decide (x = y)) as [->|Hne].
  - rewrite filter_cons_False by (intros ?; done). f_equal.
    symmetry. apply filter_all. intros z Hz ->. done.
  - apply elem_of_cons in Hin as [?|Hin]; [done|].
    rewrite IH by done. simpl. by rewrite filter_cons_True by done.
Qed.

Lemma elem_of_flat_pairs l w :
  w ∈ flat_pairs l ↔ ∃ p, p ∈ l ∧ (w = p.1 ∨ w = p.2).
Proof.
  unfold flat_pairs. rewrite list_elem_of_bind. split.
  - intros (p & Hw & Hp). exists p. split; [done|].
    apply elem_of_cons in Hw as [?|Hw]; [by left|].
    apply list_elem_of_singleton in Hw. by right.
  - intros (p & Hp & Hw). exists p. split; [|done].
    destruct Hw as [->| ->]; [left|right; left].
Qed.

Lemma flat_pairs_app l k : flat_pairs (l ++ k) = flat_pairs l ++ flat_pairs k.
Proof. unfold flat_pairs. apply bind_app. Qed.

Lemma flat_pairs_cons p l : flat_pairs (p :: l) = p.1 :: p.2 :: flat_pairs l.
Proof. done. Qed.

(** In a list of pairs without a repeated member, two pairs with a common
    member are the same pair. *)
Lemma flat_pairs_nodup_disjoint l p q :
  NoDup (flat_pairs l) → p ∈ l → q ∈ l →
  (p.1 = q.1 ∨ p.1 = q.2 ∨ p.2 = q.1 ∨ p.2 = q.2) → p = q.
Proof.
  induction l as [|r l IH]; intros Hnd Hp Hq Hc; [by apply elem_of_nil in Hp|].
  rewrite flat_pairs_cons in Hnd.
  apply NoDup_cons in Hnd as [H1 Hnd]. apply NoDup_cons in Hnd as [H2 Hnd].
  assert (Hout : ∀ s, s ∈ l → s.1 ≠ r.1 ∧ s.1 ≠ r.2 ∧ s.2 ≠ r.1 ∧ s.2 ≠ r.2).
  { intros s Hs. repeat split; intros E.
    - apply H1. right. apply elem_of_flat_pairs. exists s. auto.
    - apply H2. apply elem_of_flat_pairs. exists s. auto.
    - apply H1. right. apply elem_of_flat_pairs. exists s. auto.
    - apply H2. apply elem_of_flat_pairs. exists s. auto. }
  apply elem_of_cons in Hp as [->|Hp]; apply elem_of_cons in Hq as [->|Hq].
  - done.
  - destruct (Hout q Hq) as (? & ? & ? & ?). destruct Hc as [?|[?|[?|?]]]; congruence.
  - destruct (Hout p Hp) as (? & ? & ? & ?). destruct Hc as [?|[?|[?|?]]]; congruence.
  - by apply IH.
Qed.

Lemma flat_pairs_nodup_distinct l p :
  NoDup (flat_pairs l) → p ∈ l → p.1 ≠ p.2.
Proof.
  induction l as [|r l IH]; intros Hnd Hp; [by apply elem_of_nil in Hp|].
  rewrite flat_pairs_cons in Hnd.
  apply NoDup_cons in Hnd as [H1 Hnd]. apply NoDup_cons in Hnd as [H2 Hnd].
  apply elem_of_cons in Hp as [->|Hp]; [|by apply IH].
  intros E. apply H1. rewrite E. left.
Qed.

Lemma flat_pairs_nodup_filter (P : positive * positive → Prop) `{∀ x, Decision (P x)} l :
  NoDup (flat_pairs l) → NoDup (flat_pairs (filter P l)).
Proof.
  induction l as [|r l IH]; intros Hnd; [done|].
  rewrite flat_pairs_cons in Hnd.
  apply NoDup_cons in Hnd as [H1 Hnd]. apply NoDup_cons in Hnd as [H2 Hnd].
  rewrite filter_cons. destruct (decide (P r)); [|by apply IH].
  rewrite flat_pairs_cons. apply NoDup_cons. split.
  - intros Hin. apply H1. apply elem_of_cons in Hin as [E|Hin]; [rewrite E; left|right].
    apply elem_of_flat_pairs in Hin as (s & Hs & Hw).
    apply list_elem_of_filter in Hs as [_ Hs]. apply elem_of_flat_pairs. eauto.
  - apply NoDup_cons. split; [|by apply IH].
    intros Hin. apply H2. apply elem_of_flat_pairs in Hin as (s & Hs & Hw).
    apply list_elem_of_filter in Hs as [_ Hs]. apply elem_of_flat_pairs. eauto.
Qed.

(** *** Consequences of well-formedness *)

Lemma store_wm_of g w o : wms g !! w = Some o → wm_of g w = o.
Proof. apply wm_of_lookup. Qed.

Lemma store_body_inj g w1 w2 o1 o2 :
  StoreOk g → wms g !! w1 = Some o1 → wms g !! w2 = Some o2 →
  body o1 = body o2 → w1 = w2.
Proof.
  intros Hs H1 H2 E.
  destruct (st_wms g Hs _ _ H1) as (_ & _ & _ & bo1 & so1 & Hb1 & Hu1 & _).
  destruct (st_wms g Hs _ _ H2) as (_ & _ & _ & bo2 & so2 & Hb2 & Hu2 & _).
  rewrite E in Hb1. congruence.
Qed.

Lemma store_shape_inj g w1 w2 o1 o2 :
  StoreOk g → wms g !! w1 = Some o1 → wms g !! w2 = Some o2 →
  shape o1 = shape o2 → w1 = w2.
Proof.
  intros Hs H1 H2 E. apply (store_body_inj g w1 w2 o1 o2 Hs H1 H2).
  destruct (st_wms g Hs _ _ H1) as (_ & _ & _ & bo1 & so1 & _ & _ & Hs1 & Hsb1).
  destruct (st_wms g Hs _ _ H2) as (_ & _ & _ & bo2 & so2 & _ & _ & Hs2 & Hsb2).
  rewrite E in Hs1. congruence.
Qed.

(** A live piece that is still Waiting has nothing registered. *)
Lemma waiting_unregistered g w o :
  Inv g → wms g !! w = Some o → state o = WAITING →
  (body o ∉ space_bodies g) ∧ (shape o ∉ space_shapes g).
Proof.
  intros HI Hw Hst.
  destruct (st_wms g (inv_store g HI) _ _ Hw) as (_ & _ & _ & bo & so & Hb & Hu & Hs & Hsb).
  assert (Hnb : body o ∉ space_bodies g).
  { intros Hin. destruct (inv_space_bodies g HI _ Hin) as (bo' & Hb' & Hm).
    rewrite Hb in Hb'. injection Hb' as <-. rewrite Hu in Hm.
    destruct Hm as (_ & _ & Hne). by rewrite (wm_of_lookup _ _ _ Hw) in Hne. }
  split; [done|]. intros Hin.
  destruct (inv_space_shapes g HI _ Hin) as (so' & Hs' & Hsb' & _).
  rewrite Hs in Hs'. injection Hs' as <-. by rewrite Hsb in Hsb'.
Qed.

(** At most one live piece is Waiting, and it is the tracked one. *)
Lemma waiting_pieces g :
  Inv g →
  filter (λ w, state (wm_of g w) = WAITING) (watermelons g)
  = if decide (state (wm_of g (waiting_wm g)) = WAITING) then [waiting_wm g] else [].
Proof.
  intros HI.
  assert (Hall : ∀ w, w ∈ watermelons g → state (wm_of g w) = WAITING → w = waiting_wm g).
  { intros w Hw Hst. destruct (inv_live g HI _ Hw) as (o & Ho & Hwait & _).
    rewrite (wm_of_lookup _ _ _ Ho) in Hst. auto. }
  pose proof (inv_waiting_live g HI) as Hlive. pose proof (inv_live_nodup g HI) as Hnd.
  revert Hall Hlive Hnd. generalize (waiting_wm g) as t. generalize (watermelons g) as l.
  induction l as [|x l IH]; intros t Hall Hlive Hnd.
  - destruct (decide _) as [E|]; [|done]. specialize (Hlive E). by apply elem_of_nil in Hlive.
  - apply NoDup_cons in Hnd as [Hx Hnd]. rewrite filter_cons.
    destruct (decide (state (wm_of g x) = WAITING)) as [Ex|Ex].
    + assert (x = t) as -> by (apply Hall; [left|done]).
      rewrite decide_True by done. f_equal.
      apply filter_none. intros y Hy Ey. apply Hx.
      by rewrite <- (Hall y (list_elem_of_further _ _ _ Hy) Ey).
    + apply IH; [|intros E|done].
      * intros y Hy. apply Hall. by right.
      * specialize (Hlive E). apply elem_of_cons in Hlive as [->|?]; done.
Qed.

(** *** Writing a position *)

Lemma bodies_set_position g b p b' :
  bodies (set_position b p g) !! b'
  = (λ bo, if decide (b = b') then with_position p bo else bo) <$> bodies g !! b'.
Proof.
  unfold set_position; simpl. rewrite lookup_alter.
  destruct (decide (b = b')) as [->|]; by destruct (bodies g !! b').
Qed.

Lemma user_data_set_position g b p b' :
  user_data (body_of (set_position b p g) b') = user_data (body_of g b').
Proof.
  unfold body_of. rewrite bodies_set_position.
  destruct (bodies g !! b'); simpl; [|done]. by destruct (decide (b = b')).
Qed.

Lemma StoreOk_set_position g b p : StoreOk g → StoreOk (set_position b p g).
Proof.
  intros [Hw Hb Hs]. constructor.
  - intros w o Ho. destruct (Hw w o Ho) as (? & ? & ? & bo & so & Hbo & Hu & Hso & Hsb).
    repeat (split; [done|]).
    exists (if decide (b = body o) then with_position p bo else bo), so.
    rewrite bodies_set_position, Hbo. repeat split; try done.
    by destruct (decide (b = body o)).
  - intros a. rewrite bodies_set_position, fmap_is_Some. apply Hb.
  - apply Hs.
Qed.

(** The invariant does not depend on where the pieces are; of the walls it
    only records that they stay at finite coordinates. *)
Lemma Inv_set_position g b p :
  Inv g →
  (∀ bo, bodies g !! b = Some bo → user_data bo = None → vec_finite p = true) →
  Inv (set_position b p g).
Proof.
  intros HI Hwall. constructor; try apply HI.
  - apply StoreOk_set_position, HI.
  - intros b' Hb'. destruct (inv_space_bodies g HI b' Hb') as (bo & Hbo & Hm).
    exists (if decide (b = b') then with_position p bo else bo).
    rewrite bodies_set_position, Hbo. split; [done|].
    destruct (decide (b = b')) as [->|]; [|done]. simpl.
    destruct (user_data bo) eqn:Hu; [done|]. split; [apply Hm|]. by apply (Hwall bo).
  - intros s Hs. destruct (inv_space_shapes g HI s Hs) as (so & Hso & Hin & Hsh).
    exists so. repeat split; try done. intros w. rewrite user_data_set_position. apply Hsh.
Qed.


(** *** [update] on every live piece *)

Lemma clamp_finite (lo hi : Z) (x : pyfloat) :
  isfinite (py_max (of_int lo) (py_min x (of_int hi))) = true.
Proof.
  unfold py_max, py_min, of_int. destruct x as [q| | |]; simpl.
  - destruct (Qltb (inject_Z hi) q); simpl;
      by destruct (Qltb (inject_Z lo) _).
  - by destruct (Qltb (inject_Z lo) (inject_Z hi)).
  - done.
  - done.
Qed.

Lemma fin_at_set_position g b p b' :
  vec_finite p = true → fin_at g b' → fin_at (set_position b p g) b'.
Proof.
  unfold fin_at. intros Hp Hf. rewrite body_of_set_position.
  destruct (decide (b = b')) as [->|]; [|done].
  unfold body_of in Hf. by destruct (bodies g !! b').
Qed.

(** [update] as the two writes it may perform. *)
Lemma Watermelon_update_writes w g :
  ∃ p1 p2, vec_finite p1 = true ∧ vec_finite p2 = true ∧
    (Watermelon_update w g = g
     ∨ Watermelon_update w g = set_position (body (wm_of g w)) p1 g
     ∨ Watermelon_update w g
       = set_position (body (wm_of g w)) p2 (set_position (body (wm_of g w)) p1 g)
     ∨ Watermelon_update w g = set_position (body (wm_of g w)) p2 g).
Proof.
  set (c := vec_of_ints (WIDTH `div` 2) (HEIGHT `div` 2)).
  set (g1 := set_position (body (wm_of g w)) c g).
  set (clamp := λ h : Game, mkVec (py_max (of_int (radius (wm_of g w)))
      (py_min (vx (pos_of h w)) (of_int (WIDTH - radius (wm_of g w))))) (of_int 50)).
  assert (Hcl : ∀ h, vec_finite (clamp h) = true).
  { intros h. unfold vec_finite, clamp; simpl. by rewrite clamp_finite. }
  unfold Watermelon_update. fold c. fold g1.
  destruct (negb (isfinite (vx (pos_of g w))) || negb (isfinite (vy (pos_of g w))));
    destruct (decide (state (wm_of g w) = WAITING)).
  - exists c, (clamp g1). repeat split; [apply Hcl|]. right; right; left. done.
  - exists c, c. repeat split. right; left. done.
  - exists c, (clamp g). repeat split; [apply Hcl|]. right; right; right. done.
  - exists c, c. repeat split. by left.
Qed.

Lemma Watermelon_update_Inv w g : Inv g → Inv (Watermelon_update w g).
Proof.
  intros HI. destruct (Watermelon_update_writes w g) as (p1 & p2 & H1 & H2 & Hc).
  destruct Hc as [-> | [-> | [-> | ->]]]; auto using Inv_set_position.
Qed.

Lemma Watermelon_update_fin w g b : fin_at g b → fin_at (Watermelon_update w g) b.
Proof.
  intros Hf. destruct (Watermelon_update_writes w g) as (p1 & p2 & H1 & H2 & Hc).
  destruct Hc as [-> | [-> | [-> | ->]]]; auto using fin_at_set_position.
Qed.

Lemma Watermelon_update_frame w g :
  wms (Watermelon_update w g) = wms g
  ∧ watermelons (Watermelon_update w g) = watermelons g
  ∧ space_bodies (Watermelon_update w g) = space_bodies g
  ∧ merge_pairs (Watermelon_update w g) = merge_pairs g
  ∧ can_spawn (Watermelon_update w g) = can_spawn g
  ∧ game_over (Watermelon_update w g) = game_over g
  ∧ score (Watermelon_update w g) = score g.
Proof.
  destruct (Watermelon_update_writes w g) as (p1 & p2 & H1 & H2 & Hc).
  by destruct Hc as [-> | [-> | [-> | ->]]].
Qed.

Lemma Watermelon_update_fin_self w g o bo :
  wms g !! w = Some o → bodies g !! body o = Some bo →
  fin_at (Watermelon_update w g) (body o).
Proof.
  intros Hw Hb. pose proof (Watermelon_update_pos g w o bo Hw Hb) as Hp.
  unfold fin_at. unfold pos_of in Hp.
  destruct (Watermelon_update_frame w g) as (Hwms & _).
  unfold wm_of in Hp. rewrite Hwms, Hw in Hp. simpl in Hp. rewrite Hp.
  destruct (decide (state o = WAITING)).
  - unfold vec_finite; simpl. by rewrite clamp_finite.
  - by destruct (vec_finite (position bo)) eqn:E.
Qed.

Lemma update_loop l g :
  Inv g → l ⊆ watermelons g →
  let g' := foldl (λ g wm, Watermelon_update wm g) g l in
  Inv g'
  ∧ (wms g' = wms g ∧ watermelons g' = watermelons g ∧ space_bodies g' = space_bodies g
     ∧ merge_pairs g' = merge_pairs g ∧ can_spawn g' = can_spawn g
     ∧ game_over g' = game_over g ∧ score g' = score g)
  ∧ (∀ b, fin_at g b → fin_at g' b)
  ∧ (∀ w, w ∈ l → fin_at g' (body (wm_of g w))).
Proof.
  revert g. induction l as [|x l IH]; intros g HI Hsub; simpl.
  - do 3 (split; [done|]). intros w Hw. by apply elem_of_nil in Hw.
  - destruct (Watermelon_update_frame x g) as (E1 & E2 & E3 & E4 & E5 & E6 & E7).
    destruct (IH (Watermelon_update x g)) as (HI' & (F1 & F2 & F3 & F4 & F5 & F6 & F7) & Hpres & Hfin).
    { by apply Watermelon_update_Inv. }
    { rewrite E2. intros y Hy. apply Hsub. by right. }
    split; [done|]. split; [repeat split; congruence|]. split.
    + intros b Hb. by apply Hpres, Watermelon_update_fin.
    + intros w Hw. apply elem_of_cons in Hw as [Ew|Hw].
      * subst w. apply Hpres. destruct (inv_live g HI x) as (o & Ho & _); [apply Hsub; left|].
        destruct (st_wms g (inv_store g HI) _ _ Ho) as (_ & _ & _ & bo & _ & Hbo & _).
        rewrite (wm_of_lookup _ _ _ Ho). by apply (Watermelon_update_fin_self x g o bo).
      * specialize (Hfin w Hw). unfold wm_of in Hfin |- *. by rewrite E1 in Hfin.
Qed.

Lemma update_all_Inv g :
  Inv g →
  Inv (update_all g) ∧ space_finite (update_all g)
  ∧ merge_pairs (update_all g) = merge_pairs g
  ∧ watermelons (update_all g) = watermelons g
  ∧ wms (update_all g) = wms g
  ∧ can_spawn (update_all g) = can_spawn g
  ∧ game_over (update_all g) = game_over g
  ∧ score (update_all g) = score g.
Proof.
  intros HI. destruct (update_loop (watermelons g) g HI) as (HI' & F & Hpres & Hfin); [done|].
  fold (update_all g) in *. destruct F as (F1 & F2 & F3 & F4 & F5 & F6 & F7).
  split; [done|]. split; [|by repeat split].
  intros b Hb. rewrite F3 in Hb.
  destruct (inv_space_bodies g HI b Hb) as (bo & Hbo & Hm).
  destruct (user_data bo) as [w|] eqn:Hu.
  - destruct Hm as (Hw & <- & _). by apply Hfin.
  - apply Hpres. unfold fin_at. rewrite (body_of_lookup _ _ _ Hbo). apply Hm.
Qed.

(** *** Constructing a piece *)

Section construct.
Context (pos : Vec2d) (lvl : Z) (st : wm_state) (g : Game).
Let a := next_id g.
Let g' := (Watermelon_init pos lvl st g).2.

Lemma Watermelon_init_fst : (Watermelon_init pos lvl st g).1 = next_id g.
Proof. done. Qed.

Lemma Watermelon_init_wms w : w ≠ next_id g → wms g' !! w = wms g !! w.
Proof. intros Hne. subst g'; simpl. by rewrite lookup_insert_ne. Qed.
Lemma Watermelon_init_bodies b : b ≠ next_id g → bodies g' !! b = bodies g !! b.
Proof. intros Hne. subst g'; simpl. by rewrite lookup_insert_ne. Qed.
Lemma Watermelon_init_shapes s : s ≠ next_id g → shapes g' !! s = shapes g !! s.
Proof. intros Hne. subst g'; simpl. by rewrite lookup_insert_ne. Qed.

Lemma Watermelon_init_wm_of w : w ≠ next_id g → wm_of g' w = wm_of g w.
Proof. intros Hne. unfold wm_of. by rewrite Watermelon_init_wms. Qed.
Lemma Watermelon_init_body_of b : b ≠ next_id g → body_of g' b = body_of g b.
Proof. intros Hne. unfold body_of. by rewrite Watermelon_init_bodies. Qed.

Lemma Watermelon_init_new_wm :
  wms g' !! next_id g
  = Some (mkWatermelon (Z.min lvl MAX_LEVEL) (_calculate_radius (Z.min lvl MAX_LEVEL))
            st false (next_id g) (next_id g)).
Proof. subst g'; simpl. by rewrite lookup_insert_eq. Qed.

Lemma Watermelon_init_new_body :
  ∃ bo, bodies g' !! next_id g = Some bo ∧ position bo = pos
        ∧ user_data bo = Some (next_id g)
        ∧ body_type bo = (if decide (st = WAITING) then KINEMATIC else DYNAMIC).
Proof. subst g'; simpl. rewrite lookup_insert_eq. destruct st; eauto. Qed.

Lemma Watermelon_init_new_shape :
  shapes g' !! next_id g = Some (mkShape (next_id g) (_calculate_radius (Z.min lvl MAX_LEVEL)) 1).
Proof. subst g'; simpl. by rewrite lookup_insert_eq. Qed.

Lemma StoreOk_Watermelon_init : StoreOk g → StoreOk g'.
Proof.
  intros [Hw Hb Hs]. constructor.
  - intros w o. destruct (decide (w = next_id g)) as [->|Hne].
    + rewrite Watermelon_init_new_wm. intros [= <-].
      destruct Watermelon_init_new_body as (bo & Hbo & _ & Hu & _).
      pose proof Watermelon_init_new_shape as Hso.
      split; [simpl; lia|]. split; [simpl; unfold MAX_LEVEL; lia|]. split; [done|].
      by exists bo, (mkShape (next_id g) (_calculate_radius (Z.min lvl MAX_LEVEL)) 1).
    + rewrite Watermelon_init_wms by done. intros Ho.
      destruct (Hw w o Ho) as (? & ? & ? & bo & so & Hbo & Hu & Hso & Hsb).
      split; [simpl; lia|]. do 2 (split; [done|]). exists bo, so.
      rewrite Watermelon_init_bodies, Watermelon_init_shapes; [done| |].
      * assert (shape o < next_id g)%positive by (apply Hs; eauto). lia.
      * assert (body o < next_id g)%positive by (apply Hb; eauto). lia.
  - intros b [bo Hbo]. destruct (decide (b = next_id g)) as [->|Hne]; [simpl; lia|].
    rewrite Watermelon_init_bodies in Hbo by done.
    assert (b < next_id g)%positive by (apply Hb; eauto). simpl; lia.
  - intros s [so Hso]. destruct (decide (s = next_id g)) as [->|Hne]; [simpl; lia|].
    rewrite Watermelon_init_shapes in Hso by done.
    assert (s < next_id g)%positive by (apply Hs; eauto). simpl; lia.
Qed.
End construct.

Lemma Watermelon_init_pair pos lvl st g :
  Watermelon_init pos lvl st g = (next_id g, (Watermelon_init pos lvl st g).2).
Proof. done. Qed.

Lemma live_allocated g w : Inv g → w ∈ watermelons g → w ≠ next_id g.
Proof.
  intros HI Hw. destruct (inv_live g HI w Hw) as (o & Ho & _).
  destruct (st_wms g (inv_store g HI) _ _ Ho) as (? & _). lia.
Qed.

Lemma registered_body_allocated g b : Inv g → b ∈ space_bodies g → b ≠ next_id g.
Proof.
  intros HI Hb. destruct (inv_space_bodies g HI b Hb) as (bo & Hbo & _).
  assert (b < next_id g)%positive by (apply (st_bodies g (inv_store g HI)); eauto). lia.
Qed.

Lemma registered_shape_allocated g s : Inv g → s ∈ space_shapes g → s ≠ next_id g.
Proof.
  intros HI Hs. destruct (inv_space_shapes g HI s Hs) as (so & Hso & _).
  assert (s < next_id g)%positive by (apply (st_shapes g (inv_store g HI)); eauto). lia.
Qed.

Lemma waiting_allocated g : Inv g → waiting_wm g ≠ next_id g.
Proof.
  intros HI. destruct (inv_waiting g HI) as (o & Ho).
  destruct (st_wms g (inv_store g HI) _ _ Ho) as (? & _). lia.
Qed.

Ltac allocated :=
  first [ by apply live_allocated
        | by apply registered_body_allocated
        | by apply registered_shape_allocated
        | by apply waiting_allocated ].

(** A new object that nothing refers to yet leaves the state well formed. *)
Lemma Watermelon_init_Inv pos lvl st g : Inv g → Inv (Watermelon_init pos lvl st g).2.
Proof.
  intros HI. constructor; try apply HI.
  - apply StoreOk_Watermelon_init, HI.
  - intros w Hw. destruct (inv_live g HI w Hw) as (o & Ho & H1 & H2).
    exists o. rewrite Watermelon_init_wms by allocated. done.
  - intros b Hb. destruct (inv_space_bodies g HI b Hb) as (bo & Hbo & Hm).
    exists bo. rewrite Watermelon_init_bodies by allocated.
    split; [done|]. destruct (user_data bo) as [w|]; [|done].
    destruct Hm as (Hw & ? & ?).
    rewrite Watermelon_init_wm_of by allocated. done.
  - intros s Hs. destruct (inv_space_shapes g HI s Hs) as (so & Hso & Hin & Hsh).
    exists so. rewrite Watermelon_init_shapes by allocated.
    do 2 (split; [done|]). intros w.
    rewrite Watermelon_init_body_of by allocated.
    intros Hu. destruct (inv_space_bodies g HI _ Hin) as (bo & Hbo & Hm).
    rewrite (body_of_lookup _ _ _ Hbo) in Hu. rewrite Hu in Hm. destruct Hm as (Hw & _).
    rewrite Watermelon_init_wm_of by allocated. apply Hsh.
    by rewrite (body_of_lookup _ _ _ Hbo).
  - destruct (inv_waiting g HI) as (o & Ho). exists o.
    change (waiting_wm (Watermelon_init pos lvl st g).2) with (waiting_wm g).
    rewrite Watermelon_init_wms by allocated. done.
  - change (waiting_wm (Watermelon_init pos lvl st g).2) with (waiting_wm g).
    rewrite Watermelon_init_wm_of by allocated. apply HI.
  - change (waiting_wm (Watermelon_init pos lvl st g).2) with (waiting_wm g).
    rewrite Watermelon_init_wm_of by allocated. apply HI.
  - intros p Hp. destruct (inv_pairs g HI p Hp) as (H1 & H2 & H).
    rewrite !Watermelon_init_wm_of by allocated. done.
Qed.

(** *** Fields the invariant does not read *)

Lemma StoreOk_same g g' :
  wms g' = wms g → bodies g' = bodies g → shapes g' = shapes g → next_id g' = next_id g →
  StoreOk g → StoreOk g'.
Proof.
  intros E1 E2 E3 E4 [Hw Hb Hs]. constructor; rewrite ?E1, ?E2, ?E3, ?E4; done.
Qed.

Ltac same_store HI :=
  match type of HI with
  | Inv ?g => apply (StoreOk_same g); [reflexivity..|apply (inv_store g HI)]
  end.

Lemma Inv_set_cooldown q g : Inv g → Inv (set_cooldown q g).
Proof. intros HI. constructor; try apply HI. same_store HI. Qed.
Lemma Inv_set_game_over b g : Inv g → Inv (set_game_over b g).
Proof. intros HI. constructor; try apply HI. same_store HI. Qed.
Lemma Inv_set_score z g : Inv g → Inv (set_score z g).
Proof. intros HI. constructor; try apply HI. same_store HI. Qed.
Lemma Inv_set_can_spawn_true g : Inv g → Inv (set_can_spawn true g).
Proof. intros HI. constructor; try apply HI; [same_store HI|done]. Qed.

(** *** Spawning the next piece *)

Lemma Inv_spawn g a o :
  Inv g → can_spawn g = true →
  wms g !! a = Some o → state o = WAITING → a ∉ watermelons g →
  (∀ w, w ∈ watermelons g → state (wm_of g w) ≠ WAITING) →
  Inv (set_waiting_wm a (set_watermelons (watermelons g ++ [a]) g)).
Proof.
  intros HI Hcan Ha Hst Hnew Hnone. constructor; try apply HI; simpl.
  - same_store HI.
  - apply NoDup_app. split; [apply HI|]. split; [|apply NoDup_singleton].
    intros x Hx Hx'. apply list_elem_of_singleton in Hx' as ->. done.
  - intros w Hw. apply elem_of_app in Hw as [Hw|Hw].
    + destruct (inv_live g HI w Hw) as (o' & Ho' & _ & H2). exists o'.
      split; [done|]. split; [|done]. intros E. destruct (Hnone w Hw).
      by rewrite (wm_of_lookup _ _ _ Ho').
    + apply list_elem_of_singleton in Hw as ->. exists o. done.
  - intros b Hb. destruct (inv_space_bodies g HI b Hb) as (bo & Hbo & Hm).
    exists bo. split; [done|]. destruct (user_data bo); [|done].
    destruct Hm as (? & ? & ?). split; [|done]. apply elem_of_app. by left.
  - eauto.
  - intros _. apply elem_of_app. right. left.
  - congruence.
  - intros p Hp. destruct (inv_pairs g HI p Hp) as (H1 & H2 & H).
    split; [apply elem_of_app; by left|]. split; [apply elem_of_app; by left|]. done.
Qed.

Lemma tick_cooldown_Inv g : Inv g → can_spawn g = false → Inv (tick_cooldown g).
Proof.
  intros HI Hcan. unfold tick_cooldown.
  set (g1 := set_cooldown _ g).
  assert (HI1 : Inv g1) by by apply Inv_set_cooldown.
  destruct (Qle_bool (cooldown g1) 0); [|done].
  set (g2 := set_can_spawn true g1).
  assert (HI2 : Inv g2) by by apply Inv_set_can_spawn_true.
  rewrite (Watermelon_init_pair _ 1 WAITING g2).
  set (g3 := (Watermelon_init (vec_of_ints (WIDTH `div` 2) 50) 1 WAITING g2).2).
  assert (HI3 : Inv g3) by by apply Watermelon_init_Inv.
  destruct (existsb _ _); [by apply Inv_set_game_over|].
  eapply Inv_spawn; try done.
  - apply Watermelon_init_new_wm.
  - done.
  - intros Hin. exact (live_allocated g _ HI Hin eq_refl).
  - intros w Hw. change (watermelons g3) with (watermelons g) in Hw.
    unfold g3. rewrite Watermelon_init_wm_of.
    + destruct (inv_live g HI w Hw) as (o & Ho & H1 & _).
      change (wm_of g2 w) with (wm_of g w). rewrite (wm_of_lookup _ _ _ Ho).
      intros Hst. specialize (H1 Hst). subst w.
      apply (inv_spawn g HI Hcan). by rewrite (wm_of_lookup _ _ _ Ho).
    + exact (live_allocated g _ HI Hw).
Qed.

(** *** Releasing the waiting piece *)

Section release.
Context (g : Game) (o : Watermelon).
Let w := waiting_wm g.
Let nb := next_id g.
Context (HI : Inv g) (Hw : wms g !! w = Some o) (Hst : state o = WAITING).
Let g1 := convert_to_dynamic w g.

Lemma convert_wms w' :
  wms g1 !! w' = if decide (w = w') then Some (with_body_state nb MOVING o) else wms g !! w'.
Proof.
  subst g1. unfold convert_to_dynamic. rewrite (wm_of_lookup _ _ _ Hw).
  rewrite decide_True by done. simpl. rewrite lookup_alter.
  destruct (decide (w = w')) as [<-|]; [by rewrite Hw|done].
Qed.

Lemma convert_wm_of w' :
  wm_of g1 w' = if decide (w = w') then with_body_state nb MOVING o else wm_of g w'.
Proof. unfold wm_of at 1. rewrite convert_wms. by destruct (decide (w = w')). Qed.

Lemma convert_bodies b :
  bodies g1 !! b = if decide (nb = b)
                   then Some (mkBody DYNAMIC 120 (position (body_of g (body o))) (Some w))
                   else bodies g !! b.
Proof.
  subst g1. unfold convert_to_dynamic. rewrite (wm_of_lookup _ _ _ Hw).
  rewrite decide_True by done. simpl. by rewrite lookup_insert.
Qed.

Lemma convert_shapes s :
  shapes g1 !! s = (if decide (shape o = s) then with_sh_body nb else id) <$> shapes g !! s.
Proof.
  subst g1. unfold convert_to_dynamic. rewrite (wm_of_lookup _ _ _ Hw).
  rewrite decide_True by done. simpl. rewrite lookup_alter.
  destruct (decide (shape o = s)) as [<-|]; [done|]. by destruct (shapes g !! s).
Qed.

Lemma convert_frame :
  next_id g1 = Pos.succ nb ∧ space_bodies g1 = space_bodies g
  ∧ space_shapes g1 = space_shapes g ∧ watermelons g1 = watermelons g
  ∧ merge_pairs g1 = merge_pairs g ∧ waiting_wm g1 = w ∧ can_spawn g1 = can_spawn g
  ∧ game_over g1 = game_over g ∧ score g1 = score g ∧ cooldown g1 = cooldown g.
Proof.
  subst g1. unfold convert_to_dynamic. rewrite (wm_of_lookup _ _ _ Hw).
  rewrite decide_True by done. done.
Qed.

Lemma StoreOk_convert : StoreOk g1.
Proof.
  destruct convert_frame as (En & _).
  destruct (st_wms g (inv_store g HI) _ _ Hw) as (Hlt & Hlv & Hr & bo & so & Hbo & Hu & Hso & Hsb).
  constructor; rewrite En.
  - intros w' o'. rewrite convert_wms. destruct (decide (w = w')) as [<-|Hne].
    + intros [= <-]. simpl. split; [lia|]. do 2 (split; [done|]).
      eexists _, (with_sh_body nb so). rewrite convert_bodies, convert_shapes.
      rewrite !decide_True by done. by rewrite Hso.
    + intros Ho'.
      destruct (st_wms g (inv_store g HI) _ _ Ho') as (? & ? & ? & bo' & so' & Hbo' & Hu' & Hso' & Hsb').
      split; [lia|]. do 2 (split; [done|]). exists bo', so'.
      rewrite convert_bodies, convert_shapes.
      assert (body o' < nb)%positive by (apply (st_bodies g (inv_store g HI)); eauto).
      rewrite decide_False by lia. rewrite decide_False; [by rewrite Hso'|].
      intros E. apply Hne. symmetry in E.
      by apply (store_shape_inj g w w' o o' (inv_store g HI)).
  - intros b. rewrite convert_bodies. destruct (decide (nb = b)) as [<-|]; [lia|].
    intros Hb. apply (st_bodies g (inv_store g HI)) in Hb. lia.
  - intros s. rewrite convert_shapes, fmap_is_Some.
    intros Hs. apply (st_shapes g (inv_store g HI)) in Hs. lia.
Qed.
End release.

Lemma after_release_Inv g :
  Inv g → state (wm_of g (waiting_wm g)) = WAITING → Inv (after_release g).
Proof.
  intros HI Hst. destruct (inv_waiting g HI) as (o & Hw).
  rewrite (wm_of_lookup _ _ _ Hw) in Hst.
  pose proof (inv_waiting_live g HI) as Hlive. rewrite (wm_of_lookup _ _ _ Hw) in Hlive.
  specialize (Hlive Hst).
  destruct (waiting_unregistered g _ o HI Hw Hst) as [Hnb Hns].
  destruct (convert_frame g o Hw Hst) as (En & Eb & Es & El & Ep & Ew & _).
  pose proof (convert_wm_of g o Hw Hst) as Hwm.
  pose proof (convert_bodies g o Hw Hst) as Hbd.
  pose proof (convert_shapes g o Hw Hst) as Hsh.
  pose proof (convert_wms g o Hw Hst) as Hwms.
  destruct (st_wms g (inv_store g HI) _ _ Hw) as (Hlt & Hlv & Hr & bo & so & Hbo & Hu & Hso & Hsb).
  unfold after_release. rewrite (wm_of_lookup _ _ _ Hw).
  set (g1 := convert_to_dynamic (waiting_wm g) g) in *.
  constructor; simpl; rewrite ?El, ?Ep, ?Ew.
  - apply (StoreOk_same g1); try done. by apply (StoreOk_convert g o).
  - apply HI.
  - intros w' Hw'. unfold wm_of. simpl. rewrite Hwms.
    destruct (decide (waiting_wm g = w')) as [<-|Hne].
    + eexists; split; [done|]. simpl. split; [done|]. intros _.
      split; apply elem_of_app; right; left.
    + destruct (inv_live g HI w' Hw') as (o' & Ho' & H1 & H2). exists o'.
      split; [done|]. split; [done|]. intros Hn. destruct (H2 Hn).
      split; apply elem_of_app; by left.
  - apply NoDup_app. split; [apply HI|]. split; [|apply NoDup_singleton].
    intros x Hx Hx'. apply list_elem_of_singleton in Hx' as ->.
    by apply (registered_body_allocated g _ HI) in Hx.
  - apply NoDup_app. split; [apply HI|]. split; [|apply NoDup_singleton].
    intros x Hx Hx'. by apply list_elem_of_singleton in Hx' as ->.
  - intros b Hb. rewrite Hbd. apply elem_of_app in Hb as [Hb|Hb].
    + rewrite decide_False by (intros <-; by apply (registered_body_allocated g _ HI) in Hb).
      destruct (inv_space_bodies g HI b Hb) as (bo' & Hbo' & Hm). exists bo'.
      split; [done|]. destruct (user_data bo') as [w'|]; [|done].
      destruct Hm as (Hin & Hbw & Hstw). unfold wm_of; simpl. fold (wm_of g1 w').
      rewrite Hwm. destruct (decide (waiting_wm g = w')) as [<-|]; [|done].
      by rewrite (wm_of_lookup _ _ _ Hw) in Hstw.
    + apply list_elem_of_singleton in Hb as ->. rewrite decide_True by done.
      eexists; split; [done|]. simpl. unfold wm_of; simpl. fold (wm_of g1 (waiting_wm g)).
      rewrite Hwm, decide_True by done. done.
  - intros s Hs. rewrite Hsh. apply elem_of_app in Hs as [Hs|Hs].
    + rewrite decide_False by (intros <-; done).
      destruct (inv_space_shapes g HI s Hs) as (so' & Hso' & Hin & Hshape).
      exists so'. rewrite Hso'. split; [done|]. split; [apply elem_of_app; by left|].
      intros w'. unfold body_of, wm_of; simpl. rewrite Hbd, Hwms.
      rewrite decide_False
        by (intros E; rewrite <- E in Hin; by apply (registered_body_allocated g _ HI) in Hin).
      intros Hu'. specialize (Hshape w' Hu'). unfold wm_of in Hshape.
      destruct (decide (waiting_wm g = w')) as [<-|]; [|done].
      simpl. by rewrite Hw in Hshape.
    + apply list_elem_of_singleton in Hs as ->. rewrite decide_True by done.
      rewrite Hso. eexists; split; [done|]. simpl.
      split; [apply elem_of_app; right; left|].
      intros w'. unfold body_of, wm_of; simpl. rewrite Hbd, Hwms, decide_True by done.
      simpl. intros [= <-]. by rewrite decide_True.
  - rewrite Hwms, decide_True by done. eauto.
  - unfold wm_of; simpl. by rewrite Hwms, decide_True.
  - intros _. unfold wm_of; simpl. by rewrite Hwms, decide_True.
  - apply HI.
  - intros p Hp. destruct (inv_pairs g HI p Hp) as (H1 & H2 & H3 & H4 & H5 & H6 & H7).
    do 2 (split; [done|]). unfold wm_of in *; simpl. rewrite !Hwms.
    destruct (decide (waiting_wm g = p.1)) as [E1|]; destruct (decide (waiting_wm g = p.2)) as [E2|];
      simpl; rewrite <- ?E1, <- ?E2 in *; rewrite ?Hw in *; simpl in *; try done.
Qed.

(** On a well-formed state [_release_wm] returns, in one of three ways. *)
Lemma _release_wm_Done g :
  Inv g →
  _release_wm g = Done
    (if negb (can_spawn g) || negb (bool_decide (state (wm_of g (waiting_wm g)) = WAITING))
     then g
     else if release_blocked g then set_game_over true g else after_release g).
Proof.
  intros HI. unfold _release_wm. fold (release_blocked g).
  destruct (negb (can_spawn g) || _) eqn:Hguard; [done|].
  destruct (release_blocked g); [done|].
  apply orb_false_iff in Hguard as [_ Hst]. apply negb_false_iff, bool_decide_eq_true in Hst.
  destruct (inv_waiting g HI) as (o & Hw).
  pose proof Hst as Hst'. rewrite (wm_of_lookup _ _ _ Hw) in Hst'.
  destruct (waiting_unregistered g _ o HI Hw Hst') as [Hnb Hns].
  rewrite (convert_wm_of g o Hw Hst'), decide_True by done. simpl.
  unfold Physics_add. destruct (convert_frame g o Hw Hst') as (En & Eb & Es & _).
  rewrite Eb, Es. rewrite bool_decide_false, bool_decide_false; [|done|].
  - simpl. unfold after_release. by rewrite (wm_of_lookup _ _ _ Hw).
  - intros Hin. by apply (registered_body_allocated g _ HI) in Hin.
Qed.

Lemma _release_wm_Inv g : Inv g → ∃ g', _release_wm g = Done g' ∧ Inv g'.
Proof.
  intros HI. rewrite (_release_wm_Done g HI). eexists; split; [done|].
  destruct (negb (can_spawn g) || _) eqn:Hguard; [done|].
  destruct (release_blocked g); [by apply Inv_set_game_over|].
  apply orb_false_iff in Hguard as [_ Hst]. apply negb_false_iff, bool_decide_eq_true in Hst.
  by apply after_release_Inv.
Qed.

(** *** A new game *)

Lemma WallsOnly_empty g :
  StoreOk g → WallsOnly (set_merge_pairs [] (set_space [] [] g)).
Proof.
  intros Hs. constructor; simpl; try done; try apply NoDup_nil_2.
  - by apply (StoreOk_same g).
  - intros b Hb. by apply elem_of_nil in Hb.
  - intros s Hb. by apply elem_of_nil in Hb.
Qed.

Lemma WallsOnly_create_border g : WallsOnly g → WallsOnly (create_border g).
Proof.
  intros [Hs Hnb Hns Hb Hsh Hp].
  assert (Hfb : ∀ b, b ∈ space_bodies g → b ≠ next_id g).
  { intros b Hin. destruct (Hb b Hin) as (bo & Hbo & _).
    assert (b < next_id g)%positive by (apply (st_bodies g Hs); eauto). lia. }
  assert (Hfs : ∀ s, s ∈ space_shapes g → s ≠ next_id g).
  { intros s Hin. destruct (Hsh s Hin) as (so & Hso & _).
    assert (s < next_id g)%positive by (apply (st_shapes g Hs); eauto). lia. }
  constructor; simpl; try done.
  - destruct Hs as [Hw Hbf Hsf]. constructor; simpl.
    + intros w o Ho. destruct (Hw w o Ho) as (? & ? & ? & bo & so & Hbo & Hu & Hso & Hsb).
      split; [lia|]. do 2 (split; [done|]). exists bo, so.
      assert (body o < next_id g)%positive by (apply Hbf; eauto).
      assert (shape o < next_id g)%positive by (apply Hsf; eauto).
      rewrite !lookup_insert_ne by lia. done.
    + intros a. rewrite lookup_insert. destruct (decide (next_id g = a)) as [<-|]; [lia|].
      intros H. apply Hbf in H. lia.
    + intros a. rewrite lookup_insert. destruct (decide (next_id g = a)) as [<-|]; [lia|].
      intros H. apply Hsf in H. lia.
  - apply NoDup_app. split; [done|]. split; [|apply NoDup_singleton].
    intros x Hx Hx'. apply list_elem_of_singleton in Hx' as ->. by apply Hfb in Hx.
  - apply NoDup_app. split; [done|]. split; [|apply NoDup_singleton].
    intros x Hx Hx'. apply list_elem_of_singleton in Hx' as ->. by apply Hfs in Hx.
  - intros b Hin. rewrite lookup_insert. apply elem_of_app in Hin as [Hin|Hin].
    + rewrite decide_False by (intros <-; by apply Hfb in Hin). by apply Hb.
    + apply list_elem_of_singleton in Hin as ->. rewrite decide_True by done. eauto.
  - intros s Hin. rewrite lookup_insert. apply elem_of_app in Hin as [Hin|Hin].
    + rewrite decide_False by (intros <-; by apply Hfs in Hin).
      destruct (Hsh s Hin) as (so & Hso & Hin'). exists so. split; [done|].
      apply elem_of_app. by left.
    + apply list_elem_of_singleton in Hin as ->. rewrite decide_True by done.
      eexists; split; [done|]. simpl. apply elem_of_app. right. left.
Qed.

Lemma WallsOnly_Physics_init g : StoreOk g → WallsOnly (Physics_init g).
Proof.
  intros Hs. unfold Physics_init.
  do 4 apply WallsOnly_create_border. by apply WallsOnly_empty.
Qed.

Lemma first_piece_Inv g1 : WallsOnly g1 → watermelons g1 = [] → Inv (first_piece g1).
Proof.
  intros [Hs Hnb Hns Hb Hsh Hp] Hl.
  assert (Hfb : ∀ b, b ∈ space_bodies g1 → b ≠ next_id g1).
  { intros b Hin. destruct (Hb b Hin) as (bo & Hbo & _).
    assert (b < next_id g1)%positive by (apply (st_bodies g1 Hs); eauto). lia. }
  assert (Hfs : ∀ s, s ∈ space_shapes g1 → s ≠ next_id g1).
  { intros s Hin. destruct (Hsh s Hin) as (so & Hso & _).
    assert (s < next_id g1)%positive by (apply (st_shapes g1 Hs); eauto). lia. }
  pose proof (Watermelon_init_new_wm (vec_of_ints (WIDTH `div` 2) 50) 1 WAITING g1) as Hnew.
  pose proof (StoreOk_Watermelon_init (vec_of_ints (WIDTH `div` 2) 50) 1 WAITING g1 Hs) as Hs2.
  pose proof (Watermelon_init_bodies (vec_of_ints (WIDTH `div` 2) 50) 1 WAITING g1) as Hbd.
  pose proof (Watermelon_init_shapes (vec_of_ints (WIDTH `div` 2) 50) 1 WAITING g1) as Hshp.
  pose proof (Watermelon_init_body_of (vec_of_ints (WIDTH `div` 2) 50) 1 WAITING g1) as Hbof.
  unfold first_piece, _create_waiting_wm.
  rewrite (Watermelon_init_pair _ 1 WAITING g1).
  assert (El : watermelons (Watermelon_init (vec_of_ints (WIDTH `div` 2) 50) 1 WAITING g1).2 = [])
    by exact Hl.
  assert (Eb : space_bodies (Watermelon_init (vec_of_ints (WIDTH `div` 2) 50) 1 WAITING g1).2
               = space_bodies g1) by reflexivity.
  assert (Es : space_shapes (Watermelon_init (vec_of_ints (WIDTH `div` 2) 50) 1 WAITING g1).2
               = space_shapes g1) by reflexivity.
  assert (Ep : merge_pairs (Watermelon_init (vec_of_ints (WIDTH `div` 2) 50) 1 WAITING g1).2
               = []) by exact Hp.
  revert Hnew Hs2 Hbd Hshp Hbof El Eb Es Ep.
  generalize ((Watermelon_init (vec_of_ints (WIDTH `div` 2) 50) 1 WAITING g1).2) as g2.
  intros g2 Hnew Hs2 Hbd Hshp Hbof El Eb Es Ep.
  constructor; cbn [watermelons space_bodies space_shapes merge_pairs waiting_wm can_spawn
                    set_can_spawn set_cooldown set_game_over set_score set_waiting_wm
                    set_watermelons];
    rewrite ?El, ?Eb, ?Es, ?Ep.
  - by apply (StoreOk_same g2).
  - apply NoDup_singleton.
  - intros w Hw. apply list_elem_of_singleton in Hw as ->.
    eexists; split; [exact Hnew|]. done.
  - done.
  - done.
  - intros b Hin. destruct (Hb b Hin) as (bo & Hbo & Hu & Hty & Hfin). exists bo.
    split; [cbn; rewrite Hbd by auto; done|]. by rewrite Hu.
  - intros s Hin. destruct (Hsh s Hin) as (so & Hso & Hin'). exists so.
    split; [cbn; rewrite Hshp by auto; done|]. split; [done|].
    intros w Hu. exfalso. revert Hu.
    change (user_data (body_of g2 (sh_body so)) = Some w → False).
    rewrite Hbof by auto.
    destruct (Hb _ Hin') as (bo & Hbo & Hu & _). by rewrite (body_of_lookup _ _ _ Hbo), Hu.
  - cbn. eauto.
  - intros _. left.
  - done.
  - apply NoDup_nil_2.
  - intros p Hin. by apply elem_of_nil in Hin.
Qed.

Lemma Game_init_first_piece g :
  Game_init g = first_piece (set_watermelons [] (Physics_init g)).
Proof. reflexivity. Qed.

Lemma Game_init_Inv g : StoreOk g → Inv (Game_init g).
Proof.
  intros Hs. rewrite Game_init_first_piece.
  destruct (WallsOnly_Physics_init g Hs) as [H1 H2 H3 H4 H5 H6].
  apply first_piece_Inv; [|reflexivity].
  constructor; [|exact H2|exact H3|exact H4|exact H5|exact H6].
  apply (StoreOk_same (Physics_init g)); [reflexivity..|exact H1].
Qed.

Lemma StoreOk_empty : StoreOk empty_store.
Proof. constructor; intros *; simpl; rewrite lookup_empty; try done; by intros []. Qed.

Lemma new_game_Inv : Inv new_game.
Proof. apply Game_init_Inv, StoreOk_empty. Qed.

(** *** Input *)

Lemma Inv_move_piece g w p :
  Inv g → is_Some (wms g !! w) → Inv (set_position (body (wm_of g w)) p g).
Proof.
  intros HI [o Ho]. apply Inv_set_position; [done|].
  rewrite (wm_of_lookup _ _ _ Ho). intros bo Hbo Hu.
  destruct (st_wms g (inv_store g HI) _ _ Ho) as (_ & _ & _ & bo' & _ & Hbo' & Hu' & _).
  congruence.
Qed.

Lemma move_waiting_Inv inp g : Inv g → Inv (move_waiting inp g).
Proof.
  intros HI. unfold move_waiting.
  destruct (negb (game_over g) && _); [|done].
  pose proof (inv_waiting g HI) as Hw.
  set (b := body (wm_of g (waiting_wm g))).
  assert (Hmove : ∀ h p, Inv h → wms h = wms g → Inv (set_position b p h)).
  { intros h p Hh E. unfold b, wm_of. rewrite <- E. apply Inv_move_piece; [done|by rewrite E]. }
  destruct (pressed_left inp), (pressed_right inp); auto.
Qed.

Lemma move_waiting_frame inp g :
  wms (move_waiting inp g) = wms g
  ∧ watermelons (move_waiting inp g) = watermelons g
  ∧ merge_pairs (move_waiting inp g) = merge_pairs g
  ∧ game_over (move_waiting inp g) = game_over g
  ∧ can_spawn (move_waiting inp g) = can_spawn g
  ∧ score (move_waiting inp g) = score g.
Proof.
  unfold move_waiting. destruct (negb (game_over g) && _); [|done].
  by destruct (pressed_left inp), (pressed_right inp).
Qed.

Lemma handle_event_Inv ev g :
  Inv g → handle_event ev g = Exited ∨ ∃ g', handle_event ev g = Done g' ∧ Inv g'.
Proof.
  intros HI. destruct ev as [|k|]; simpl; [by left| |right; eauto].
  right. destruct (game_over g && bool_decide (k = K_r)).
  - eexists; split; [done|]. apply Game_init_Inv, HI.
  - destruct (negb (game_over g)); [|eauto].
    destruct (bool_decide (k ∈ [K_DOWN; K_SPACE])); [|eauto].
    by apply _release_wm_Inv.
Qed.

Lemma handle_events_Inv evs g :
  Inv g →
  for_each handle_event evs g = Exited
  ∨ ∃ g', for_each handle_event evs g = Done g' ∧ Inv g'.
Proof.
  revert g. induction evs as [|ev evs IH]; intros g HI; simpl; [right; eauto|].
  destruct (handle_event_Inv ev g HI) as [->|(g' & -> & HI')]; [by left|].
  simpl. by apply IH.
Qed.

Lemma _handle_input_Inv inp g :
  Inv g →
  _handle_input inp g = Exited ∨ ∃ g', _handle_input inp g = Done g' ∧ Inv g'.
Proof.
  intros HI. unfold _handle_input.
  destruct (handle_events_Inv (events inp) g HI) as [->|(g' & -> & HI')]; [by left|].
  right. simpl. eexists; split; [done|]. by apply move_waiting_Inv.
Qed.

(** *** The physics step *)

Lemma apply_move_Inv m g : Inv g → Inv (apply_move m g).
Proof.
  intros HI. unfold apply_move.
  destruct (bool_decide (m.1 ∈ space_bodies g)) eqn:Hin; [|done].
  destruct (bool_decide (body_type (body_of g m.1) = DYNAMIC)) eqn:Hdyn; [|done].
  apply bool_decide_eq_true in Hin, Hdyn. simpl.
  apply Inv_set_position; [done|]. intros bo Hbo Hu.
  destruct (inv_space_bodies g HI _ Hin) as (bo' & Hbo' & Hm).
  rewrite Hbo in Hbo'. injection Hbo' as <-. rewrite Hu in Hm.
  rewrite (body_of_lookup _ _ _ Hbo) in Hdyn. destruct Hm. congruence.
Qed.

Lemma apply_move_frame m g :
  wms (apply_move m g) = wms g ∧ watermelons (apply_move m g) = watermelons g
  ∧ merge_pairs (apply_move m g) = merge_pairs g ∧ score (apply_move m g) = score g
  ∧ game_over (apply_move m g) = game_over g ∧ can_spawn (apply_move m g) = can_spawn g.
Proof. unfold apply_move. by destruct (_ && _). Qed.

Lemma flag_wms w g w' :
  wms (flag w g) !! w' = (if decide (w = w') then with_merged true else id) <$> wms g !! w'.
Proof.
  unfold flag; simpl. rewrite lookup_alter.
  destruct (decide (w = w')) as [<-|]; [done|]. by destruct (wms g !! w').
Qed.

Lemma flag_wm_of w g w' :
  state (wm_of (flag w g) w') = state (wm_of g w')
  ∧ body (wm_of (flag w g) w') = body (wm_of g w')
  ∧ shape (wm_of (flag w g) w') = shape (wm_of g w')
  ∧ level (wm_of (flag w g) w') = level (wm_of g w')
  ∧ radius (wm_of (flag w g) w') = radius (wm_of g w')
  ∧ merged (wm_of (flag w g) w') = (if decide (w = w') then true else merged (wm_of g w')).
Proof.
  unfold wm_of. rewrite flag_wms.
  destruct (wms g !! w') as [o|]; simpl; destruct (decide (w = w')); done.
Qed.

Lemma flag_Inv w g : Inv g → Inv (flag w g).
Proof.
  intros HI. constructor; try apply HI.
  - destruct (inv_store g HI) as [Hw Hb Hs]. constructor; try done.
    intros w' o'. rewrite flag_wms. destruct (wms g !! w') as [o|] eqn:Ho; [|done].
    simpl. intros [= <-]. specialize (Hw w' o Ho). by destruct (decide (w = w')).
  - intros w' Hw'. destruct (inv_live g HI w' Hw') as (o & Ho & H).
    exists ((if decide (w = w') then with_merged true else id) o).
    rewrite flag_wms, Ho. split; [done|]. by destruct (decide (w = w')).
  - intros b Hb. destruct (inv_space_bodies g HI b Hb) as (bo & Hbo & Hm).
    exists bo. split; [done|]. destruct (user_data bo) as [w'|]; [|done].
    destruct (flag_wm_of w g w') as (-> & -> & _). done.
  - intros s Hs. destruct (inv_space_shapes g HI s Hs) as (so & Hso & Hin & Hsh).
    exists so. do 2 (split; [done|]). intros w' Hu.
    destruct (flag_wm_of w g w') as (_ & _ & -> & _). by apply Hsh.
  - change (is_Some (wms (flag w g) !! waiting_wm g)). rewrite flag_wms, fmap_is_Some. apply HI.
  - destruct (flag_wm_of w g (waiting_wm g)) as (E & _).
    change (state (wm_of (flag w g) (waiting_wm g)) = WAITING → waiting_wm g ∈ watermelons g).
    rewrite E. apply HI.
  - destruct (flag_wm_of w g (waiting_wm g)) as (E & _).
    change (can_spawn g = false → state (wm_of (flag w g) (waiting_wm g)) ≠ WAITING).
    rewrite E. apply HI.
  - intros p Hp. destruct (inv_pairs g HI p Hp) as (H1 & H2 & H3 & H4 & H5 & H6 & H7).
    destruct (flag_wm_of w g p.1) as (-> & _ & _ & -> & _ & ->).
    destruct (flag_wm_of w g p.2) as (-> & _ & _ & -> & _ & ->).
    do 4 (split; [done|]). by destruct (decide (w = p.1)), (decide (w = p.2)).
Qed.

Lemma Inv_add_pair g w1 w2 :
  Inv g → w1 ∈ watermelons g → w2 ∈ watermelons g → w1 ≠ w2 →
  w1 ∉ flat_pairs (merge_pairs g) → w2 ∉ flat_pairs (merge_pairs g) →
  state (wm_of g w1) ≠ WAITING → state (wm_of g w2) ≠ WAITING →
  merged (wm_of g w1) = true → merged (wm_of g w2) = true →
  level (wm_of g w1) = level (wm_of g w2) →
  Inv (set_merge_pairs (merge_pairs g ++ [(w1, w2)]) g).
Proof.
  intros HI Hl1 Hl2 Hne Hn1 Hn2 Hs1 Hs2 Hm1 Hm2 Hlv. constructor; try apply HI; simpl.
  - same_store HI.
  - rewrite flat_pairs_app. apply NoDup_app. split; [apply HI|]. split.
    + intros x Hx Hx'. simpl in Hx'.
      apply elem_of_cons in Hx' as [->|Hx']; [done|].
      apply list_elem_of_singleton in Hx' as ->. done.
    + simpl. apply NoDup_cons. split; [|apply NoDup_singleton].
      intros Hin. by apply list_elem_of_singleton in Hin.
  - intros p Hp. apply elem_of_app in Hp as [Hp|Hp]; [by apply HI|].
    apply list_elem_of_singleton in Hp as ->. done.
Qed.

Lemma unmerged_not_pending g w :
  Inv g → merged (wm_of g w) = false → w ∉ flat_pairs (merge_pairs g).
Proof.
  intros HI Hm Hin. apply elem_of_flat_pairs in Hin as (p & Hp & Hw).
  destruct (inv_pairs g HI p Hp) as (_ & _ & _ & _ & H5 & H6 & _).
  destruct Hw as [->| ->]; congruence.
Qed.

(** The owner of a registered shape is a live piece that owns no other
    registered shape. *)
Lemma contact_piece g s w :
  Inv g → s ∈ space_shapes g →
  user_data (body_of g (sh_body (shape_of g s))) = Some w →
  w ∈ watermelons g ∧ shape (wm_of g w) = s ∧ state (wm_of g w) ≠ WAITING.
Proof.
  intros HI Hs Hu. destruct (inv_space_shapes g HI s Hs) as (so & Hso & Hin & Hsh).
  rewrite (shape_of_lookup _ _ _ Hso) in Hu.
  destruct (inv_space_bodies g HI _ Hin) as (bo & Hbo & Hm).
  pose proof (Hsh w Hu) as Hshape.
  rewrite (body_of_lookup _ _ _ Hbo) in Hu. rewrite Hu in Hm.
  destruct Hm as (Hw & _ & Hst). done.
Qed.

Lemma collision_handler_Inv sa sb g :
  Inv g → sa ∈ space_shapes g → sb ∈ space_shapes g → sa ≠ sb →
  Inv (collision_handler sa sb g).
Proof.
  intros HI Ha Hb Hne. unfold collision_handler.
  destruct (user_data (body_of g (sh_body (shape_of g sa)))) as [w1|] eqn:Hu1; [|done].
  destruct (user_data (body_of g (sh_body (shape_of g sb)))) as [w2|] eqn:Hu2; [|done].
  destruct (contact_piece g sa w1 HI Ha Hu1) as (Hl1 & Hsh1 & Hst1).
  destruct (contact_piece g sb w2 HI Hb Hu2) as (Hl2 & Hsh2 & Hst2).
  destruct (_ && _) eqn:Hcond; [|done].
  repeat (apply andb_true_iff in Hcond as [Hcond ?]).
  apply bool_decide_eq_true in Hcond.
  repeat match goal with H : negb _ = true |- _ => apply negb_true_iff in H end.
  assert (Hw : w1 ≠ w2) by congruence.
  change (Inv (set_merge_pairs (merge_pairs (flag w2 (flag w1 g)) ++ [(w1, w2)])
                               (flag w2 (flag w1 g)))).
  destruct (flag_wm_of w1 g w1) as (S1 & _ & _ & L1 & _ & M1).
  destruct (flag_wm_of w1 g w2) as (S2 & _ & _ & L2 & _ & M2).
  destruct (flag_wm_of w2 (flag w1 g) w1) as (S1' & _ & _ & L1' & _ & M1').
  destruct (flag_wm_of w2 (flag w1 g) w2) as (S2' & _ & _ & L2' & _ & M2').
  rewrite decide_True in M1 by done. rewrite decide_True in M2' by done.
  rewrite decide_False in M1' by done.
  apply Inv_add_pair; try done.
  - by do 2 apply flag_Inv.
  - by apply (unmerged_not_pending g).
  - by apply (unmerged_not_pending g).
  - congruence.
  - congruence.
  - congruence.
  - congruence.
Qed.

Lemma report_contact_Inv c g : Inv g → Inv (report_contact c g).
Proof.
  intros HI. unfold report_contact. destruct (_ && _) eqn:Hcond; [|done].
  repeat (apply andb_true_iff in Hcond as [Hcond ?]).
  apply bool_decide_eq_true in Hcond.
  repeat match goal with H : bool_decide _ = true |- _ => apply bool_decide_eq_true in H end.
  match goal with H : negb _ = true |- _ => apply negb_true_iff, bool_decide_eq_false in H end.
  apply collision_handler_Inv; try done. congruence.
Qed.

Lemma space_step_Inv ph g : Inv g → Inv (space_step ph g).
Proof.
  intros HI. unfold space_step.
  assert (H1 : Inv (foldl (λ g m, apply_move m g) g (ph_moves ph))).
  { revert g HI. induction (ph_moves ph) as [|m l IH]; intros g HI; [done|].
    simpl. by apply IH, apply_move_Inv. }
  revert H1. generalize (foldl (λ g m, apply_move m g) g (ph_moves ph)). clear g HI.
  induction (ph_contacts ph) as [|c l IH]; intros g HI; [done|].
  simpl. by apply IH, report_contact_Inv.
Qed.

Lemma evict_fin b g : fin_at g b → evict b g = Done g.
Proof.
  unfold fin_at, vec_finite, evict. intros Hb.
  apply andb_true_iff in Hb as [-> ->]. done.
Qed.

(** When every registered body is at finite coordinates the guard of
    [Physics.step] unregisters nothing. *)
Lemma evict_finite l g :
  (∀ b, b ∈ l → fin_at g b) → for_each evict l g = Done g.
Proof.
  induction l as [|b l IH]; intros Hf; [done|].
  cbn [for_each]. rewrite evict_fin by (apply Hf; left).
  apply IH. intros b' Hb'. apply Hf. by right.
Qed.

Lemma Physics_step_Inv ph g :
  Inv g → space_finite g → ∃ g', Physics_step ph g = Done g' ∧ Inv g'.
Proof.
  intros HI Hf. unfold Physics_step. rewrite (evict_finite _ g) by done. simpl.
  eexists; split; [done|]. by apply space_step_Inv.
Qed.

(** *** Merging a pair *)

Lemma elem_of_filter2 {A} (P Q : A → Prop) `{∀ x, Decision (P x)} `{∀ x, Decision (Q x)}
  (l : list A) (x : A) :
  x ∈ filter Q (filter P l) ↔ x ∈ l ∧ P x ∧ Q x.
Proof. rewrite !list_elem_of_filter. tauto. Qed.

Lemma destroyed_Inv p g : Inv g → p ∈ merge_pairs g → Inv (destroyed p g).
Proof.
  intros HI Hp.
  destruct (inv_pairs g HI p Hp) as (Hl1 & Hl2 & Hs1 & Hs2 & _).
  pose proof (flat_pairs_nodup_distinct _ p (inv_pairs_nodup g HI) Hp) as Hne.
  destruct (inv_live g HI _ Hl1) as (o1 & Ho1 & _ & _).
  destruct (inv_live g HI _ Hl2) as (o2 & Ho2 & _ & _).
  rewrite (wm_of_lookup _ _ _ Ho1) in Hs1. rewrite (wm_of_lookup _ _ _ Ho2) in Hs2.
  unfold destroyed. rewrite (wm_of_lookup _ _ _ Ho1), (wm_of_lookup _ _ _ Ho2).
  assert (Hbody : ∀ w o, wms g !! w = Some o → w ≠ p.1 → w ≠ p.2 →
                    body o ≠ body o1 ∧ body o ≠ body o2 ∧ shape o ≠ shape o1 ∧ shape o ≠ shape o2).
  { intros w o Ho H1 H2. repeat split; intros E.
    - apply H1. by apply (store_body_inj g w p.1 o o1 (inv_store g HI)).
    - apply H2. by apply (store_body_inj g w p.2 o o2 (inv_store g HI)).
    - apply H1. by apply (store_shape_inj g w p.1 o o1 (inv_store g HI)).
    - apply H2. by apply (store_shape_inj g w p.2 o o2 (inv_store g HI)). }
  constructor; simpl.
  - same_store HI.
  - do 2 apply NoDup_filter. apply HI.
  - intros w Hw. apply elem_of_filter2 in Hw as (Hw & H1 & H2).
    destruct (inv_live g HI w Hw) as (o & Ho & Hwait & Hreg). exists o.
    do 2 (split; [done|]). intros Hn. destruct (Hreg Hn) as [Hb Hs].
    destruct (Hbody w o Ho H1 H2) as (? & ? & ? & ?).
    split; apply elem_of_filter2; done.
  - do 2 apply NoDup_filter. apply HI.
  - do 2 apply NoDup_filter. apply HI.
  - intros b Hb. apply elem_of_filter2 in Hb as (Hb & H1 & H2).
    destruct (inv_space_bodies g HI b Hb) as (bo & Hbo & Hm). exists bo. split; [done|].
    destruct (user_data bo) as [w|]; [|done]. destruct Hm as (Hw & Hbw & Hst).
    change (wm_of _ w) with (wm_of g w). split; [|done].
    apply elem_of_filter2. split; [done|].
    split; intros ->; [rewrite (wm_of_lookup _ _ _ Ho1) in Hbw|
                       rewrite (wm_of_lookup _ _ _ Ho2) in Hbw]; congruence.
  - intros s Hs. apply elem_of_filter2 in Hs as (Hs & H1 & H2).
    destruct (inv_space_shapes g HI s Hs) as (so & Hso & Hin & Hsh). exists so.
    split; [done|].
    change (body_of _ (sh_body so)) with (body_of g (sh_body so)).
    split; [|intros w; change (wm_of _ w) with (wm_of g w); apply Hsh].
    apply elem_of_filter2. split; [done|].
    destruct (st_wms g (inv_store g HI) _ _ Ho1) as (_ & _ & _ & bo1 & so1 & Hbo1 & Hu1 & Hso1 & Hsb1).
    destruct (st_wms g (inv_store g HI) _ _ Ho2) as (_ & _ & _ & bo2 & so2 & Hbo2 & Hu2 & Hso2 & Hsb2).
    split; intros E.
    + apply H1. rewrite <- (Hsh p.1); [by rewrite (wm_of_lookup _ _ _ Ho1)|].
      by rewrite E, (body_of_lookup _ _ _ Hbo1).
    + apply H2. rewrite <- (Hsh p.2); [by rewrite (wm_of_lookup _ _ _ Ho2)|].
      by rewrite E, (body_of_lookup _ _ _ Hbo2).
  - apply HI.
  - change (wm_of _ (waiting_wm g)) with (wm_of g (waiting_wm g)). intros Hst.
    apply elem_of_filter2. split; [by apply HI|].
    split; intros E; rewrite E in Hst;
      [rewrite (wm_of_lookup _ _ _ Ho1) in Hst|rewrite (wm_of_lookup _ _ _ Ho2) in Hst]; done.
  - apply HI.
  - apply flat_pairs_nodup_filter, HI.
  - intros q Hq. apply list_elem_of_filter in Hq as [Hqp Hq].
    destruct (inv_pairs g HI q Hq) as (H1 & H2 & H).
    change (wm_of _ q.1) with (wm_of g q.1). change (wm_of _ q.2) with (wm_of g q.2).
    split; [|split; [|done]]; apply elem_of_filter2; (split; [done|]);
      split; intros E; apply Hqp;
      apply (flat_pairs_nodup_disjoint _ q p (inv_pairs_nodup g HI) Hq Hp); auto.
Qed.

Lemma registered_Inv a o g :
  Inv g → wms g !! a = Some o → state o ≠ WAITING →
  a ∉ watermelons g → body o ∉ space_bodies g → shape o ∉ space_shapes g →
  Inv (registered a g).
Proof.
  intros HI Ha Hst Hna Hnb Hns. unfold registered. rewrite (wm_of_lookup _ _ _ Ha).
  destruct (st_wms g (inv_store g HI) _ _ Ha) as (_ & _ & _ & bo & so & Hbo & Hu & Hso & Hsb).
  constructor; simpl; try apply HI.
  - same_store HI.
  - apply NoDup_app. split; [apply HI|]. split; [|apply NoDup_singleton].
    intros x Hx Hx'. by apply list_elem_of_singleton in Hx' as ->.
  - intros w Hw. apply elem_of_app in Hw as [Hw|Hw].
    + destruct (inv_live g HI w Hw) as (o' & Ho' & H1 & H2). exists o'.
      do 2 (split; [done|]). intros Hn. destruct (H2 Hn).
      split; apply elem_of_app; by left.
    + apply list_elem_of_singleton in Hw as ->. exists o. split; [done|].
      split; [done|]. intros _. split; apply elem_of_app; right; left.
  - apply NoDup_app. split; [apply HI|]. split; [|apply NoDup_singleton].
    intros x Hx Hx'. by apply list_elem_of_singleton in Hx' as ->.
  - apply NoDup_app. split; [apply HI|]. split; [|apply NoDup_singleton].
    intros x Hx Hx'. by apply list_elem_of_singleton in Hx' as ->.
  - intros b Hb. apply elem_of_app in Hb as [Hb|Hb].
    + destruct (inv_space_bodies g HI b Hb) as (bo' & Hbo' & Hm). exists bo'.
      split; [done|]. destruct (user_data bo'); [|done].
      destruct Hm as (? & ? & ?). split; [apply elem_of_app; by left|done].
    + apply list_elem_of_singleton in Hb as ->. exists bo. split; [done|].
      rewrite Hu. change (wm_of _ a) with (wm_of g a). rewrite (wm_of_lookup _ _ _ Ha).
      split; [apply elem_of_app; right; left|done].
  - intros s Hs. apply elem_of_app in Hs as [Hs|Hs].
    + destruct (inv_space_shapes g HI s Hs) as (so' & Hso' & Hin & Hsh). exists so'.
      split; [done|]. split; [apply elem_of_app; by left|done].
    + apply list_elem_of_singleton in Hs as ->. exists so. split; [done|].
      split; [rewrite Hsb; apply elem_of_app; right; left|].
      intros w. change (body_of _ (sh_body so)) with (body_of g (sh_body so)).
      rewrite Hsb, (body_of_lookup _ _ _ Hbo), Hu. intros [= <-].
      change (wm_of _ a) with (wm_of g a). by rewrite (wm_of_lookup _ _ _ Ha).
  - intros Hw. apply elem_of_app. left. by apply HI.
  - intros p Hp. destruct (inv_pairs g HI p Hp) as (H1 & H2 & H).
    split; [apply elem_of_app; by left|]. split; [apply elem_of_app; by left|done].
Qed.

Lemma after_merge_Inv p g : Inv g → p ∈ merge_pairs g → Inv (after_merge p g).
Proof.
  intros HI Hp. unfold after_merge. apply Inv_set_score.
  pose proof (destroyed_Inv p g HI Hp) as HD.
  set (new_pos := mkVec _ _). set (new_level := level (wm_of g p.1) + 1).
  pose proof (Watermelon_init_Inv new_pos new_level MOVING _ HD) as HW.
  pose proof (Watermelon_init_new_wm new_pos new_level MOVING (destroyed p g)) as Hnew.
  change (next_id (destroyed p g)) with (next_id g) in Hnew.
  eapply registered_Inv; [done|exact Hnew|done|..]; simpl.
  - intros Hin. by apply (live_allocated _ _ HD) in Hin.
  - intros Hin. by apply (registered_body_allocated _ _ HD) in Hin.
  - intros Hin. by apply (registered_shape_allocated _ _ HD) in Hin.
Qed.

Lemma flat_pairs_nodup l : NoDup (flat_pairs l) → NoDup l.
Proof.
  induction l as [|r l IH]; intros Hnd; [apply NoDup_nil_2|].
  rewrite flat_pairs_cons in Hnd.
  apply NoDup_cons in Hnd as [H1 Hnd]. apply NoDup_cons in Hnd as [H2 Hnd].
  apply NoDup_cons. split; [|by apply IH].
  intros Hin. apply H2. apply elem_of_flat_pairs. exists r. auto.
Qed.

Lemma Physics_remove_Done b s g :
  b ∈ space_bodies g → s ∈ space_shapes g →
  Physics_remove b s g
  = Done (set_space (filter (λ x, x ≠ b) (space_bodies g))
                    (filter (λ x, x ≠ s) (space_shapes g)) g).
Proof. intros Hb Hs. unfold Physics_remove. by rewrite !bool_decide_true. Qed.

Lemma Physics_add_Done b s g :
  b ∉ space_bodies g → s ∉ space_shapes g →
  Physics_add b s g = Done (set_space (space_bodies g ++ [b]) (space_shapes g ++ [s]) g).
Proof. intros Hb Hs. unfold Physics_add. by rewrite !bool_decide_false. Qed.

(** On a well-formed state a pending pair is merged without an exception. *)
Lemma process_pair_Done p g :
  Inv g → p ∈ merge_pairs g → process_pair p g = Done (after_merge p g).
Proof.
  intros HI Hp.
  pose proof (destroyed_Inv p g HI Hp) as HD.
  destruct (inv_pairs g HI p Hp) as (Hl1 & Hl2 & Hs1 & Hs2 & _).
  pose proof (flat_pairs_nodup_distinct _ p (inv_pairs_nodup g HI) Hp) as Hne.
  destruct (inv_live g HI _ Hl1) as (o1 & Ho1 & _ & Hr1).
  destruct (inv_live g HI _ Hl2) as (o2 & Ho2 & _ & Hr2).
  pose proof (wm_of_lookup _ _ _ Ho1) as E1. pose proof (wm_of_lookup _ _ _ Ho2) as E2.
  rewrite E1 in Hs1. rewrite E2 in Hs2.
  destruct (Hr1 Hs1) as [Hb1 Hsh1]. destruct (Hr2 Hs2) as [Hb2 Hsh2].
  assert (Hnb : body o1 ≠ body o2).
  { intros E. apply Hne. by apply (store_body_inj g p.1 p.2 o1 o2 (inv_store g HI)). }
  assert (Hns : shape o1 ≠ shape o2).
  { intros E. apply Hne. by apply (store_shape_inj g p.1 p.2 o1 o2 (inv_store g HI)). }
  rewrite <- E1 in Hb1, Hsh1, Hnb, Hns. rewrite <- E2 in Hb2, Hsh2, Hnb, Hns.
  unfold process_pair. rewrite !bool_decide_true by done. cbn [andb].
  rewrite (Physics_remove_Done _ _ g Hb1 Hsh1). cbn [mbind outcome_bind].
  set (g1 := set_space _ _ g).
  change (wm_of g1 p.2) with (wm_of g p.2).
  rewrite (Physics_remove_Done _ _ g1)
    by (apply list_elem_of_filter; split; [congruence|done]).
  cbn [mbind outcome_bind].
  set (g2 := set_space _ _ g1).
  change (watermelons g2) with (watermelons g).
  rewrite (remove_first_nodup p.1 (watermelons g)) by (done || apply HI).
  cbn [lift_opt mbind outcome_bind].
  rewrite (remove_first_nodup p.2)
    by (apply NoDup_filter, HI || (apply list_elem_of_filter; split; [congruence|done])).
  cbn [lift_opt mbind outcome_bind].
  set (new_pos := mkVec _ _). set (new_level := level (wm_of g p.1) + 1).
  rewrite (Watermelon_init_pair new_pos new_level MOVING).
  set (g3 := (Watermelon_init new_pos new_level MOVING _).2).
  assert (Enew : wm_of g3 (next_id g)
                 = mkWatermelon (Z.min new_level MAX_LEVEL)
                     (_calculate_radius (Z.min new_level MAX_LEVEL)) MOVING false
                     (next_id g) (next_id g)).
  { apply wm_of_lookup. unfold g3.
    match goal with
    | |- wms (Watermelon_init _ _ _ ?h).2 !! _ = _ =>
        exact (Watermelon_init_new_wm new_pos new_level MOVING h)
    end. }
  change (next_id (set_watermelons _ g2)) with (next_id g).
  rewrite Enew. cbn [body shape].
  rewrite Physics_add_Done.
  2:{ change (space_bodies g3) with (space_bodies (destroyed p g)).
      intros Hin. by apply (registered_body_allocated _ _ HD) in Hin. }
  2:{ change (space_shapes g3) with (space_shapes (destroyed p g)).
      intros Hin. by apply (registered_shape_allocated _ _ HD) in Hin. }
  cbn [mbind outcome_bind].
  set (g6 := set_score _ _).
  change (merge_pairs g6) with (merge_pairs g).
  rewrite <- (surjective_pairing p).
  rewrite (remove_first_nodup p (merge_pairs g)) by (done || apply flat_pairs_nodup, HI).
  cbn [lift_opt mbind outcome_bind]. f_equal.
  unfold after_merge, registered. fold new_pos new_level.
  assert (Enew' : wm_of (Watermelon_init new_pos new_level MOVING (destroyed p g)).2 (next_id g)
                 = mkWatermelon (Z.min new_level MAX_LEVEL)
                     (_calculate_radius (Z.min new_level MAX_LEVEL)) MOVING false
                     (next_id g) (next_id g)).
  { apply wm_of_lookup. apply (Watermelon_init_new_wm new_pos new_level MOVING (destroyed p g)). }
  rewrite Enew'. reflexivity.
Qed.

Lemma fhalf_fadd_finite a b :
  isfinite a = true → isfinite b = true → isfinite (fhalf (fadd a b)) = true.
Proof. by destruct a, b. Qed.

Lemma after_merge_finite p g :
  Inv g → p ∈ merge_pairs g → space_finite g → space_finite (after_merge p g).
Proof.
  intros HI Hp Hf b Hb.
  destruct (inv_pairs g HI p Hp) as (Hl1 & Hl2 & Hs1 & Hs2 & _).
  destruct (inv_live g HI _ Hl1) as (o1 & Ho1 & _ & Hr1).
  destruct (inv_live g HI _ Hl2) as (o2 & Ho2 & _ & Hr2).
  rewrite (wm_of_lookup _ _ _ Ho1) in Hs1. rewrite (wm_of_lookup _ _ _ Ho2) in Hs2.
  destruct (Hr1 Hs1) as [Hb1 _]. destruct (Hr2 Hs2) as [Hb2 _].
  pose proof (Hf _ Hb1) as F1. pose proof (Hf _ Hb2) as F2.
  unfold vec_finite in F1, F2.
  apply andb_true_iff in F1 as [F1x F1y]. apply andb_true_iff in F2 as [F2x F2y].
  unfold after_merge in *. set (new_pos := mkVec _ _) in *.
  set (new_level := level (wm_of g p.1) + 1) in *.
  pose proof (Watermelon_init_new_wm new_pos new_level MOVING (destroyed p g)) as Hnew.
  pose proof (Watermelon_init_new_body new_pos new_level MOVING (destroyed p g)) as (bo & Hbo & Hpos & _).
  change (next_id (destroyed p g)) with (next_id g) in Hnew, Hbo.
  unfold registered in *. rewrite (wm_of_lookup _ _ _ Hnew) in Hb. simpl in Hb.
  change (vec_finite (position (body_of
            (Watermelon_init new_pos new_level MOVING (destroyed p g)).2 b)) = true).
  apply elem_of_app in Hb as [Hb|Hb].
  - apply elem_of_filter2 in Hb as (Hb & _ & _).
    rewrite Watermelon_init_body_of.
    + change (body_of (destroyed p g) b) with (body_of g b). by apply Hf.
    + change (next_id (destroyed p g)) with (next_id g).
      by apply (registered_body_allocated g b HI).
  - apply list_elem_of_singleton in Hb as ->.
    rewrite (body_of_lookup _ _ _ Hbo), Hpos. unfold vec_finite, new_pos, pos_of. simpl.
    rewrite (wm_of_lookup _ _ _ Ho1), (wm_of_lookup _ _ _ Ho2).
    by rewrite !fhalf_fadd_finite.
Qed.

Lemma after_merge_pairs p l g :
  NoDup (p :: l) → merge_pairs g = p :: l → merge_pairs (after_merge p g) = l.
Proof.
  intros Hnd E. apply NoDup_cons in Hnd as [Hp Hnd].
  change (merge_pairs (after_merge p g)) with (filter (λ q, q ≠ p) (merge_pairs g)).
  rewrite E, filter_cons_False by (intros ?; done).
  apply filter_all. intros q Hq ->. done.
Qed.

Lemma after_merge_frame p g :
  game_over (after_merge p g) = game_over g
  ∧ can_spawn (after_merge p g) = can_spawn g
  ∧ waiting_wm (after_merge p g) = waiting_wm g
  ∧ cooldown (after_merge p g) = cooldown g
  ∧ score (after_merge p g) = Z.max (score g) (level (wm_of g p.1) + 1).
Proof. done. Qed.

(** On a well-formed state [_process_merges] returns and has merged every
    pending pair. *)
Lemma process_merges_loop l g :
  Inv g → merge_pairs g = l →
  ∃ g', for_each process_pair l g = Done g' ∧ Inv g' ∧ merge_pairs g' = []
        ∧ (space_finite g → space_finite g')
        ∧ game_over g' = game_over g ∧ can_spawn g' = can_spawn g
        ∧ waiting_wm g' = waiting_wm g.
Proof.
  revert g. induction l as [|p l IH]; intros g HI E.
  - exists g. done.
  - assert (Hp : p ∈ merge_pairs g) by (rewrite E; left).
    assert (Hnd : NoDup (p :: l)) by (rewrite <- E; apply flat_pairs_nodup, HI).
    cbn [for_each]. rewrite (process_pair_Done p g HI Hp). cbn [mbind outcome_bind].
    destruct (IH (after_merge p g)) as (g' & Hrun & HI' & Hnil & Hfin & F1 & F2 & F3).
    { by apply after_merge_Inv. }
    { by apply after_merge_pairs. }
    exists g'. do 3 (split; [done|]). split; [|done].
    intros Hf. by apply Hfin, after_merge_finite.
Qed.

Lemma _update_Inv g :
  Inv g →
  ∃ g', _update g = Done g' ∧ Inv g' ∧ merge_pairs g' = [] ∧ space_finite g'.
Proof.
  intros HI. unfold _update.
  set (g1 := if negb (can_spawn g) then tick_cooldown g else g).
  assert (HI1 : Inv g1).
  { unfold g1. destruct (can_spawn g) eqn:Hc; [done|]. by apply tick_cooldown_Inv. }
  destruct (update_all_Inv g1 HI1) as (HI2 & Hfin & _).
  destruct (process_merges_loop (merge_pairs (update_all g1)) (update_all g1) HI2 eq_refl)
    as (g' & Hrun & HI' & Hnil & Hf & _).
  exists g'. unfold _process_merges. auto.
Qed.

Lemma frame_Inv inp ph g :
  Inv g → frame inp ph g = Exited ∨ ∃ g', frame inp ph g = Done g' ∧ Inv g'.
Proof.
  intros HI. unfold frame.
  destruct (_handle_input_Inv inp g HI) as [->|(g1 & -> & HI1)]; [by left|].
  right. cbn [mbind outcome_bind]. destruct (game_over g1); [eauto|].
  destruct (_update_Inv g1 HI1) as (g2 & -> & HI2 & _ & Hfin).
  cbn [mbind outcome_bind]. by apply Physics_step_Inv.
Qed.

(** Every state at a frame boundary is well formed. *)
Lemma reachable_Inv g : reachable g → Inv g.
Proof.
  induction 1 as [|g inp ph g' _ IH Hf]; [apply new_game_Inv|].
  destruct (frame_Inv inp ph g IH) as [E|(g'' & E & HI)]; congruence.
Qed.

(** No frame of a run ends in an exception. *)
Lemma frame_safe inp ph g : reachable g → frame inp ph g ≠ Raised.
Proof.
  intros Hr. destruct (frame_Inv inp ph g (reachable_Inv g Hr)) as [E|(g' & E & _)];
    congruence.
Qed.

Lemma reachable_run tr g g' : reachable g → run tr g = Done g' → reachable g'.
Proof.
  revert g. induction tr as [|[inp ph] tr IH]; intros g Hr; simpl.
  - by intros [= <-].
  - destruct (frame inp ph g) as [g1| |] eqn:Hf; try done.
    cbn [mbind outcome_bind]. apply IH. by apply (reachable_frame g inp ph).
Qed.

(** ** C1: what merging a pair does *)



Lemma two_touching_reached : run two_drops new_game = Done two_touching.
Proof. vm_compute. reflexivity. Qed.

Lemma two_touching_reachable : reachable two_touching.
Proof. exact (reachable_run _ _ _ reachable_start two_touching_reached). Qed.

Example two_touching_pending :
  merge_pairs two_touching = [(5%positive, 7%positive)]
  ∧ watermelons two_touching = [5%positive; 7%positive].
Proof. split; reflexivity. Qed.


(** ** C2: releasing onto an existing piece *)

(** For finite positions the overlap test compares the squared distance of
    the centres with the square of nine tenths of the sum of the radii. *)
Lemma _check_collision_finite g wm1 wm2 (x1 y1 x2 y2 : Q) :
  pos_of g wm1 = mkVec (Finite x1) (Finite y1) →
  pos_of g wm2 = mkVec (Finite x2) (Finite y2) →
  let c := (inject_Z (radius (wm_of g wm1) + radius (wm_of g wm2)) * (9 # 10))%Q in
  _check_collision g wm1 wm2 = true
  ↔ (0 < c)%Q ∧ ((x1 - x2) * (x1 - x2) + (y1 - y2) * (y1 - y2) < c * c)%Q.
Proof.
  intros P1 P2 c. unfold _check_collision. rewrite P1, P2. cbn [vx vy fsub fneg fadd hypot_lt].
  fold c. rewrite andb_true_iff, !Qltb_lt.
  assert (E : ∀ a b : Q, (Qred (a + Qred (- b)) == a - b)%Q).
  { intros a b. rewrite !Qred_correct. reflexivity. }
  assert (E2 : ((Qred (x1 + Qred (- x2)) * Qred (x1 + Qred (- x2))
                + Qred (y1 + Qred (- y2)) * Qred (y1 + Qred (- y2)))
               == (x1 - x2) * (x1 - x2) + (y1 - y2) * (y1 - y2))%Q).
  { rewrite !E. reflexivity. }
  split; intros [H1 H2]; (split; [done|]).
  - by rewrite <- E2.
  - by rewrite E2.
Qed.


Lemma crowded_reached : run crowding new_game = Done crowded.
Proof. vm_compute. reflexivity. Qed.

Lemma crowded_reachable : reachable crowded.
Proof. exact (reachable_run _ _ _ reachable_start crowded_reached). Qed.

Example crowded_pieces :
  watermelons crowded = [5%positive; 7%positive] ∧ waiting_wm crowded = 7%positive
  ∧ game_over crowded = false
  ∧ pos_of crowded 5 = vec_of_ints 350 50 ∧ pos_of crowded 7 = vec_of_ints 300 50.
Proof. repeat split; reflexivity. Qed.


(** ** C3: the score and the highest level *)

Lemma reachable_play n g g' : reachable g → play n g = Done g' → reachable g'.
Proof.
  revert g. induction n as [|n IH]; intros g Hr; simpl.
  - by intros [= <-].
  - destruct (frame _ _ g) as [g1| |] eqn:Hf; try done.
    cbn [mbind outcome_bind]. apply IH. by apply (reachable_frame g _ _ g1 Hr Hf).
Qed.

Example play_four_drops : standing (play 200 new_game) = Some (3, [3]).
Proof. vm_compute. reflexivity. Qed.

Example eve_standing : standing (play eve new_game) = Some (10, [10; 10]).
Proof. vm_compute. reflexivity. Qed.

Lemma marathon_standing : standing (play marathon new_game) = Some (11, [10]).
Proof. vm_compute. reflexivity. Qed.

Lemma standing_Done o s l :
  standing o = Some (s, l) →
  ∃ g, o = Done g ∧ score g = s ∧ (λ w, level (wm_of g w)) <$> watermelons g = l.
Proof. destruct o as [g| |]; [|done|done]. intros [= <- <-]. by exists g. Qed.

(** C3 fails on the code. There is a run, without restart, after which the
    score is 11 although no piece that was ever created, by a merge or
    otherwise, has a level above [MAX_LEVEL]: merging two pieces of level 10
    creates a piece of level 10 and records 11. *)
Theorem score_exceeds_max_level :
  ∃ g, reachable g ∧ score g = 11
       ∧ (∀ w o, wms g !! w = Some o → level o ≤ MAX_LEVEL)
       ∧ (λ w, level (wm_of g w)) <$> watermelons g = [10].
Proof.
  destruct (standing_Done _ _ _ marathon_standing) as (g & E & Hs & Hl).
  exists g.
  assert (Hr : reachable g) by exact (reachable_play _ _ _ reachable_start E).
  split; [exact Hr|]. split; [exact Hs|]. split; [|exact Hl].
  intros w o Ho.
  destruct (st_wms g (inv_store g (reachable_Inv g Hr)) w o Ho) as (_ & Hlv & _).
  exact Hlv.
Qed.

(** ** C6: at most one Waiting piece *)

Lemma Inv_waiting_count g :
  Inv g →
  (waiting_count g ≤ 1)%nat
  ∧ (can_spawn g = false → waiting_count g = 0%nat)
  ∧ (∀ w, w ∈ watermelons g → state (wm_of g w) = WAITING → w = waiting_wm g).
Proof.
  intros HI. unfold waiting_count. rewrite (waiting_pieces g HI). split; [|split].
  - destruct (decide _); simpl; lia.
  - intros Hc. by rewrite decide_False by (by apply (inv_spawn g HI)).
  - intros w Hw Hst. destruct (inv_live g HI w Hw) as (o & Ho & H1 & _).
    rewrite (wm_of_lookup _ _ _ Ho) in Hst. auto.
Qed.

(** C6. At every frame boundary of a run, and inside every frame after the
    input has been handled and after [_update], at most one live piece is
    Waiting, and it is the tracked one; while the spawn gate is closed, which
    is when [_update] may create the next Waiting piece, no live piece is
    Waiting: the tracked piece has been released. *)
Theorem at_most_one_waiting (g : Game) :
  reachable g →
  ((waiting_count g ≤ 1)%nat
   ∧ (can_spawn g = false → waiting_count g = 0%nat)
   ∧ (∀ w, w ∈ watermelons g → state (wm_of g w) = WAITING → w = waiting_wm g))
  ∧ ∀ inp g1, _handle_input inp g = Done g1 →
      ((waiting_count g1 ≤ 1)%nat
       ∧ (can_spawn g1 = false → waiting_count g1 = 0%nat)
       ∧ (∀ w, w ∈ watermelons g1 → state (wm_of g1 w) = WAITING → w = waiting_wm g1))
      ∧ ∀ g2, _update g1 = Done g2 →
          (waiting_count g2 ≤ 1)%nat
          ∧ (∀ w, w ∈ watermelons g2 → state (wm_of g2 w) = WAITING → w = waiting_wm g2).
Proof.
  intros Hr. pose proof (reachable_Inv g Hr) as HI.
  split; [by apply Inv_waiting_count|]. intros inp g1 Hin.
  destruct (_handle_input_Inv inp g HI) as [E|(g1' & E & HI1)]; [congruence|].
  assert (g1' = g1) as -> by congruence.
  split; [by apply Inv_waiting_count|]. intros g2 Hup.
  destruct (_update_Inv g1 HI1) as (g2' & E2 & HI2 & _).
  assert (g2' = g2) as -> by congruence.
  destruct (Inv_waiting_count g2 HI2) as (? & _ & ?). done.
Qed.

Lemma at_most_one_waiting_witness :
  (waiting_count crowded ≤ 1)%nat
  ∧ (waiting_count two_touching ≤ 1)%nat.
Proof.
  split.
  - exact (proj1 (proj1 (at_most_one_waiting crowded crowded_reachable))).
  - exact (proj1 (proj1 (at_most_one_waiting two_touching two_touching_reachable))).
Defined.

Example waiting_counts :
  waiting_count new_game = 1%nat ∧ waiting_count crowded = 1%nat
  ∧ waiting_count two_touching = 0%nat.
Proof. repeat split; reflexivity. Qed.

(** ** C8: the pending pairs are drained *)

(** C8. In every frame of a run that reaches [_update], the call returns
    with an empty list of pending pairs; and at every frame boundary the
    pairs carried into the next frame name live pieces only, each at most
    once. *)
Theorem merge_pairs_drained (g : Game) :
  reachable g →
  (∀ p, p ∈ merge_pairs g → p.1 ∈ watermelons g ∧ p.2 ∈ watermelons g)
  ∧ NoDup (flat_pairs (merge_pairs g))
  ∧ ∀ inp g1, _handle_input inp g = Done g1 →
      ∃ g2, _update g1 = Done g2 ∧ merge_pairs g2 = [].
Proof.
  intros Hr. pose proof (reachable_Inv g Hr) as HI. split; [|split].
  - intros p Hp. destruct (inv_pairs g HI p Hp) as (? & ? & _). done.
  - apply HI.
  - intros inp g1 Hin.
    destruct (_handle_input_Inv inp g HI) as [E|(g1' & E & HI1)]; [congruence|].
    assert (g1' = g1) as -> by congruence.
    destruct (_update_Inv g1 HI1) as (g2 & E2 & _ & Hnil & _). eauto.
Qed.

Lemma merge_pairs_drained_witness :
  ∃ g2, _update (move_waiting idle two_touching) = Done g2 ∧ merge_pairs g2 = [].
Proof.
  exact (proj2 (proj2 (merge_pairs_drained two_touching two_touching_reachable))
           idle (move_waiting idle two_touching) eq_refl).
Defined.

(** ** C4: pieces and registered bodies *)

(** C4, as stated, fails at the first frame boundary already: the Waiting
    piece is live and no body is registered for it. *)
Lemma waiting_piece_unregistered :
  reachable new_game
  ∧ 5%positive ∈ watermelons new_game
  ∧ registered_for new_game 5 = []
  ∧ body (wm_of new_game 5) ∉ space_bodies new_game.
Proof.
  split; [apply reachable_start|]. split; [left|]. split; [reflexivity|].
  vm_compute. intros H. repeat (inversion H as [|? ? ? H']; clear H; rename H' into H).
Qed.

Lemma filter_unique {A} (P : A → Prop) `{∀ x, Decision (P x)} (l : list A) (x : A) :
  NoDup l → x ∈ l → P x → (∀ y, y ∈ l → P y → y = x) → filter P l = [x].
Proof.
  induction l as [|y l IH]; intros Hnd Hin Hx Huniq; [by apply elem_of_nil in Hin|].
  apply NoDup_cons in Hnd as [Hy Hnd]. rewrite filter_cons.
  destruct (decide (P y)) as [Py|Py].
  - assert (y = x) as -> by (apply Huniq; [left|done]). f_equal.
    apply filter_none. intros z Hz Pz. apply Hy.
    by rewrite <- (Huniq z (list_elem_of_further _ _ _ Hz) Pz).
  - apply elem_of_cons in Hin as [->|Hin]; [done|].
    apply IH; try done. intros z Hz. apply Huniq. by right.
Qed.

Lemma Inv_registry_consistent g : Inv g → registry_consistent g.
Proof.
  intros HI. split; [apply HI|]. split.
  - intros w Hw. destruct (inv_live g HI w Hw) as (o & Ho & _ & Hreg).
    rewrite (wm_of_lookup _ _ _ Ho).
    assert (Hown : ∀ b, b ∈ space_bodies g → user_data (body_of g b) = Some w →
                     b = body o ∧ state o ≠ WAITING).
    { intros b Hb Hu. destruct (inv_space_bodies g HI b Hb) as (bo & Hbo & Hm).
      rewrite (body_of_lookup _ _ _ Hbo) in Hu. rewrite Hu in Hm.
      destruct Hm as (_ & Hbw & Hst). by rewrite (wm_of_lookup _ _ _ Ho) in Hbw, Hst. }
    unfold registered_for. destruct (decide (state o = WAITING)) as [Hst|Hst].
    + apply filter_none. intros b Hb Hu. by destruct (Hown b Hb Hu).
    + destruct (Hreg Hst) as [Hb _]. apply filter_unique; [apply HI|done| |].
      * destruct (st_wms g (inv_store g HI) _ _ Ho) as (_ & _ & _ & bo & _ & Hbo & Hu & _).
        by rewrite (body_of_lookup _ _ _ Hbo).
      * intros b Hb' Hu. by destruct (Hown b Hb' Hu).
  - intros b Hb. destruct (inv_space_bodies g HI b Hb) as (bo & Hbo & Hm).
    rewrite (body_of_lookup _ _ _ Hbo). destruct (user_data bo); [|by destruct Hm].
    by destruct Hm as (? & ? & _).
Qed.

(** C4, amended. At every frame boundary of a run, and inside every frame
    after the input has been handled and after [_update] has processed the
    merges, every live piece that is not Waiting has exactly one registered
    body, its own, the live Waiting piece has none, and every registered body
    belongs to a live piece or is a static wall; [_update] and the whole
    frame return without a failed registration, and the guard of
    [Physics.step] that follows [_update] finds no body to unregister. *)
Theorem registry_matches_live_pieces (g : Game) :
  reachable g →
  registry_consistent g
  ∧ ∀ inp ph,
      frame inp ph g ≠ Raised
      ∧ ∀ g1, _handle_input inp g = Done g1 →
          registry_consistent g1
          ∧ ∃ g2, _update g1 = Done g2 ∧ registry_consistent g2
                  ∧ for_each evict (space_bodies g2) g2 = Done g2.
Proof.
  intros Hr. pose proof (reachable_Inv g Hr) as HI.
  split; [by apply Inv_registry_consistent|]. intros inp ph.
  split; [by apply frame_safe|]. intros g1 Hin.
  destruct (_handle_input_Inv inp g HI) as [E|(g1' & E & HI1)]; [congruence|].
  assert (g1' = g1) as -> by congruence.
  split; [by apply Inv_registry_consistent|].
  destruct (_update_Inv g1 HI1) as (g2 & E2 & HI2 & _ & Hfin).
  exists g2. split; [done|]. split; [by apply Inv_registry_consistent|].
  by apply evict_finite.
Qed.

Lemma registry_matches_live_pieces_witness :
  registry_consistent two_touching ∧ registry_consistent crowded.
Proof.
  split.
  - exact (proj1 (registry_matches_live_pieces two_touching two_touching_reachable)).
  - exact (proj1 (registry_matches_live_pieces crowded crowded_reachable)).
Defined.

Example registered_bodies :
  registered_for two_touching 5 = [6%positive]
  ∧ registered_for two_touching 7 = [8%positive]
  ∧ registered_for crowded 7 = [].
Proof. repeat split; reflexivity. Qed.

(** ** C5: the merged flag *)

Lemma flags_kept_same g g' : wms g' = wms g → flags_kept g g'.
Proof. intros E w o Ho. exists o. by rewrite E. Qed.

Lemma flags_kept_trans g1 g2 g3 : flags_kept g1 g2 → flags_kept g2 g3 → flags_kept g1 g3.
Proof.
  intros H12 H23 w o Ho. destruct (H12 w o Ho) as (o2 & Ho2 & L2 & M2 & S2).
  destruct (H23 w o2 Ho2) as (o3 & Ho3 & L3 & M3 & S3).
  exists o3. repeat split; [done|congruence|auto|auto].
Qed.

Lemma flags_kept_init pos lvl st g :
  StoreOk g → flags_kept g (Watermelon_init pos lvl st g).2.
Proof.
  intros Hs w o Ho. exists o. split; [|done].
  rewrite Watermelon_init_wms; [done|].
  destruct (st_wms g Hs w o Ho) as (? & _). lia.
Qed.

Lemma flags_kept_flag w g : flags_kept g (flag w g).
Proof.
  intros w' o Ho. exists ((if decide (w = w') then with_merged true else id) o).
  rewrite flag_wms, Ho. split; [done|]. by destruct (decide (w = w')).
Qed.

Lemma flags_kept_after_release g :
  Inv g → state (wm_of g (waiting_wm g)) = WAITING → flags_kept g (after_release g).
Proof.
  intros HI Hst. destruct (inv_waiting g HI) as (o & Hw).
  rewrite (wm_of_lookup _ _ _ Hw) in Hst. intros w' o' Ho'.
  change (wms (after_release g)) with (wms (convert_to_dynamic (waiting_wm g) g)).
  rewrite (convert_wms g o Hw Hst).
  destruct (decide (waiting_wm g = w')) as [<-|]; [|by exists o'].
  assert (o' = o) as -> by congruence. eexists; split; [done|]. done.
Qed.

Lemma flags_kept_first_piece g1 : StoreOk g1 → flags_kept g1 (first_piece g1).
Proof.
  intros Hs.
  apply (flags_kept_trans g1 (Watermelon_init (vec_of_ints (WIDTH `div` 2) 50) 1 WAITING g1).2).
  - by apply flags_kept_init.
  - apply flags_kept_same. reflexivity.
Qed.

Lemma flags_kept_Game_init g : StoreOk g → flags_kept g (Game_init g).
Proof.
  intros Hs. rewrite Game_init_first_piece.
  generalize (WallsOnly_Physics_init g Hs). intros [H1 _ _ _ _ _].
  assert (E : wms (set_watermelons [] (Physics_init g)) = wms g) by reflexivity.
  assert (Hs1 : StoreOk (set_watermelons [] (Physics_init g))).
  { apply (StoreOk_same (Physics_init g)); [reflexivity..|exact H1]. }
  revert E Hs1. generalize (set_watermelons [] (Physics_init g)) as g1. intros g1 E Hs1.
  apply (flags_kept_trans g g1); [by apply flags_kept_same|].
  by apply flags_kept_first_piece.
Qed.

Lemma _release_wm_kept g g' : Inv g → _release_wm g = Done g' → flags_kept g g'.
Proof.
  intros HI. rewrite (_release_wm_Done g HI). intros [= <-].
  destruct (negb (can_spawn g) || _) eqn:Hguard; [by apply flags_kept_same|].
  destruct (release_blocked g); [by apply flags_kept_same|].
  apply orb_false_iff in Hguard as [_ Hst]. apply negb_false_iff, bool_decide_eq_true in Hst.
  by apply flags_kept_after_release.
Qed.

Lemma handle_event_kept ev g g' : Inv g → handle_event ev g = Done g' → flags_kept g g'.
Proof.
  intros HI. destruct ev as [|k|]; simpl; [done| |by intros [= <-]; apply flags_kept_same].
  destruct (game_over g && bool_decide (k = K_r)).
  - intros [= <-]. apply flags_kept_Game_init, HI.
  - destruct (negb (game_over g)); [|by intros [= <-]; apply flags_kept_same].
    destruct (bool_decide (k ∈ [K_DOWN; K_SPACE]));
      [by apply _release_wm_kept|by intros [= <-]; apply flags_kept_same].
Qed.

Lemma handle_events_kept evs g g' :
  Inv g → for_each handle_event evs g = Done g' → flags_kept g g'.
Proof.
  revert g. induction evs as [|ev evs IH]; intros g HI; cbn [for_each].
  - intros [= <-]. by apply flags_kept_same.
  - destruct (handle_event_Inv ev g HI) as [E|(g1 & E & HI1)]; rewrite E; [done|].
    cbn [mbind outcome_bind]. intros Hrest.
    apply (flags_kept_trans g g1); [by apply (handle_event_kept ev)|by apply IH].
Qed.

Lemma tick_cooldown_kept g : Inv g → flags_kept g (tick_cooldown g).
Proof.
  intros HI. unfold tick_cooldown.
  set (g1 := set_cooldown _ g).
  destruct (Qle_bool (cooldown g1) 0); [|by apply flags_kept_same].
  set (g2 := set_can_spawn true g1).
  rewrite (Watermelon_init_pair _ 1 WAITING g2).
  apply (flags_kept_trans g g2); [by apply flags_kept_same|].
  apply (flags_kept_trans g2 (Watermelon_init (vec_of_ints (WIDTH `div` 2) 50) 1 WAITING g2).2).
  - apply flags_kept_init. apply (StoreOk_same g); [reflexivity..|apply HI].
  - destruct (existsb _ _); by apply flags_kept_same.
Qed.

Lemma after_merge_kept p g : Inv g → p ∈ merge_pairs g → flags_kept g (after_merge p g).
Proof.
  intros HI Hp. unfold after_merge.
  set (new_pos := mkVec _ _). set (new_level := level (wm_of g p.1) + 1).
  apply (flags_kept_trans g (destroyed p g)); [by apply flags_kept_same|].
  apply (flags_kept_trans _ (Watermelon_init new_pos new_level MOVING (destroyed p g)).2);
    [|by apply flags_kept_same].
  apply flags_kept_init, (destroyed_Inv p g HI Hp).
Qed.

Lemma process_merges_kept l g g' :
  Inv g → merge_pairs g = l → for_each process_pair l g = Done g' → flags_kept g g'.
Proof.
  revert g. induction l as [|p l IH]; intros g HI E; cbn [for_each].
  - intros [= <-]. by apply flags_kept_same.
  - assert (Hp : p ∈ merge_pairs g) by (rewrite E; left).
    assert (Hnd : NoDup (p :: l)) by (rewrite <- E; apply flat_pairs_nodup, HI).
    rewrite (process_pair_Done p g HI Hp). cbn [mbind outcome_bind]. intros Hrest.
    apply (flags_kept_trans g (after_merge p g)); [by apply after_merge_kept|].
    apply IH; [by apply after_merge_Inv|by apply after_merge_pairs|done].
Qed.

Lemma _update_kept g g' : Inv g → _update g = Done g' → flags_kept g g'.
Proof.
  intros HI. unfold _update.
  set (g1 := if negb (can_spawn g) then tick_cooldown g else g).
  assert (HI1 : Inv g1).
  { unfold g1. destruct (can_spawn g) eqn:Hc; [done|]. by apply tick_cooldown_Inv. }
  assert (K1 : flags_kept g g1).
  { unfold g1. destruct (can_spawn g); [by apply flags_kept_same|by apply tick_cooldown_kept]. }
  destruct (update_all_Inv g1 HI1) as (HI2 & _ & _ & _ & Ew & _).
  unfold _process_merges. intros Hrun.
  apply (flags_kept_trans g g1); [done|].
  apply (flags_kept_trans g1 (update_all g1)); [by apply flags_kept_same|].
  by apply (process_merges_kept (merge_pairs (update_all g1))).
Qed.

Lemma report_contact_kept c g : flags_kept g (report_contact c g).
Proof.
  unfold report_contact. destruct (_ && _); [|by apply flags_kept_same].
  unfold collision_handler.
  destruct (user_data _) as [w1|]; [|by apply flags_kept_same].
  destruct (user_data _) as [w2|]; [|by apply flags_kept_same].
  destruct (_ && _); [|by apply flags_kept_same].
  apply (flags_kept_trans g (flag w1 g)); [apply flags_kept_flag|].
  apply (flags_kept_trans _ (flag w2 (flag w1 g))); [apply flags_kept_flag|].
  by apply flags_kept_same.
Qed.

Lemma space_step_kept ph g : flags_kept g (space_step ph g).
Proof.
  unfold space_step.
  apply (flags_kept_trans g (foldl (λ g m, apply_move m g) g (ph_moves ph))).
  - generalize (ph_moves ph) as l. intros l. revert g.
    induction l as [|m l IH]; intros g; [by apply flags_kept_same|]. simpl.
    apply (flags_kept_trans g (apply_move m g)); [|apply IH].
    apply flags_kept_same. by destruct (apply_move_frame m g) as (-> & _).
  - generalize (foldl (λ g m, apply_move m g) g (ph_moves ph)) as h.
    generalize (ph_contacts ph) as l. induction l as [|c l IH]; intros h;
      [by apply flags_kept_same|]. simpl.
    apply (flags_kept_trans h (report_contact c h)); [apply report_contact_kept|apply IH].
Qed.

Lemma frame_kept inp ph g g' : Inv g → frame inp ph g = Done g' → flags_kept g g'.
Proof.
  intros HI. unfold frame, _handle_input.
  destruct (handle_events_Inv (events inp) g HI) as [E|(g0 & E & HI0)]; rewrite E; [done|].
  pose proof (handle_events_kept _ _ _ HI E) as K0.
  cbn [mbind outcome_bind].
  pose proof (move_waiting_Inv inp g0 HI0) as HI1.
  assert (K1 : flags_kept g (move_waiting inp g0)).
  { apply (flags_kept_trans g g0); [done|]. apply flags_kept_same.
    by destruct (move_waiting_frame inp g0) as (-> & _). }
  destruct (game_over (move_waiting inp g0)); [by intros [= <-]|].
  destruct (_update_Inv _ HI1) as (g2 & E2 & HI2 & _ & Hfin). rewrite E2.
  pose proof (_update_kept _ _ HI1 E2) as K2.
  cbn [mbind outcome_bind]. unfold Physics_step.
  rewrite (evict_finite _ g2) by done. cbn [mbind outcome_bind]. intros [= <-].
  apply (flags_kept_trans g _ _ K1), (flags_kept_trans _ g2 _ K2), space_step_kept.
Qed.

Lemma run_kept tr g g' : reachable g → run tr g = Done g' → flags_kept g g'.
Proof.
  revert g. induction tr as [|[inp ph] tr IH]; intros g Hr; simpl.
  - intros [= <-]. by apply flags_kept_same.
  - destruct (frame inp ph g) as [g1| |] eqn:Hf; try done.
    cbn [mbind outcome_bind]. intros Hrest.
    apply (flags_kept_trans g g1).
    + apply (frame_kept inp ph g g1); [by apply reachable_Inv|done].
    + apply IH; [|done]. by apply (reachable_frame g inp ph).
Qed.

(** The callback leaves the state alone when one of the two pieces carries
    the flag. *)
Lemma collision_handler_merged sa sb g w1 w2 :
  user_data (body_of g (sh_body (shape_of g sa))) = Some w1 →
  user_data (body_of g (sh_body (shape_of g sb))) = Some w2 →
  merged (wm_of g w1) = true ∨ merged (wm_of g w2) = true →
  collision_handler sa sb g = g.
Proof.
  intros H1 H2 Hm. unfold collision_handler. rewrite H1, H2.
  destruct Hm as [-> | ->]; cbn [negb andb]; by rewrite ?andb_false_r.
Qed.

(** C5. From any frame boundary of a run, however the run continues, even
    through a restart, a piece whose merged flag is set keeps it; the
    collision callback changes nothing when one of the two pieces it is
    called on carries the flag, so a flagged piece is never put into another
    pair; and no piece occurs twice among the pending pairs. *)
Theorem merged_flag_is_final (g : Game) :
  reachable g →
  (∀ tr g' w o, run tr g = Done g' → wms g !! w = Some o → merged o = true →
     ∃ o', wms g' !! w = Some o' ∧ merged o' = true)
  ∧ (∀ sa sb w1 w2,
       user_data (body_of g (sh_body (shape_of g sa))) = Some w1 →
       user_data (body_of g (sh_body (shape_of g sb))) = Some w2 →
       merged (wm_of g w1) = true ∨ merged (wm_of g w2) = true →
       collision_handler sa sb g = g)
  ∧ NoDup (flat_pairs (merge_pairs g))
  ∧ (∀ p, p ∈ merge_pairs g → merged (wm_of g p.1) = true ∧ merged (wm_of g p.2) = true).
Proof.
  intros Hr. pose proof (reachable_Inv g Hr) as HI. split; [|split; [|split]].
  - intros tr g' w o Hrun Ho Hm.
    destruct (run_kept tr g g' Hr Hrun w o Ho) as (o' & Ho' & _ & Hm' & _). eauto.
  - intros sa sb w1 w2. apply collision_handler_merged.
  - apply HI.
  - intros p Hp. by destruct (inv_pairs g HI p Hp) as (_ & _ & _ & _ & ? & ? & _).
Qed.

Lemma fused_reached : run after_touch two_touching = Done fused.
Proof. vm_compute. reflexivity. Qed.

Example fused_pieces :
  watermelons fused = [9%positive] ∧ level (wm_of fused 9) = 2 ∧ score fused = 2
  ∧ merge_pairs fused = [] ∧ merged (wm_of fused 9) = false.
Proof. repeat split; reflexivity. Qed.

Lemma merged_flag_is_final_witness :
  ∃ o', wms fused !! 5%positive = Some o' ∧ merged o' = true.
Proof.
  exact (proj1 (merged_flag_is_final two_touching two_touching_reachable)
           after_touch fused 5%positive (mkWatermelon 1 45 MOVING true 6 5)
           fused_reached eq_refl eq_refl).
Defined.


(** * Further properties of the code *)

(** ** Runs *)








(** ** The piece *)

Lemma convert_to_dynamic_waiting w g o :
  wms g !! w = Some o → state o = WAITING →
  wm_of (convert_to_dynamic w g) w = with_body_state (next_id g) MOVING o
  ∧ body_of (convert_to_dynamic w g) (next_id g)
    = mkBody DYNAMIC 120 (position (body_of g (body o))) (Some w).
Proof.
  intros Ho Hst. unfold convert_to_dynamic. rewrite (wm_of_lookup _ _ _ Ho).
  rewrite decide_True by done. unfold wm_of, body_of; simpl.
  rewrite lookup_alter, decide_True, Ho by done. by rewrite lookup_insert_eq.
Qed.

(** X3. [convert_to_dynamic] changes nothing on a piece that is not Waiting,
    so converting twice is converting once; and it never moves the piece:
    the new body is where the old one was. *)
Theorem convert_to_dynamic_once (w : positive) (g : Game) :
  (state (wm_of g w) ≠ WAITING → convert_to_dynamic w g = g)
  ∧ convert_to_dynamic w (convert_to_dynamic w g) = convert_to_dynamic w g
  ∧ state (wm_of (convert_to_dynamic w g) w) ≠ WAITING
  ∧ pos_of (convert_to_dynamic w g) w = pos_of g w.
Proof.
  assert (Hid : ∀ h, state (wm_of h w) ≠ WAITING → convert_to_dynamic w h = h).
  { intros h Hn. unfold convert_to_dynamic. by rewrite decide_False. }
  split; [apply Hid|].
  destruct (decide (state (wm_of g w) = WAITING)) as [Hst|Hst].
  - destruct (wms g !! w) as [o|] eqn:Ho; [|unfold wm_of in Hst; by rewrite Ho in Hst].
    rewrite (wm_of_lookup _ _ _ Ho) in Hst.
    destruct (convert_to_dynamic_waiting w g o Ho Hst) as [Ew Eb].
    assert (Hn : state (wm_of (convert_to_dynamic w g) w) ≠ WAITING) by (by rewrite Ew).
    split; [by apply Hid|]. split; [done|].
    unfold pos_of at 1. rewrite Ew. cbn [body with_body_state]. rewrite Eb.
    unfold pos_of. by rewrite (wm_of_lookup _ _ _ Ho).
  - rewrite !Hid by (by rewrite ?Hid). done.
Qed.

(** ** The overlap test *)

Lemma Qltb_comp (a b c d : Q) : (a == b)%Q → (c == d)%Q → Qltb a c = Qltb b d.
Proof. intros E1 E2. unfold Qltb. by rewrite E1, E2. Qed.

Lemma fsub_swap (a b : pyfloat) :
  (∀ q, fsub a b = Finite q → ∃ q', fsub b a = Finite q' ∧ (q' == - q)%Q)
  ∧ (isfinite (fsub a b) = false → isfinite (fsub b a) = false).
Proof.
  destruct a as [x| | |], b as [y| | |]; (split; [intros q E|intros E]); try done.
  injection E as <-. eexists; split; [reflexivity|]. rewrite !Qred_correct. ring.
Qed.

(** X4. The overlap test is symmetric in the two pieces. *)
Theorem _check_collision_sym (g : Game) (wm1 wm2 : positive) :
  _check_collision g wm1 wm2 = _check_collision g wm2 wm1.
Proof.
  unfold _check_collision.
  rewrite (Z.add_comm (radius (wm_of g wm1))).
  set (c := (inject_Z _ * _)%Q).
  destruct (fsub_swap (vx (pos_of g wm2)) (vx (pos_of g wm1))) as [Hx Hnx].
  destruct (fsub_swap (vy (pos_of g wm2)) (vy (pos_of g wm1))) as [Hy Hny].
  generalize dependent (fsub (vx (pos_of g wm2)) (vx (pos_of g wm1))).
  generalize dependent (fsub (vy (pos_of g wm2)) (vy (pos_of g wm1))).
  generalize (fsub (vx (pos_of g wm1)) (vx (pos_of g wm2))).
  generalize (fsub (vy (pos_of g wm1)) (vy (pos_of g wm2))).
  intros dy' dx' dy Hy Hny dx Hx Hnx.
  destruct dx as [a| | |]; [|destruct dx'; [discriminate (Hnx eq_refl)|reflexivity|reflexivity|reflexivity]..].
  destruct (Hx a eq_refl) as (a' & -> & Ea).
  destruct dy as [b| | |]; [|destruct dy'; [discriminate (Hny eq_refl)|reflexivity|reflexivity|reflexivity]..].
  destruct (Hy b eq_refl) as (b' & -> & Eb).
  cbn [hypot_lt]. f_equal. apply Qltb_comp; [|reflexivity]. rewrite Ea, Eb. ring.
Qed.

(** X5. A piece with a non-finite coordinate overlaps nothing, on either
    side of the test: it can block neither a release nor a spawn. *)
Theorem _check_collision_nonfinite (g : Game) (wm1 wm2 : positive) :
  vec_finite (pos_of g wm1) = false →
  _check_collision g wm1 wm2 = false ∧ _check_collision g wm2 wm1 = false.
Proof.
  intros Hf. unfold _check_collision, vec_finite in *.
  destruct (vx (pos_of g wm1)) as [x| | |], (vy (pos_of g wm1)) as [y| | |]; try done;
    by destruct (vx (pos_of g wm2)), (vy (pos_of g wm2)).
Qed.

Lemma _check_collision_nonfinite_witness :
  _check_collision blown_up 5 7 = false ∧ _check_collision blown_up 7 5 = false.
Proof. apply _check_collision_nonfinite. reflexivity. Defined.

(** X6. A piece at a finite position overlaps itself: the loop of
    [_release_wm] has to skip the waiting piece. *)
Theorem _check_collision_self (g : Game) (wm : positive) :
  vec_finite (pos_of g wm) = true → 0 < radius (wm_of g wm) →
  _check_collision g wm wm = true.
Proof.
  intros Hf Hr. unfold _check_collision, vec_finite in *.
  destruct (vx (pos_of g wm)) as [x| | |]; [|done..].
  destruct (vy (pos_of g wm)) as [y| | |]; [|done..].
  cbn [fsub fneg fadd hypot_lt].
  set (c := (inject_Z _ * _)%Q).
  assert (Hc : (0 < c)%Q).
  { unfold c. apply Qmult_lt_0_compat; [|done].
    change 0%Q with (inject_Z 0). rewrite <- Zlt_Qlt. lia. }
  apply andb_true_intro. split; apply Qltb_lt; [done|].
  assert (E : ∀ z, (Qred (z + Qred (- z)) == 0)%Q) by (intros z; rewrite !Qred_correct; ring).
  rewrite !E. assert (0 * 0 + 0 * 0 == 0)%Q as -> by ring.
  by apply Qmult_lt_0_compat.
Qed.

Lemma _check_collision_self_witness : _check_collision new_game 5 5 = true.
Proof. apply _check_collision_self; [reflexivity|reflexivity]. Defined.

(** ** Releasing, restarting *)



(** X8. Two release keys in the event queue of one frame do what one does:
    after the first, either the piece is gone from the spawn gate or the game
    is over. *)
Theorem release_key_twice (g : Game) (k1 k2 : key) :
  reachable g → k1 ∈ [K_DOWN; K_SPACE] → k2 ∈ [K_DOWN; K_SPACE] →
  for_each handle_event [KEYDOWN k1; KEYDOWN k2] g = handle_event (KEYDOWN k1) g.
Proof.
  intros Hr H1 H2. pose proof (reachable_Inv g Hr) as HI.
  assert (N : ∀ k, k ∈ [K_DOWN; K_SPACE] → bool_decide (k = K_r) = false).
  { intros k Hk. apply bool_decide_eq_false. intros ->.
    apply elem_of_cons in Hk as [?|Hk]; [done|].
    apply elem_of_cons in Hk as [?|Hk]; [done|]. by apply elem_of_nil in Hk. }
  pose proof (N k1 H1) as N1. pose proof (N k2 H2) as N2.
  cbn [for_each handle_event]. rewrite N1, andb_false_r, (bool_decide_true _ H1).
  destruct (game_over g) eqn:Hg; cbn [negb mbind outcome_bind].
  { by rewrite Hg, N2. }
  rewrite (_release_wm_Done g HI).
  destruct (negb (can_spawn g) || _) eqn:Hguard; cbn [mbind outcome_bind].
  { rewrite Hg, N2, (bool_decide_true _ H2). cbn [andb negb].
    by rewrite (_release_wm_Done g HI), Hguard. }
  destruct (release_blocked g) eqn:Hb.
  { cbn [game_over set_game_over]. by rewrite N2. }
  change (game_over (after_release g)) with (game_over (convert_to_dynamic (waiting_wm g) g)).
  apply orb_false_iff in Hguard as [_ Hst]. apply negb_false_iff, bool_decide_eq_true in Hst.
  destruct (inv_waiting g HI) as (o & Hw). rewrite (wm_of_lookup _ _ _ Hw) in Hst.
  destruct (convert_frame g o Hw Hst) as (_ & _ & _ & _ & _ & _ & _ & -> & _).
  rewrite Hg, N2, (bool_decide_true _ H2). cbn [andb negb].
  unfold _release_wm.
  change (can_spawn (after_release g)) with false. done.
Qed.

Lemma release_key_twice_witness :
  for_each handle_event [KEYDOWN K_SPACE; KEYDOWN K_DOWN] new_game
  = handle_event (KEYDOWN K_SPACE) new_game.
Proof.
  apply release_key_twice; [exact reachable_start|right; left|left].
Defined.

Lemma blocked_reachable : reachable blocked.
Proof. exact (reachable_run _ _ _ reachable_start blocked_reached). Qed.

Lemma Game_init_waiting g :
  wm_of (Game_init g) (waiting_wm (Game_init g))
  = mkWatermelon 1 45 WAITING false (waiting_wm (Game_init g)) (waiting_wm (Game_init g))
  ∧ pos_of (Game_init g) (waiting_wm (Game_init g)) = vec_of_ints 300 50.
Proof.
  set (n := next_id g).
  assert (Ew : waiting_wm (Game_init g) = Pos.succ (Pos.succ (Pos.succ (Pos.succ n))))
    by reflexivity.
  assert (E1 : wms (Game_init g)
               = <[Pos.succ (Pos.succ (Pos.succ (Pos.succ n))) :=
                    mkWatermelon 1 45 WAITING false (Pos.succ (Pos.succ (Pos.succ (Pos.succ n))))
                      (Pos.succ (Pos.succ (Pos.succ (Pos.succ n))))]> (wms g)) by reflexivity.
  assert (E2 : ∃ m, bodies (Game_init g)
               = <[Pos.succ (Pos.succ (Pos.succ (Pos.succ n))) :=
                    mkBody KINEMATIC 0 (vec_of_ints (WIDTH `div` 2) 50)
                      (Some (Pos.succ (Pos.succ (Pos.succ (Pos.succ n)))))]> m)
    by (eexists; reflexivity).
  destruct E2 as (m & E2).
  rewrite Ew. unfold pos_of, wm_of, body_of. rewrite E1, lookup_insert_eq. cbn [default body].
  split; [done|]. by rewrite E2, lookup_insert_eq.
Qed.

Lemma Game_init_space g b :
  b ∈ space_bodies (Game_init g) →
  (next_id g ≤ b)%positive ∧ body_of (Game_init g) b = mkBody STATIC 0 (vec_of_ints 0 0) None.
Proof.
  set (n := next_id g).
  assert (Eb : space_bodies (Game_init g)
               = [n; Pos.succ n; Pos.succ (Pos.succ n); Pos.succ (Pos.succ (Pos.succ n))])
    by reflexivity.
  assert (E : bodies (Game_init g)
              = <[Pos.succ (Pos.succ (Pos.succ (Pos.succ n))) :=
                   mkBody KINEMATIC 0 (vec_of_ints (WIDTH `div` 2) 50)
                     (Some (Pos.succ (Pos.succ (Pos.succ (Pos.succ n)))))]>
                 (<[Pos.succ (Pos.succ (Pos.succ n)) := mkBody STATIC 0 (vec_of_ints 0 0) None]>
                 (<[Pos.succ (Pos.succ n) := mkBody STATIC 0 (vec_of_ints 0 0) None]>
                 (<[Pos.succ n := mkBody STATIC 0 (vec_of_ints 0 0) None]>
                 (<[n := mkBody STATIC 0 (vec_of_ints 0 0) None]> (bodies g)))))) by reflexivity.
  rewrite Eb. intros Hb. unfold body_of. rewrite E.
  repeat (apply elem_of_cons in Hb as [->|Hb];
          [split; [lia|]; repeat (rewrite lookup_insert_ne by lia); by rewrite lookup_insert_eq|]).
  by apply elem_of_nil in Hb.
Qed.

Lemma Game_init_keeps_wms g w o :
  StoreOk g → wms g !! w = Some o → wms (Game_init g) !! w = wms g !! w.
Proof.
  intros Hs Ho. destruct (st_wms g Hs _ _ Ho) as (Hlt & _).
  change (wms (Game_init g))
    with (<[Pos.succ (Pos.succ (Pos.succ (Pos.succ (next_id g)))) :=
             mkWatermelon 1 45 WAITING false (Pos.succ (Pos.succ (Pos.succ (Pos.succ (next_id g)))))
               (Pos.succ (Pos.succ (Pos.succ (Pos.succ (next_id g)))))]> (wms g)).
  rewrite lookup_insert_ne; [done|]. lia.
Qed.

(** X9. The R key does nothing while the game runs.  Once the game is over
    it starts afresh: the score is 1 again, the spawn gate is open, nothing
    is pending, the only live piece is a new Waiting piece of level 1 at
    (300, 50), and the space holds four new static walls and nothing else;
    the objects of the game that ended stay as they were and none of them is
    live or registered any more. *)
Theorem restart_starts_afresh (g : Game) :
  reachable g →
  (game_over g = false → handle_event (KEYDOWN K_r) g = Done g)
  ∧ (game_over g = true →
     ∃ g', handle_event (KEYDOWN K_r) g = Done g'
       ∧ score g' = 1 ∧ game_over g' = false ∧ can_spawn g' = true
       ∧ merge_pairs g' = [] ∧ watermelons g' = [waiting_wm g']
       ∧ wms g !! waiting_wm g' = None
       ∧ wm_of g' (waiting_wm g')
         = mkWatermelon 1 45 WAITING false (waiting_wm g') (waiting_wm g')
       ∧ pos_of g' (waiting_wm g') = vec_of_ints 300 50
       ∧ length (space_bodies g') = 4%nat
       ∧ (∀ b, b ∈ space_bodies g' →
            bodies g !! b = None ∧ body_of g' b = mkBody STATIC 0 (vec_of_ints 0 0) None)
       ∧ (∀ w o, wms g !! w = Some o → wms g' !! w = Some o)).
Proof.
  intros Hr. pose proof (reachable_Inv g Hr) as HI. pose proof (inv_store g HI) as Hs.
  split; intros Hg; cbn [handle_event]; rewrite Hg; [done|].
  rewrite bool_decide_true by done. cbn [andb]. eexists; split; [done|].
  destruct (Game_init_waiting g) as [Ew Ep].
  do 4 (split; [reflexivity|]). split; [reflexivity|].
  assert (Hfresh : wms g !! waiting_wm (Game_init g) = None).
  { destruct (wms g !! waiting_wm (Game_init g)) eqn:E; [|done].
    destruct (st_wms g Hs _ _ E) as (Hlt & _).
    change (waiting_wm (Game_init g))
      with (Pos.succ (Pos.succ (Pos.succ (Pos.succ (next_id g))))) in Hlt. lia. }
  split; [done|]. split; [done|]. split; [done|]. split; [reflexivity|]. split.
  - intros b Hb. destruct (Game_init_space g b Hb) as [Hle Hbo]. split; [|done].
    destruct (bodies g !! b) eqn:E; [|done].
    assert (b < next_id g)%positive by (apply (st_bodies g Hs); eauto). lia.
  - intros w o Ho. rewrite (Game_init_keeps_wms g w o Hs Ho). done.
Qed.

Lemma restart_starts_afresh_witness :
  ∃ g', handle_event (KEYDOWN K_r) blocked = Done g' ∧ score g' = 1
        ∧ watermelons g' = [waiting_wm g'].
Proof.
  destruct (proj2 (restart_starts_afresh blocked blocked_reachable) eq_refl)
    as (g' & Hrun & Hs & _ & _ & _ & Hl & _).
  exists g'. split; [exact Hrun|]. split; [exact Hs|exact Hl].
Defined.

(** ** Pending pairs *)

(** X10. [_process_merges] skips a pair that names a piece which is not
    live, and does not drop it from the pending pairs: when every pending
    pair is such a pair it returns with nothing changed. *)
Theorem _process_merges_skips_stale (g : Game) :
  (∀ p, p ∈ merge_pairs g → p.1 ∉ watermelons g ∨ p.2 ∉ watermelons g) →
  _process_merges g = Done g.
Proof.
  unfold _process_merges. generalize (merge_pairs g) as l.
  induction l as [|p l IH]; intros Hl; cbn [for_each]; [done|].
  assert (E : process_pair p g = Done g).
  { unfold process_pair. destruct (Hl p) as [H|H]; [left| |].
    - by rewrite (bool_decide_false _ H).
    - by rewrite (bool_decide_false _ H), andb_false_r. }
  rewrite E. cbn [mbind outcome_bind]. apply IH. intros q Hq. apply Hl. by right.
Qed.

Lemma _process_merges_skips_stale_witness : _process_merges stale = Done stale.
Proof.
  apply _process_merges_skips_stale. intros p Hp.
  apply list_elem_of_singleton in Hp as ->. right.
  change (9%positive ∉ [5%positive]). apply not_elem_of_cons. split; [done|apply not_elem_of_nil].
Defined.

(** ** Levels, states and the score along a run *)

Lemma Tally_sub g g' :
  wms g' = wms g → score g' = score g → (∀ w, w ∈ watermelons g' → w ∈ watermelons g) →
  Tally g → Tally g'.
Proof.
  intros Ew Es El [H1 H2 H3]. constructor.
  - intros w o. rewrite Ew. apply H1.
  - by rewrite Es.
  - intros w Hw. rewrite Es. unfold wm_of. rewrite Ew. by apply H3, El.
Qed.

Lemma Tally_same g g' :
  wms g' = wms g → score g' = score g → watermelons g' = watermelons g →
  Tally g → Tally g'.
Proof. intros Ew Es El. apply Tally_sub; [done..|]. by rewrite El. Qed.

Lemma Tally_init pos lvl st g :
  StoreOk g → (∀ w, w ∈ watermelons g → w ≠ next_id g) →
  1 ≤ lvl → st ≠ STOPPED → (st = WAITING → lvl = 1) →
  Tally g → Tally (Watermelon_init pos lvl st g).2.
Proof.
  intros Hs Hal Hl Hst Hw [H1 H2 H3]. constructor.
  - intros w o. destruct (decide (w = next_id g)) as [->|Hne].
    + rewrite Watermelon_init_new_wm. intros [= <-].
      split; [simpl; unfold MAX_LEVEL; lia|]. split; [by destruct st; auto|].
      simpl. intros E. rewrite (Hw E). done.
    + rewrite Watermelon_init_wms by done. apply H1.
  - exact H2.
  - intros w Hin. rewrite Watermelon_init_wm_of by (by apply Hal). by apply H3.
Qed.

Lemma Tally_live_level g w : Inv g → Tally g → w ∈ watermelons g → 1 ≤ level (wm_of g w) ≤ MAX_LEVEL.
Proof.
  intros HI HT Hw. destruct (inv_live g HI w Hw) as (o & Ho & _).
  rewrite (wm_of_lookup _ _ _ Ho).
  destruct (ta_pieces g HT w o Ho) as (? & _).
  destruct (st_wms g (inv_store g HI) w o Ho) as (_ & ? & _). lia.
Qed.

Lemma Tally_after_merge p g :
  Inv g → p ∈ merge_pairs g → Tally g → Tally (after_merge p g).
Proof.
  intros HI Hp HT.
  destruct (inv_pairs g HI p Hp) as (Hl1 & _).
  destruct (Tally_live_level g p.1 HI HT Hl1) as [Hlo Hhi].
  pose proof (destroyed_Inv p g HI Hp) as HId.
  assert (HTd : Tally (destroyed p g)).
  { apply (Tally_sub g); [reflexivity..| |done].
    intros w Hw. cbn in Hw. apply list_elem_of_filter in Hw as [_ Hw].
    by apply list_elem_of_filter in Hw as [_ Hw]. }
  unfold after_merge.
  set (new_pos := mkVec _ _). set (new_level := level (wm_of g p.1) + 1) in *.
  pose proof (Tally_init new_pos new_level MOVING (destroyed p g) (inv_store _ HId)
                (λ w Hw, live_allocated _ w HId Hw)) as HTi.
  destruct HTi as [H1 H2 H3]; [lia|done|done|done|].
  pose proof (Watermelon_init_new_wm new_pos new_level MOVING (destroyed p g)) as Hnew.
  revert H1 H2 H3 Hnew.
  change (next_id (destroyed p g)) with (next_id g).
  assert (Es : score (Watermelon_init new_pos new_level MOVING (destroyed p g)).2 = score g)
    by reflexivity.
  revert Es.
  generalize (Watermelon_init new_pos new_level MOVING (destroyed p g)).2 as gi.
  intros gi Es H1 H2 H3 Hnew. rewrite Es in H2, H3.
  constructor.
  - exact H1.
  - cbn [score set_score]. unfold MAX_LEVEL in *. lia.
  - intros w Hw. cbn [score set_score].
    change (level (wm_of gi w) ≤ Z.max (score g) new_level).
    change (w ∈ watermelons gi ++ [next_id g]) in Hw.
    apply elem_of_app in Hw as [Hw|Hw].
    + specialize (H3 w Hw). lia.
    + apply list_elem_of_singleton in Hw as ->. rewrite (wm_of_lookup _ _ _ Hnew).
      cbn [level]. lia.
Qed.

Lemma Tally_after_release g :
  Inv g → state (wm_of g (waiting_wm g)) = WAITING → Tally g → Tally (after_release g).
Proof.
  intros HI Hst [H1 H2 H3]. destruct (inv_waiting g HI) as (o & Hw).
  rewrite (wm_of_lookup _ _ _ Hw) in Hst.
  destruct (convert_frame g o Hw Hst) as (_ & _ & _ & El & _ & _ & _ & _ & Es & _).
  pose proof (convert_wms g o Hw Hst) as Hwms.
  pose proof (convert_wm_of g o Hw Hst) as Hwm.
  destruct (H1 _ _ Hw) as (Hlv & _).
  constructor.
  - intros w' o'. change (wms (after_release g)) with (wms (convert_to_dynamic (waiting_wm g) g)).
    rewrite Hwms. destruct (decide (waiting_wm g = w')) as [<-|]; [|apply H1].
    intros [= <-]. split; [done|]. split; [by right|done].
  - change (score (after_release g)) with (score (convert_to_dynamic (waiting_wm g) g)).
    by rewrite Es.
  - intros w'.
    change (w' ∈ watermelons (convert_to_dynamic (waiting_wm g) g) →
            level (wm_of (convert_to_dynamic (waiting_wm g) g) w')
            ≤ score (convert_to_dynamic (waiting_wm g) g)).
    rewrite El, Es, Hwm. intros Hin. specialize (H3 w' Hin).
    destruct (decide (waiting_wm g = w')) as [<-|]; [|done].
    by rewrite (wm_of_lookup _ _ _ Hw) in H3.
Qed.

Lemma Tally_first_piece g1 :
  StoreOk g1 → pieces_ok g1 → watermelons g1 = [] → Tally (first_piece g1).
Proof.
  intros Hs Hp Hl.
  pose proof (Watermelon_init_new_wm (vec_of_ints (WIDTH `div` 2) 50) 1 WAITING g1) as Hnew.
  pose proof (Watermelon_init_wms (vec_of_ints (WIDTH `div` 2) 50) 1 WAITING g1) as Hold.
  unfold first_piece, _create_waiting_wm.
  rewrite (Watermelon_init_pair _ 1 WAITING g1).
  assert (El : watermelons (Watermelon_init (vec_of_ints (WIDTH `div` 2) 50) 1 WAITING g1).2 = [])
    by exact Hl.
  revert Hnew Hold El.
  generalize ((Watermelon_init (vec_of_ints (WIDTH `div` 2) 50) 1 WAITING g1).2) as g2.
  intros g2 Hnew Hold El. constructor.
  - intros w o. change (wms g2 !! w = Some o → piece_ok o).
    destruct (decide (w = next_id g1)) as [->|Hne].
    + rewrite Hnew. intros [= <-]. split; [done|]. split; [by left|done].
    + rewrite Hold by done. apply Hp.
  - cbn. unfold MAX_LEVEL. lia.
  - intros w. change (w ∈ watermelons g2 ++ [next_id g1] → level (wm_of g2 w) ≤ 1).
    rewrite El. intros Hw. apply list_elem_of_singleton in Hw as ->.
    by rewrite (wm_of_lookup _ _ _ Hnew).
Qed.

Lemma Tally_Game_init g : StoreOk g → pieces_ok g → Tally (Game_init g).
Proof.
  intros Hs Hp. rewrite Game_init_first_piece.
  generalize (WallsOnly_Physics_init g Hs). intros [H1 _ _ _ _ _].
  assert (E : wms (set_watermelons [] (Physics_init g)) = wms g) by reflexivity.
  assert (El : watermelons (set_watermelons [] (Physics_init g)) = []) by reflexivity.
  assert (Hs1 : StoreOk (set_watermelons [] (Physics_init g))).
  { apply (StoreOk_same (Physics_init g)); [reflexivity..|exact H1]. }
  revert E El Hs1. generalize (set_watermelons [] (Physics_init g)) as g1. intros g1 E El Hs1.
  apply Tally_first_piece; [done| |done]. intros w o. rewrite E. apply Hp.
Qed.

Lemma Tally_new_game : Tally new_game.
Proof.
  apply Tally_Game_init; [apply StoreOk_empty|]. intros w o. simpl.
  by rewrite lookup_empty.
Qed.

Lemma _release_wm_Tally g g' : Inv g → Tally g → _release_wm g = Done g' → Tally g'.
Proof.
  intros HI HT. rewrite (_release_wm_Done g HI). intros [= <-].
  destruct (negb (can_spawn g) || _) eqn:Hguard; [done|].
  destruct (release_blocked g); [by apply (Tally_same g)|].
  apply orb_false_iff in Hguard as [_ Hst]. apply negb_false_iff, bool_decide_eq_true in Hst.
  by apply Tally_after_release.
Qed.

Lemma handle_event_Tally ev g g' : Inv g → Tally g → handle_event ev g = Done g' → Tally g'.
Proof.
  intros HI HT. destruct ev as [|k|]; simpl; [done| |by intros [= <-]].
  destruct (game_over g && bool_decide (k = K_r)).
  - intros [= <-]. apply Tally_Game_init; [apply HI|apply HT].
  - destruct (negb (game_over g)); [|by intros [= <-]].
    destruct (bool_decide (k ∈ [K_DOWN; K_SPACE])); [by apply _release_wm_Tally|by intros [= <-]].
Qed.

Lemma handle_events_Tally evs g g' :
  Inv g → Tally g → for_each handle_event evs g = Done g' → Tally g'.
Proof.
  revert g. induction evs as [|ev evs IH]; intros g HI HT; cbn [for_each].
  - by intros [= <-].
  - destruct (handle_event_Inv ev g HI) as [E|(g1 & E & HI1)]; rewrite E; [done|].
    cbn [mbind outcome_bind]. apply IH; [done|]. by apply (handle_event_Tally ev g).
Qed.

Lemma tick_cooldown_Tally g : Inv g → Tally g → Tally (tick_cooldown g).
Proof.
  intros HI HT. unfold tick_cooldown.
  set (g1 := set_cooldown _ g).
  destruct (Qle_bool (cooldown g1) 0); [|by apply (Tally_same g)].
  set (g2 := set_can_spawn true g1).
  rewrite (Watermelon_init_pair _ 1 WAITING g2).
  assert (HT2 : Tally g2) by (by apply (Tally_same g)).
  assert (Hs2 : StoreOk g2) by (apply (StoreOk_same g); [reflexivity..|apply HI]).
  pose proof (Tally_init (vec_of_ints (WIDTH `div` 2) 50) 1 WAITING g2 Hs2
                (λ w Hw, live_allocated g w HI Hw)) as HTi.
  destruct HTi as [H1 H2 H3]; [lia|done|done|done|].
  pose proof (Watermelon_init_new_wm (vec_of_ints (WIDTH `div` 2) 50) 1 WAITING g2) as Hnew.
  revert H1 H2 H3 Hnew. change (next_id g2) with (next_id g).
  generalize (Watermelon_init (vec_of_ints (WIDTH `div` 2) 50) 1 WAITING g2).2 as g3.
  intros g3 H1 H2 H3 Hnew.
  destruct (existsb _ _); constructor; try done.
  intros w. change (w ∈ watermelons g3 ++ [next_id g] → level (wm_of g3 w) ≤ score g3).
  intros Hw. apply elem_of_app in Hw as [Hw|Hw]; [by apply H3|].
  apply list_elem_of_singleton in Hw as ->. rewrite (wm_of_lookup _ _ _ Hnew).
  cbn [level]. unfold MAX_LEVEL. lia.
Qed.

Lemma process_merges_Tally l g g' :
  Inv g → Tally g → merge_pairs g = l → for_each process_pair l g = Done g' →
  Tally g' ∧ score g ≤ score g'.
Proof.
  revert g. induction l as [|p l IH]; intros g HI HT E; cbn [for_each].
  - intros [= <-]. split; [done|lia].
  - assert (Hp : p ∈ merge_pairs g) by (rewrite E; left).
    assert (Hnd : NoDup (p :: l)) by (rewrite <- E; apply flat_pairs_nodup, HI).
    rewrite (process_pair_Done p g HI Hp). cbn [mbind outcome_bind]. intros Hrest.
    destruct (IH (after_merge p g)) as [HT' Hle];
      [by apply after_merge_Inv|by apply Tally_after_merge|by apply after_merge_pairs|done|].
    split; [done|].
    destruct (after_merge_frame p g) as (_ & _ & _ & _ & Es). rewrite Es in Hle. lia.
Qed.

Lemma tick_cooldown_score g : score (tick_cooldown g) = score g.
Proof.
  unfold tick_cooldown. destruct (Qle_bool _ _); [|done].
  rewrite (Watermelon_init_pair _ 1 WAITING). by destruct (existsb _ _).
Qed.

Lemma _update_Tally g g' :
  Inv g → Tally g → _update g = Done g' → Tally g' ∧ score g ≤ score g'.
Proof.
  intros HI HT. unfold _update.
  set (g1 := if negb (can_spawn g) then tick_cooldown g else g).
  assert (HI1 : Inv g1).
  { unfold g1. destruct (can_spawn g) eqn:Hc; [done|]. by apply tick_cooldown_Inv. }
  assert (HT1 : Tally g1).
  { unfold g1. destruct (can_spawn g); [done|by apply tick_cooldown_Tally]. }
  assert (Es1 : score g1 = score g).
  { unfold g1. destruct (can_spawn g); [done|apply tick_cooldown_score]. }
  destruct (update_all_Inv g1 HI1) as (HI2 & _ & _ & El & Ew & _ & _ & Es).
  unfold _process_merges. intros Hrun.
  destruct (process_merges_Tally (merge_pairs (update_all g1)) (update_all g1) g') as [HT' Hle];
    [done|by apply (Tally_same g1)|done|done|].
  split; [done|]. rewrite <- Es1, <- Es. done.
Qed.

Lemma report_contact_Tally c g :
  Tally g → Tally (report_contact c g) ∧ score (report_contact c g) = score g.
Proof.
  intros HT. unfold report_contact. destruct (_ && _); [|done].
  unfold collision_handler.
  destruct (user_data _) as [w1|]; [|done].
  destruct (user_data _) as [w2|]; [|done].
  destruct (_ && _) eqn:Hc; [|done]. split; [|done].
  apply andb_true_iff in Hc as [Hc Hs2]. apply andb_true_iff in Hc as [_ Hs1].
  apply negb_true_iff, bool_decide_eq_false in Hs1, Hs2.
  destruct HT as [H1 H2 H3]. constructor; [|exact H2|].
  - intros w o.
    change (wms (flag w2 (flag w1 g)) !! w = Some o → piece_ok o).
    rewrite !flag_wms. destruct (wms g !! w) as [o0|] eqn:Ho; [|done].
    pose proof (H1 w o0 Ho) as (Hlv & Hst & Hw).
    cbn [fmap option_fmap option_map]. intros [= <-].
    destruct (decide (w2 = w)) as [->|], (decide (w1 = w)) as [->|];
      rewrite ?(wm_of_lookup _ _ _ Ho) in *; cbn [id]; split; try done; split; try done.
  - intros w Hw. specialize (H3 w Hw). cbn [score set_merge_pairs set_wms].
    change (level (wm_of (flag w2 (flag w1 g)) w) ≤ score g).
    destruct (flag_wm_of w2 (flag w1 g) w) as (_ & _ & _ & -> & _).
    by destruct (flag_wm_of w1 g w) as (_ & _ & _ & -> & _).
Qed.

Lemma space_step_Tally ph g :
  Tally g → Tally (space_step ph g) ∧ score (space_step ph g) = score g.
Proof.
  intros HT. unfold space_step.
  assert (H1 : Tally (foldl (λ g m, apply_move m g) g (ph_moves ph))
               ∧ score (foldl (λ g m, apply_move m g) g (ph_moves ph)) = score g).
  { generalize (ph_moves ph) as l. intros l. revert g HT.
    induction l as [|m l IH]; intros g HT; [done|]. cbn [foldl].
    destruct (apply_move_frame m g) as (Ew & El & _ & Es & _).
    destruct (IH (apply_move m g)) as [? E]; [by apply (Tally_same g)|].
    split; [done|]. by rewrite E. }
  destruct H1 as [HT1 <-]. revert HT1.
  generalize (foldl (λ g m, apply_move m g) g (ph_moves ph)) as h.
  generalize (ph_contacts ph) as l. induction l as [|c l IH]; intros h HT1; [done|]. cbn [foldl].
  destruct (report_contact_Tally c h HT1) as [HT2 Es].
  destruct (IH _ HT2) as [? E]. split; [done|]. by rewrite E.
Qed.

Lemma _release_wm_score g g' : Inv g → _release_wm g = Done g' → score g' = score g.
Proof.
  intros HI. rewrite (_release_wm_Done g HI). intros [= <-].
  destruct (negb (can_spawn g) || _) eqn:Hguard; [done|].
  destruct (release_blocked g); [done|].
  apply orb_false_iff in Hguard as [_ Hst]. apply negb_false_iff, bool_decide_eq_true in Hst.
  destruct (inv_waiting g HI) as (o & Hw). rewrite (wm_of_lookup _ _ _ Hw) in Hst.
  by destruct (convert_frame g o Hw Hst) as (_ & _ & _ & _ & _ & _ & _ & _ & Es & _).
Qed.

Lemma handle_events_score evs g g' :
  Inv g → KEYDOWN K_r ∉ evs → for_each handle_event evs g = Done g' → score g' = score g.
Proof.
  revert g. induction evs as [|ev evs IH]; intros g HI Hr; cbn [for_each].
  - by intros [= <-].
  - apply not_elem_of_cons in Hr as [Hne Hr].
    destruct (handle_event_Inv ev g HI) as [E|(g1 & E & HI1)]; rewrite E; [done|].
    cbn [mbind outcome_bind]. intros Hrest. rewrite (IH g1 HI1 Hr Hrest).
    destruct ev as [|k|]; [done| |by injection E as <-].
    cbn [handle_event] in E. rewrite bool_decide_false, andb_false_r in E by congruence.
    destruct (negb (game_over g)); [|by injection E as <-].
    destruct (bool_decide _); [by apply _release_wm_score|by injection E as <-].
Qed.

Lemma frame_Tally inp ph g g' :
  Inv g → Tally g → frame inp ph g = Done g' →
  Tally g' ∧ (KEYDOWN K_r ∉ events inp → score g ≤ score g').
Proof.
  intros HI HT. unfold frame, _handle_input.
  destruct (handle_events_Inv (events inp) g HI) as [E|(g0 & E & HI0)]; rewrite E; [done|].
  pose proof (handle_events_Tally _ _ _ HI HT E) as HT0.
  cbn [mbind outcome_bind].
  pose proof (move_waiting_Inv inp g0 HI0) as HI1.
  destruct (move_waiting_frame inp g0) as (Ew & El & _ & _ & _ & Es).
  assert (HT1 : Tally (move_waiting inp g0)) by (by apply (Tally_same g0)).
  assert (Hs : KEYDOWN K_r ∉ events inp → score (move_waiting inp g0) = score g).
  { intros Hr. rewrite Es. by apply (handle_events_score (events inp)). }
  destruct (game_over (move_waiting inp g0)).
  { intros [= <-]. split; [done|]. intros Hr. rewrite (Hs Hr). lia. }
  destruct (_update_Inv _ HI1) as (g2 & E2 & HI2 & _ & Hfin). rewrite E2.
  destruct (_update_Tally _ _ HI1 HT1 E2) as [HT2 Hle].
  cbn [mbind outcome_bind]. unfold Physics_step.
  rewrite (evict_finite _ g2) by done. cbn [mbind outcome_bind]. intros [= <-].
  destruct (space_step_Tally ph g2 HT2) as [HT3 Es3].
  split; [done|]. intros Hr. rewrite Es3, <- (Hs Hr). done.
Qed.

Lemma reachable_Tally g : reachable g → Tally g.
Proof.
  induction 1 as [|g inp ph g' Hr IH Hf]; [apply Tally_new_game|].
  by destruct (frame_Tally inp ph g g' (reachable_Inv g Hr) IH Hf).
Qed.

(** X11. In a run the score stays between 1 and [MAX_LEVEL + 1], it is at
    least the level of every live piece, and a frame in which R is not
    pressed never lowers it. *)
Theorem score_bounds (g : Game) :
  reachable g →
  1 ≤ score g ≤ MAX_LEVEL + 1
  ∧ (∀ w, w ∈ watermelons g → level (wm_of g w) ≤ score g)
  ∧ (∀ inp ph g', KEYDOWN K_r ∉ events inp → frame inp ph g = Done g' → score g ≤ score g').
Proof.
  intros Hr. pose proof (reachable_Tally g Hr) as HT.
  split; [apply HT|]. split; [apply HT|].
  intros inp ph g' Hk Hf.
  by destruct (frame_Tally inp ph g g' (reachable_Inv g Hr) HT Hf) as [_ Hle]; apply Hle.
Qed.

Lemma score_bounds_witness : 1 ≤ score fused ≤ MAX_LEVEL + 1.
Proof.
  apply score_bounds.
  exact (reachable_run _ _ _ two_touching_reachable fused_reached).
Defined.

(** X12. Every piece object of a run, live or not, has a level between 1 and
    [MAX_LEVEL] and a radius between 45 and 117, and is Waiting or Moving:
    the state STOPPED is never used.  A Waiting piece has level 1 and radius
    45 and does not carry the merged flag. *)
Theorem pieces_stay_in_range (g : Game) (w : positive) (o : Watermelon) :
  reachable g → wms g !! w = Some o →
  1 ≤ level o ≤ MAX_LEVEL ∧ 45 ≤ radius o ≤ 117 ∧ state o ≠ STOPPED
  ∧ (state o = WAITING → level o = 1 ∧ radius o = 45 ∧ merged o = false).
Proof.
  intros Hr Ho. pose proof (reachable_Inv g Hr) as HI.
  destruct (ta_pieces g (reachable_Tally g Hr) w o Ho) as (Hlo & Hst & Hw).
  destruct (st_wms g (inv_store g HI) w o Ho) as (_ & Hhi & Hrad & _).
  rewrite Hrad. unfold _calculate_radius, MAX_LEVEL in *.
  split; [lia|]. split; [lia|]. split; [by destruct Hst as [-> | ->]|].
  intros E. destruct (Hw E) as [-> ?]. done.
Qed.

Lemma pieces_stay_in_range_witness :
  1 ≤ 2 ≤ MAX_LEVEL ∧ 45 ≤ 53 ≤ 117 ∧ MOVING ≠ STOPPED
  ∧ (MOVING = WAITING → 2 = 1 ∧ 53 = 45 ∧ false = false).
Proof.
  exact (pieces_stay_in_range fused 9 (mkWatermelon 2 53 MOVING false 9 9)
           (reachable_run _ _ _ two_touching_reachable fused_reached) eq_refl).
Defined.

(** X13. In a run [draw] finds the level of every piece in the colour
    table: the fallback colour (200, 200, 200) is never used. *)
Theorem draw_color_in_table (g : Game) (w : positive) :
  reachable g → w ∈ watermelons g →
  COLORS !! level (wm_of g w) = Some (draw_color g w) ∧ draw_color g w ≠ (200, 200, 200).
Proof.
  intros Hr Hw. pose proof (reachable_Inv g Hr) as HI.
  destruct (Tally_live_level g w HI (reachable_Tally g Hr) Hw) as [Hlo Hhi].
  unfold draw_color. unfold MAX_LEVEL in Hhi.
  assert (Hl : level (wm_of g w) ∈ [1; 2; 3; 4; 5; 6; 7; 8; 9; 10]).
  { assert (∃ n : nat, (n < 10)%nat ∧ level (wm_of g w) = 1 + Z.of_nat n) as (n & Hn & ->)
      by (exists (Z.to_nat (level (wm_of g w) - 1)); lia).
    do 10 (destruct n as [|n]; [set_solver|]). lia. }
  repeat (apply elem_of_cons in Hl as [->|Hl]; [by split|]). by apply elem_of_nil in Hl.
Qed.

Lemma draw_color_in_table_witness :
  COLORS !! level (wm_of fused 9) = Some (draw_color fused 9)
  ∧ draw_color fused 9 ≠ (200, 200, 200).
Proof.
  apply draw_color_in_table; [|left].
  exact (reachable_run _ _ _ two_touching_reachable fused_reached).
Defined.

(** ** The guard of [Physics.step] *)

Lemma filter_ext_in {A} (P Q : A → Prop) `{∀ x, Decision (P x)} `{∀ x, Decision (Q x)}
    (l : list A) :
  (∀ x, x ∈ l → P x ↔ Q x) → filter P l = filter Q l.
Proof.
  induction l as [|y l IH]; intros Hall; [done|].
  rewrite !filter_cons. assert (P y ↔ Q y) by (apply Hall; left).
  rewrite IH by (intros x Hx; apply Hall; by right).
  destruct (decide (P y)), (decide (Q y)); tauto || done.
Qed.

Lemma evict_loop l g h g' :
  bodies h = bodies g → shapes h = shapes g →
  for_each evict l h = Done g' →
  space_bodies g'
  = filter (λ b, b ∈ l → vec_finite (position (body_of g b)) = true) (space_bodies h)
  ∧ (∀ s, s ∈ space_shapes g' ↔
          s ∈ space_shapes h ∧ ∀ b, b ∈ l → s ∈ body_shapes g b → fin_at g b)
  ∧ wms g' = wms h ∧ bodies g' = bodies h ∧ shapes g' = shapes h
  ∧ watermelons g' = watermelons h ∧ merge_pairs g' = merge_pairs h.
Proof.
  revert h. induction l as [|a l IH]; intros h Eb Es; cbn [for_each].
  - intros [= <-]. split.
    + symmetry. apply filter_all. intros x _ Hx. by apply elem_of_nil in Hx.
    + split; [|done]. intros s. split; [|tauto]. intros Hs. split; [done|].
      intros b Hb. by apply elem_of_nil in Hb.
  - assert (E1 : body_of h a = body_of g a) by (unfold body_of; by rewrite Eb).
    assert (E2 : body_shapes h a = body_shapes g a) by (unfold body_shapes; by rewrite Es).
    assert (Ee : evict a h
                 = if vec_finite (position (body_of g a)) then Done h
                   else if bool_decide (a ∈ space_bodies h)
                           && forallb (λ s, bool_decide (s ∈ space_shapes h)) (body_shapes g a)
                        then Done (set_space (filter (λ x, x ≠ a) (space_bodies h))
                                     (filter (λ x, x ∉ body_shapes g a) (space_shapes h)) h)
                        else Raised).
    { unfold evict. rewrite E1, E2, <- negb_andb.
      fold (vec_finite (position (body_of g a))).
      by destruct (vec_finite (position (body_of g a))). }
    rewrite Ee. clear Ee.
    destruct (vec_finite (position (body_of g a))) eqn:Hfin.
    + cbn [mbind outcome_bind]. intros Hrest.
      destruct (IH h Eb Es Hrest) as (Hb & Hs & Hrest'). split; [|split; [|done]].
      * rewrite Hb. apply list_filter_iff. intros x. split; intros Hx Hin.
        -- apply elem_of_cons in Hin as [->|Hin]; auto.
        -- apply Hx. by right.
      * intros s. rewrite Hs. split; intros [H1 H2]; (split; [done|]); intros b Hin.
        -- apply elem_of_cons in Hin as [->|Hin]; auto.
        -- apply H2. by right.
    + destruct (bool_decide (a ∈ space_bodies h) && _); [|done].
      cbn [mbind outcome_bind]. intros Hrest.
      apply IH in Hrest as (Hb & Hs & Hrest'); [|done..].
      split; [|split; [|done]].
      * rewrite Hb. cbn [space_bodies set_space]. rewrite list_filter_filter.
        apply list_filter_iff. intros x. split.
        -- intros [Hx Hne] Hin. apply elem_of_cons in Hin as [->|Hin]; [done|auto].
        -- intros Hx. split; [intros Hin; apply Hx; by right|].
           intros ->. rewrite Hx in Hfin by left. done.
      * intros s. rewrite Hs. cbn [space_shapes set_space]. rewrite list_elem_of_filter.
        unfold fin_at. split.
        -- intros [[Hn Hin] H2]. split; [done|]. intros b Hin'.
           apply elem_of_cons in Hin' as [->|Hin']; [done|auto].
        -- intros [Hin H2]. split; [split; [|done]|].
           ++ intros Hsa. specialize (H2 a (list_elem_of_here _ _) Hsa). congruence.
           ++ intros b Hin'. apply H2. by right.
Qed.

(** X14. When the guard of [Physics.step] returns, it has unregistered
    exactly the registered bodies with a non-finite coordinate, each with
    the shapes attached to it.  It changes nothing else: such a piece stays
    in [Game.watermelons] and in the pending pairs, without a body in the
    space. *)
Theorem step_guard_sweeps (g g' : Game) :
  for_each evict (space_bodies g) g = Done g' →
  space_bodies g'
  = filter (λ b, vec_finite (position (body_of g b)) = true) (space_bodies g)
  ∧ (∀ s, s ∈ space_shapes g' ↔
          s ∈ space_shapes g ∧ ∀ b, b ∈ space_bodies g → s ∈ body_shapes g b → fin_at g b)
  ∧ wms g' = wms g ∧ bodies g' = bodies g ∧ shapes g' = shapes g
  ∧ watermelons g' = watermelons g ∧ merge_pairs g' = merge_pairs g.
Proof.
  intros Hrun. destruct (evict_loop _ g g g' eq_refl eq_refl Hrun) as (Hb & Hrest).
  split; [|done]. rewrite Hb. apply filter_ext_in. intros x Hx. tauto.
Qed.

Lemma step_guard_sweeps_witness :
  space_bodies swept
  = filter (λ b, vec_finite (position (body_of blown_up b)) = true) (space_bodies blown_up)
  ∧ watermelons swept = watermelons blown_up.
Proof.
  destruct (step_guard_sweeps blown_up swept) as (Hb & _ & _ & _ & _ & Hl & _).
  - vm_compute. reflexivity.
  - split; [exact Hb|exact Hl].
Defined.

Example swept_space :
  space_bodies blown_up = [1; 2; 3; 4; 6; 8]%positive
  ∧ space_bodies swept = [1; 2; 3; 4; 8]%positive
  ∧ space_shapes swept = [1; 2; 3; 4; 7]%positive
  ∧ watermelons swept = [5; 7]%positive.
Proof. repeat split; reflexivity. Qed.

(** ** What a merge conserves *)

Lemma sum_filter_ne (f : positive → Z) (x : positive) (l : list positive) :
  NoDup l → x ∈ l →
  foldr Z.add 0 (f <$> filter (λ y, y ≠ x) l) = foldr Z.add 0 (f <$> l) - f x
  ∧ (length (filter (λ y, y ≠ x) l) + 1 = length l)%nat.
Proof.
  induction l as [|y l IH]; intros Hnd Hx; [by apply elem_of_nil in Hx|].
  apply NoDup_cons in Hnd as [Hy Hnd]. destruct (decide (y = x)) as [->|Hne].
  - rewrite filter_cons_False by (intros H; by apply H).
    rewrite filter_all by (intros z Hz ->; done). cbn. split; lia.
  - rewrite filter_cons_True by done.
    apply elem_of_cons in Hx as [->|Hx]; [done|].
    destruct (IH Hnd Hx) as [E1 E2]. cbn. rewrite E1, <- E2. split; lia.
Qed.

Lemma sum_ext (f h : positive → Z) (l : list positive) :
  (∀ x, x ∈ l → f x = h x) → foldr Z.add 0 (f <$> l) = foldr Z.add 0 (h <$> l).
Proof.
  induction l as [|y l IH]; intros Hall; [done|]. cbn.
  rewrite (Hall y) by left. rewrite IH; [done|]. intros x Hx. apply Hall. by right.
Qed.

(** X15. A merge takes two live pieces and leaves one.  Counting a piece of
    level [L] for [2^(L-1)] pieces of level 1, a merge below [MAX_LEVEL]
    keeps the weight of the live pieces; a merge of two pieces of
    [MAX_LEVEL] leaves a single piece of that level, and the weight of one
    of them is lost. *)
Theorem merge_keeps_weight (g : Game) (p : positive * positive) :
  Inv g → p ∈ merge_pairs g → 1 ≤ level (wm_of g p.1) →
  ∃ g', process_pair p g = Done g'
    ∧ (length (watermelons g') + 1 = length (watermelons g))%nat
    ∧ weight g' = if decide (level (wm_of g p.1) < MAX_LEVEL) then weight g
                  else weight g - 2 ^ (MAX_LEVEL - 1).
Proof.
  intros HI Hp Hlo. rewrite (process_pair_Done p g HI Hp). eexists; split; [done|].
  destruct (inv_pairs g HI p Hp) as (Hl1 & Hl2 & _ & _ & _ & _ & Hlv).
  pose proof (flat_pairs_nodup_distinct _ p (inv_pairs_nodup g HI) Hp) as Hne.
  pose proof (inv_live_nodup g HI) as Hnd.
  assert (Hhi : level (wm_of g p.1) ≤ MAX_LEVEL).
  { destruct (inv_live g HI _ Hl1) as (o & Ho & _). rewrite (wm_of_lookup _ _ _ Ho).
    by destruct (st_wms g (inv_store g HI) _ _ Ho) as (_ & ? & _). }
  set (l1 := filter (λ x, x ≠ p.1) (watermelons g)).
  set (l2 := filter (λ x, x ≠ p.2) l1).
  assert (Hin2 : p.2 ∈ l1) by (apply list_elem_of_filter; split; [congruence|done]).
  assert (Hnd1 : NoDup l1) by (by apply NoDup_filter).
  pose proof (destroyed_Inv p g HI Hp) as HId.
  set (new_pos := mkVec (fhalf (fadd (vx (pos_of g p.1)) (vx (pos_of g p.2))))
                        (fhalf (fadd (vy (pos_of g p.1)) (vy (pos_of g p.2))))).
  set (new_level := level (wm_of g p.1) + 1).
  pose proof (Watermelon_init_new_wm new_pos new_level MOVING (destroyed p g)) as Hnew.
  pose proof (Watermelon_init_wm_of new_pos new_level MOVING (destroyed p g)) as Hold.
  assert (El : watermelons (after_merge p g) = l2 ++ [next_id g]) by reflexivity.
  assert (Ew : ∀ w, wm_of (after_merge p g) w
                    = wm_of (Watermelon_init new_pos new_level MOVING (destroyed p g)).2 w)
    by reflexivity.
  unfold weight. rewrite El, fmap_app, foldr_app, length_app. cbn [fmap list_fmap foldr length].
  assert (Hsum : ∀ (l : list positive) (z : Z),
            foldr Z.add z (piece_weight (after_merge p g) <$> l)
            = foldr Z.add 0 (piece_weight (after_merge p g) <$> l) + z).
  { intros l z. induction l as [|y l IH]; cbn; [lia|]. rewrite IH. lia. }
  rewrite Hsum.
  assert (Hw_old : ∀ w, w ∈ l2 → piece_weight (after_merge p g) w = piece_weight g w).
  { intros w Hw. unfold piece_weight. rewrite Ew, Hold; [done|].
    apply (live_allocated _ w HId). exact Hw. }
  rewrite (sum_ext _ _ l2 Hw_old).
  destruct (sum_filter_ne (piece_weight g) p.2 l1 Hnd1 Hin2) as [S2 L2].
  destruct (sum_filter_ne (piece_weight g) p.1 (watermelons g) Hnd Hl1) as [S1 L1].
  fold l1 in S1, L1. fold l2 in S2, L2. rewrite S2, S1. split; [lia|].
  assert (Wn : piece_weight (after_merge p g) (next_id g) = 2 ^ (Z.min new_level MAX_LEVEL - 1)).
  { unfold piece_weight. rewrite Ew.
    change (next_id g) with (next_id (destroyed p g)). by rewrite (wm_of_lookup _ _ _ Hnew). }
  rewrite Wn. unfold piece_weight. rewrite <- Hlv. unfold new_level.
  destruct (decide (level (wm_of g p.1) < MAX_LEVEL)) as [Hlt|Hge].
  - rewrite Z.min_l by lia.
    replace (level (wm_of g p.1) + 1 - 1) with (Z.succ (level (wm_of g p.1) - 1)) by lia.
    rewrite Z.pow_succ_r by lia. lia.
  - assert (level (wm_of g p.1) = MAX_LEVEL) as -> by lia.
    rewrite Z.min_r by lia. lia.
Qed.

Lemma merge_keeps_weight_witness :
  ∃ g', process_pair (5%positive, 7%positive) two_touching = Done g'
        ∧ (length (watermelons g') + 1 = 2)%nat ∧ weight g' = 2.
Proof.
  destruct (merge_keeps_weight two_touching (5%positive, 7%positive)
              (reachable_Inv _ two_touching_reachable)) as (g' & Hrun & Hlen & Hw);
    [left|vm_compute; discriminate|].
  exists g'. split; [exact Hrun|]. split; [exact Hlen|exact Hw].
Defined.

(** ** Where the pieces are *)

Lemma placed_same g g' w :
  wm_of g' w = wm_of g w → pos_of g' w = pos_of g w → placed g w → placed g' w.
Proof. unfold placed. intros -> ->. done. Qed.

Lemma pos_of_set_position_other g b p w :
  body (wm_of g w) ≠ b → pos_of (set_position b p g) w = pos_of g w.
Proof.
  intros Hne. unfold pos_of. rewrite wm_of_set_position, body_of_set_position.
  by rewrite decide_False.
Qed.

Lemma placed_Game_init g : placed (Game_init g) (waiting_wm (Game_init g)).
Proof.
  destruct (Game_init_waiting g) as [Ew Ep]. intros _. rewrite Ew, Ep.
  exists (inject_Z 300). split; [done|]. cbn [radius]. split; by rewrite <- Zle_Qle.
Qed.

Lemma _release_wm_placed g g' :
  Inv g → placed g (waiting_wm g) → _release_wm g = Done g' → placed g' (waiting_wm g').
Proof.
  intros HI HP. rewrite (_release_wm_Done g HI). intros [= <-].
  destruct (negb (can_spawn g) || _) eqn:Hguard; [done|].
  destruct (release_blocked g); [done|].
  apply orb_false_iff in Hguard as [_ Hst]. apply negb_false_iff, bool_decide_eq_true in Hst.
  destruct (inv_waiting g HI) as (o & Hw). rewrite (wm_of_lookup _ _ _ Hw) in Hst.
  destruct (convert_frame g o Hw Hst) as (_ & _ & _ & _ & _ & Ew & _).
  pose proof (convert_wm_of g o Hw Hst (waiting_wm g)) as Hwm.
  rewrite decide_True in Hwm by done.
  unfold placed.
  change (waiting_wm (after_release g)) with (waiting_wm (convert_to_dynamic (waiting_wm g) g)).
  rewrite Ew.
  change (wm_of (after_release g) (waiting_wm g))
    with (wm_of (convert_to_dynamic (waiting_wm g) g) (waiting_wm g)).
  rewrite Hwm. done.
Qed.

Lemma handle_event_placed ev g g' :
  Inv g → placed g (waiting_wm g) → handle_event ev g = Done g' → placed g' (waiting_wm g').
Proof.
  intros HI HP. destruct ev as [|k|]; simpl; [done| |by intros [= <-]].
  destruct (game_over g && bool_decide (k = K_r)).
  - intros [= <-]. apply placed_Game_init.
  - destruct (negb (game_over g)); [|by intros [= <-]].
    destruct (bool_decide (k ∈ [K_DOWN; K_SPACE])); [by apply _release_wm_placed|by intros [= <-]].
Qed.

Lemma handle_events_placed evs g g' :
  Inv g → placed g (waiting_wm g) → for_each handle_event evs g = Done g' →
  placed g' (waiting_wm g').
Proof.
  revert g. induction evs as [|ev evs IH]; intros g HI HP; cbn [for_each].
  - by intros [= <-].
  - destruct (handle_event_Inv ev g HI) as [E|(g1 & E & HI1)]; rewrite E; [done|].
    cbn [mbind outcome_bind]. apply IH; [done|]. by apply (handle_event_placed ev g).
Qed.

Lemma update_placed w g : Inv g → w ∈ watermelons g → placed (Watermelon_update w g) w.
Proof.
  intros HI Hw. destruct (inv_live g HI w Hw) as (o & Ho & _).
  destruct (st_wms g (inv_store g HI) w o Ho) as (_ & Hlv & Hr & bo & _ & Hbo & _).
  destruct (Watermelon_update_frame w g) as (Ewms & _).
  unfold placed. unfold wm_of at 1 2 3. rewrite Ewms. fold (wm_of g w).
  rewrite (wm_of_lookup _ _ _ Ho). intros Hst.
  rewrite (Watermelon_update_pos g w o bo Ho Hbo), decide_True by done. cbn zeta.
  destruct (radius_bounds o Hr Hlv) as [H1 H2].
  assert (Hfin : ∃ x, vx (if vec_finite (position bo) then position bo
                          else vec_of_ints (WIDTH `div` 2) (HEIGHT `div` 2)) = Finite x).
  { destruct (vec_finite (position bo)) eqn:Hf; [|by eexists].
    unfold vec_finite in Hf. destruct (vx (position bo)); [by eexists|done..]. }
  destruct Hfin as (x & ->).
  destruct (clamp_between (radius o) (WIDTH - radius o) x) as (q & -> & Hq1 & Hq2); [lia|].
  by exists q.
Qed.

Lemma update_other w w' g :
  Inv g → w ∈ watermelons g → w' ∈ watermelons g → w ≠ w' →
  wm_of (Watermelon_update w g) w' = wm_of g w'
  ∧ pos_of (Watermelon_update w g) w' = pos_of g w'.
Proof.
  intros HI Hw Hw' Hne.
  destruct (inv_live g HI w Hw) as (o & Ho & _).
  destruct (inv_live g HI w' Hw') as (o' & Ho' & _).
  assert (Hb : body (wm_of g w') ≠ body (wm_of g w)).
  { rewrite (wm_of_lookup _ _ _ Ho), (wm_of_lookup _ _ _ Ho'). intros E.
    apply Hne. symmetry. by apply (store_body_inj g w' w o' o (inv_store g HI)). }
  destruct (Watermelon_update_writes w g) as (p1 & p2 & _ & _ & [-> | [-> | [-> | ->]]]);
    [done| | |]; (split; [done|]);
    rewrite ?pos_of_set_position_other; done.
Qed.

Lemma update_keeps_placed w w' g :
  Inv g → w ∈ watermelons g → w' ∈ watermelons g → placed g w' →
  placed (Watermelon_update w g) w'.
Proof.
  intros HI Hw Hw' HP. destruct (decide (w = w')) as [<-|Hne]; [by apply update_placed|].
  destruct (update_other w w' g HI Hw Hw' Hne) as [E1 E2]. by apply (placed_same g).
Qed.

Lemma update_loop_keeps l g w :
  Inv g → l ⊆ watermelons g → w ∈ watermelons g → placed g w →
  placed (foldl (λ g wm, Watermelon_update wm g) g l) w.
Proof.
  revert g. induction l as [|x l IH]; intros g HI Hl Hw HP; [done|]. cbn [foldl].
  destruct (Watermelon_update_frame x g) as (_ & El & _).
  apply IH.
  - by apply Watermelon_update_Inv.
  - rewrite El. intros y Hy. apply Hl. by right.
  - by rewrite El.
  - apply update_keeps_placed; [done|apply Hl; left|done|done].
Qed.

Lemma update_loop_placed l g w :
  Inv g → l ⊆ watermelons g → w ∈ l →
  placed (foldl (λ g wm, Watermelon_update wm g) g l) w.
Proof.
  revert g. induction l as [|x l IH]; intros g HI Hl Hw; [by apply elem_of_nil in Hw|].
  cbn [foldl]. destruct (Watermelon_update_frame x g) as (_ & El & _).
  assert (Hx : x ∈ watermelons g) by (apply Hl; left).
  assert (Hl' : l ⊆ watermelons (Watermelon_update x g))
    by (rewrite El; intros y Hy; apply Hl; by right).
  destruct (decide (w = x)) as [->|Hne].
  - apply update_loop_keeps; [by apply Watermelon_update_Inv|done|by rewrite El|].
    by apply update_placed.
  - apply elem_of_cons in Hw as [?|Hw]; [done|].
    apply IH; [by apply Watermelon_update_Inv|done|done].
Qed.

Lemma update_loop_waiting l g :
  waiting_wm (foldl (λ g wm, Watermelon_update wm g) g l) = waiting_wm g.
Proof.
  revert g. induction l as [|x l IH]; intros g; [done|]. cbn [foldl]. rewrite IH.
  by destruct (Watermelon_update_writes x g) as (p1 & p2 & _ & _ & [-> | [-> | [-> | ->]]]).
Qed.

Lemma update_all_placed g : Inv g → placed (update_all g) (waiting_wm (update_all g)).
Proof.
  intros HI. destruct (update_all_Inv g HI) as (_ & _ & _ & _ & Ew & _).
  unfold update_all at 2. rewrite update_loop_waiting.
  intros Hst. revert Hst. unfold wm_of at 1. rewrite Ew. fold (wm_of g (waiting_wm g)).
  intros Hst. pose proof (inv_waiting_live g HI Hst) as Hlive.
  apply (update_loop_placed (watermelons g) g (waiting_wm g) HI); [done|done|].
  unfold wm_of. fold (update_all g). by rewrite Ew.
Qed.

Lemma after_merge_other p g w :
  Inv g → p ∈ merge_pairs g → is_Some (wms g !! w) →
  wm_of (after_merge p g) w = wm_of g w ∧ pos_of (after_merge p g) w = pos_of g w.
Proof.
  intros HI Hp [o Ho].
  destruct (st_wms g (inv_store g HI) w o Ho) as (Hlt & _ & _ & bo & _ & Hbo & _).
  assert (Hb : (body o < next_id g)%positive) by (apply (st_bodies g (inv_store g HI)); eauto).
  set (new_pos := mkVec (fhalf (fadd (vx (pos_of g p.1)) (vx (pos_of g p.2))))
                        (fhalf (fadd (vy (pos_of g p.1)) (vy (pos_of g p.2))))).
  set (new_level := level (wm_of g p.1) + 1).
  pose proof (Watermelon_init_wm_of new_pos new_level MOVING (destroyed p g) w) as E1.
  pose proof (Watermelon_init_body_of new_pos new_level MOVING (destroyed p g) (body o)) as E2.
  change (next_id (destroyed p g)) with (next_id g) in E1, E2.
  change (wm_of (destroyed p g) w) with (wm_of g w) in E1.
  change (body_of (destroyed p g) (body o)) with (body_of g (body o)) in E2.
  assert (Ew : wm_of (after_merge p g) w = wm_of g w).
  { rewrite <- E1 by lia. reflexivity. }
  split; [done|]. unfold pos_of. rewrite Ew, (wm_of_lookup _ _ _ Ho).
  rewrite <- E2 by lia. reflexivity.
Qed.

Lemma process_merges_placed l g g' :
  Inv g → merge_pairs g = l → for_each process_pair l g = Done g' →
  placed g (waiting_wm g) → placed g' (waiting_wm g').
Proof.
  revert g. induction l as [|p l IH]; intros g HI E; cbn [for_each].
  - by intros [= <-].
  - assert (Hp : p ∈ merge_pairs g) by (rewrite E; left).
    assert (Hnd : NoDup (p :: l)) by (rewrite <- E; apply flat_pairs_nodup, HI).
    rewrite (process_pair_Done p g HI Hp). cbn [mbind outcome_bind]. intros Hrest HP.
    apply (IH (after_merge p g)); [by apply after_merge_Inv|by apply after_merge_pairs|done|].
    destruct (after_merge_frame p g) as (_ & _ & -> & _).
    destruct (after_merge_other p g (waiting_wm g) HI Hp (inv_waiting g HI)) as [E1 E2].
    by apply (placed_same g).
Qed.

Lemma _update_placed g g' : Inv g → _update g = Done g' → placed g' (waiting_wm g').
Proof.
  intros HI. unfold _update.
  set (g1 := if negb (can_spawn g) then tick_cooldown g else g).
  assert (HI1 : Inv g1).
  { unfold g1. destruct (can_spawn g) eqn:Hc; [done|]. by apply tick_cooldown_Inv. }
  destruct (update_all_Inv g1 HI1) as (HI2 & _).
  unfold _process_merges. intros Hrun.
  apply (process_merges_placed (merge_pairs (update_all g1)) (update_all g1)); [done..|].
  by apply update_all_placed.
Qed.

Lemma apply_move_placed m g :
  Inv g → placed g (waiting_wm g) → placed (apply_move m g) (waiting_wm (apply_move m g)).
Proof.
  intros HI HP. unfold apply_move.
  destruct (bool_decide (m.1 ∈ space_bodies g)) eqn:Hin; [|done].
  destruct (bool_decide (body_type (body_of g m.1) = DYNAMIC)); [|done].
  apply bool_decide_eq_true in Hin. cbn [andb].
  change (waiting_wm (set_position m.1 m.2 g)) with (waiting_wm g).
  intros Hst. rewrite wm_of_set_position in Hst |- *.
  destruct (inv_waiting g HI) as (o & Ho).
  rewrite pos_of_set_position_other; [by apply HP|].
  rewrite (wm_of_lookup _ _ _ Ho) in Hst |- *.
  destruct (waiting_unregistered g _ o HI Ho Hst) as [Hnb _]. by intros E; rewrite E in Hnb.
Qed.

Lemma report_contact_placed c g :
  placed g (waiting_wm g) → placed (report_contact c g) (waiting_wm (report_contact c g)).
Proof.
  intros HP. unfold report_contact. destruct (_ && _); [|done].
  unfold collision_handler.
  destruct (user_data _) as [w1|]; [|done].
  destruct (user_data _) as [w2|]; [|done].
  destruct (_ && _); [|done].
  change (placed (flag w2 (flag w1 g)) (waiting_wm g)).
  destruct (flag_wm_of w2 (flag w1 g) (waiting_wm g)) as (S2 & B2 & _ & _ & R2 & _).
  destruct (flag_wm_of w1 g (waiting_wm g)) as (S1 & B1 & _ & _ & R1 & _).
  unfold placed, pos_of. rewrite S2, S1, B2, B1, R2, R1. exact HP.
Qed.

Lemma space_step_placed ph g :
  Inv g → placed g (waiting_wm g) → placed (space_step ph g) (waiting_wm (space_step ph g)).
Proof.
  intros HI HP. unfold space_step.
  assert (H1 : Inv (foldl (λ g m, apply_move m g) g (ph_moves ph))
               ∧ placed (foldl (λ g m, apply_move m g) g (ph_moves ph))
                   (waiting_wm (foldl (λ g m, apply_move m g) g (ph_moves ph)))).
  { generalize (ph_moves ph) as l. intros l. revert g HI HP.
    induction l as [|m l IH]; intros g HI HP; [done|]. cbn [foldl].
    apply IH; [by apply apply_move_Inv|by apply apply_move_placed]. }
  destruct H1 as [_ HP1]. revert HP1.
  generalize (foldl (λ g m, apply_move m g) g (ph_moves ph)) as h.
  generalize (ph_contacts ph) as l. induction l as [|c l IH]; intros h HP1; [done|]. cbn [foldl].
  by apply IH, report_contact_placed.
Qed.

Lemma move_waiting_over inp g : game_over (move_waiting inp g) = true → move_waiting inp g = g.
Proof.
  destruct (move_waiting_frame inp g) as (_ & _ & _ & -> & _). intros Hg.
  unfold move_waiting. by rewrite Hg.
Qed.

Lemma frame_placed inp ph g g' :
  Inv g → placed g (waiting_wm g) → frame inp ph g = Done g' → placed g' (waiting_wm g').
Proof.
  intros HI HP. unfold frame, _handle_input.
  destruct (handle_events_Inv (events inp) g HI) as [E|(g0 & E & HI0)]; rewrite E; [done|].
  pose proof (handle_events_placed _ _ _ HI HP E) as HP0.
  cbn [mbind outcome_bind].
  pose proof (move_waiting_Inv inp g0 HI0) as HI1.
  destruct (game_over (move_waiting inp g0)) eqn:Hg.
  { intros [= <-]. by rewrite (move_waiting_over inp g0 Hg). }
  destruct (_update_Inv _ HI1) as (g2 & E2 & HI2 & _ & Hfin). rewrite E2.
  pose proof (_update_placed _ _ HI1 E2) as HP2.
  cbn [mbind outcome_bind]. unfold Physics_step.
  rewrite (evict_finite _ g2) by done. cbn [mbind outcome_bind]. intros [= <-].
  by apply space_step_placed.
Qed.

Lemma reachable_placed g : reachable g → placed g (waiting_wm g).
Proof.
  induction 1 as [|g inp ph g' Hr IH Hf]; [apply placed_Game_init|].
  exact (frame_placed inp ph g g' (reachable_Inv g Hr) IH Hf).
Qed.

(** X16. At every frame boundary of a run the piece at the spawn gate, while
    it is Waiting, is at height 50 with its centre between 45 and 555: its
    circle of radius 45 lies between the abscissas 0 and [WIDTH], whatever
    the arrow keys did during the frames. *)
Theorem waiting_piece_in_place (g : Game) :
  reachable g → state (wm_of g (waiting_wm g)) = WAITING →
  ∃ x : Q, pos_of g (waiting_wm g) = mkVec (Finite x) (of_int 50)
           ∧ (inject_Z 45 <= x)%Q ∧ (x <= inject_Z 555)%Q.
Proof.
  intros Hr Hst. destruct (reachable_placed g Hr Hst) as (x & Hp & H1 & H2).
  pose proof (reachable_Inv g Hr) as HI. destruct (inv_waiting g HI) as (o & Ho).
  rewrite (wm_of_lookup _ _ _ Ho) in *.
  destruct (ta_pieces g (reachable_Tally g Hr) _ o Ho) as (_ & _ & Hw).
  destruct (Hw Hst) as [Hl _].
  destruct (st_wms g (inv_store g HI) _ o Ho) as (_ & _ & Hrad & _).
  rewrite Hrad, Hl in H1, H2. by exists x.
Qed.

Lemma waiting_piece_in_place_witness :
  ∃ x : Q, pos_of new_game (waiting_wm new_game) = mkVec (Finite x) (of_int 50)
           ∧ (inject_Z 45 <= x)%Q ∧ (x <= inject_Z 555)%Q.
Proof. exact (waiting_piece_in_place new_game reachable_start eq_refl). Defined.

(** *** Finite positions *)










(** ** The spawn gate *)




Lemma ripe_reached :
  run ((release_key, still) :: replicate 58 (idle, still)) new_game = Done ripe.
Proof. vm_compute. reflexivity. Qed.


(** ** How a game ends *)

Lemma handle_events_no_release evs g g' :
  game_over g = false → KEYDOWN K_DOWN ∉ evs → KEYDOWN K_SPACE ∉ evs →
  for_each handle_event evs g = Done g' → g' = g.
Proof.
  intros Hg Hd Hs. induction evs as [|ev evs IH]; cbn [for_each]; [by intros [= <-]|].
  apply not_elem_of_cons in Hd as [Hd1 Hd], Hs as [Hs1 Hs].
  assert (E : ev ≠ QUIT → handle_event ev g = Done g).
  { destruct ev as [|k|]; [done| |done]. intros _. cbn [handle_event]. rewrite Hg. cbn [andb negb].
    rewrite bool_decide_false; [done|]. intros Hk.
    apply elem_of_cons in Hk as [->|Hk]; [done|].
    apply elem_of_cons in Hk as [->|Hk]; [done|]. by apply elem_of_nil in Hk. }
  destruct (decide (ev = QUIT)) as [->|Hne]; [done|].
  rewrite (E Hne). cbn [mbind outcome_bind]. by apply IH.
Qed.

Lemma space_step_game_over ph g : game_over (space_step ph g) = game_over g.
Proof.
  unfold space_step.
  assert (H1 : game_over (foldl (λ g m, apply_move m g) g (ph_moves ph)) = game_over g).
  { generalize (ph_moves ph) as l. intros l. revert g.
    induction l as [|m l IH]; intros g; [done|]. cbn [foldl]. rewrite IH.
    by destruct (apply_move_frame m g) as (_ & _ & _ & _ & -> & _). }
  rewrite <- H1. generalize (foldl (λ g m, apply_move m g) g (ph_moves ph)) as h.
  generalize (ph_contacts ph) as l. induction l as [|c l IH]; intros h; [done|]. cbn [foldl].
  rewrite IH. unfold report_contact. destruct (_ && _); [|done].
  unfold collision_handler.
  destruct (user_data _) as [w1|]; [|done].
  destruct (user_data _) as [w2|]; [|done].
  by destruct (_ && _).
Qed.

(** X19. A game ends only at the two overlap tests.  A frame of a run that
    starts with the game running and ends with the game over either had a
    release key (K_DOWN or K_SPACE) in its event queue or started with the
    spawn gate closed: no position of the pieces, no contact and no merge
    ends a game. *)
Theorem game_ends_only_by_overlap (g g' : Game) (inp : Input) (ph : PhysOut) :
  reachable g → game_over g = false → frame inp ph g = Done g' → game_over g' = true →
  can_spawn g = false ∨ ∃ k, KEYDOWN k ∈ events inp ∧ k ∈ [K_DOWN; K_SPACE].
Proof.
  intros Hr Hg Hf Hover. pose proof (reachable_Inv g Hr) as HI.
  destruct (can_spawn g) eqn:Hc; [|by left]. right.
  destruct (decide (KEYDOWN K_DOWN ∈ events inp)) as [|Hd]; [exists K_DOWN; split; [done|left]|].
  destruct (decide (KEYDOWN K_SPACE ∈ events inp)) as [|Hs];
    [exists K_SPACE; split; [done|right; left]|].
  exfalso. revert Hf. unfold frame, _handle_input.
  destruct (for_each handle_event (events inp) g) as [g0| |] eqn:E; [|done..].
  apply (handle_events_no_release _ _ _ Hg Hd Hs) in E as ->.
  cbn [mbind outcome_bind].
  pose proof (move_waiting_Inv inp g HI) as HI1.
  destruct (move_waiting_frame inp g) as (_ & _ & _ & Eg & Ec & _).
  rewrite Eg, Hg. unfold _update. rewrite Ec, Hc. cbn [negb].
  destruct (update_all_Inv _ HI1) as (HI2 & Hfin & _ & _ & _ & _ & Eg2 & _).
  destruct (process_merges_loop _ _ HI2 eq_refl) as (g2 & E2 & HI3 & _ & Hfin3 & Eg3 & _).
  unfold _process_merges. rewrite E2. cbn [mbind outcome_bind]. unfold Physics_step.
  rewrite (evict_finite _ g2) by (by apply Hfin3). cbn [mbind outcome_bind]. intros [= <-].
  rewrite space_step_game_over, Eg3, Eg2, Eg, Hg in Hover. done.
Qed.

Lemma ripe_reachable : reachable ripe.
Proof. exact (reachable_run _ _ _ reachable_start ripe_reached). Qed.

Lemma game_ends_only_by_overlap_witness :
  can_spawn ripe = false ∨ ∃ k, KEYDOWN k ∈ events idle ∧ k ∈ [K_DOWN; K_SPACE].
Proof.
  apply (game_ends_only_by_overlap ripe blocked idle still ripe_reachable).
  - reflexivity.
  - vm_compute. reflexivity.
  - reflexivity.
Defined.

(** ** What [update] settles *)

Lemma Qltb_irrefl x : Qltb x x = false.
Proof. apply Qltb_ge, Qle_refl. Qed.

(** The clamp of [update], applied to its own result, returns it. *)
Lemma clamp_idem (lo hi : Z) (x : Q) :
  lo ≤ hi →
  py_max (of_int lo) (py_min (py_max (of_int lo) (py_min (Finite x) (of_int hi))) (of_int hi))
  = py_max (of_int lo) (py_min (Finite x) (of_int hi)).
Proof.
  intros Hle. assert (Hq : (inject_Z lo <= inject_Z hi)%Q) by (by rewrite <- Zle_Qle).
  pose proof (proj2 (Qltb_ge (inject_Z hi) (inject_Z lo)) Hq) as Hhl.
  unfold py_min, py_max, of_int; cbn [fltb].
  destruct (Qltb (inject_Z hi) x) eqn:E1; cbn [fltb].
  - destruct (Qltb (inject_Z lo) (inject_Z hi)) eqn:E2; cbn [fltb].
    + by rewrite Qltb_irrefl, E2.
    + by rewrite Hhl, Qltb_irrefl.
  - destruct (Qltb (inject_Z lo) x) eqn:E2; cbn [fltb].
    + by rewrite E1, E2.
    + by rewrite Hhl, Qltb_irrefl.
Qed.

(** The value of the clamp. *)
Lemma clamp_spec (lo hi : Z) (x : Q) :
  lo ≤ hi →
  ∃ q, py_max (of_int lo) (py_min (Finite x) (of_int hi)) = Finite q
       ∧ ((x <= inject_Z lo)%Q → (q == inject_Z lo)%Q)
       ∧ ((inject_Z lo <= x)%Q → (x <= inject_Z hi)%Q → (q == x)%Q)
       ∧ ((inject_Z hi <= x)%Q → (q == inject_Z hi)%Q).
Proof.
  intros Hle. assert (Hq : (inject_Z lo <= inject_Z hi)%Q) by (by rewrite <- Zle_Qle).
  unfold py_min, py_max, of_int; cbn [fltb].
  destruct (Qltb (inject_Z hi) x) eqn:E1; cbn [fltb].
  - apply Qltb_lt in E1.
    assert (Hx : ¬ (x <= inject_Z hi)%Q) by (by apply Qlt_not_le).
    assert (Hx' : ¬ (x <= inject_Z lo)%Q).
    { intros H. apply Hx. by apply (Qle_trans _ (inject_Z lo)). }
    destruct (Qltb (inject_Z lo) (inject_Z hi)) eqn:E2.
    + eexists; split; [done|]. split; [done|]. split; [done|]. intros _. reflexivity.
    + apply Qltb_ge in E2. eexists; split; [done|]. split; [done|]. split; [done|].
      intros _. by apply Qle_antisym.
  - apply Qltb_ge in E1. destruct (Qltb (inject_Z lo) x) eqn:E2.
    + apply Qltb_lt in E2. eexists; split; [done|].
      split; [intros H; by apply Qlt_not_le in E2|]. split; [reflexivity|].
      intros H. by apply Qle_antisym.
    + apply Qltb_ge in E2. eexists; split; [done|]. split; [reflexivity|].
      split; [intros H _; by apply Qle_antisym|].
      intros H. apply Qle_antisym; [done|]. by apply (Qle_trans _ x).
Qed.

Lemma settled_idem o p :
  radius o ≤ WIDTH - radius o → settled o (settled o p) = settled o p.
Proof.
  intros Hr. unfold settled.
  set (p' := if vec_finite p then p else vec_of_ints (WIDTH `div` 2) (HEIGHT `div` 2)).
  assert (Hf' : vec_finite p' = true) by (unfold p'; by destruct (vec_finite p) eqn:E).
  destruct (decide (state o = WAITING)); [|by rewrite Hf'].
  unfold vec_finite in Hf'. destruct (vx p') as [x| | |] eqn:Ex; [|done..].
  destruct (clamp_between (radius o) (WIDTH - radius o) x Hr) as (q & Eq & _).
  pose proof (clamp_idem (radius o) (WIDTH - radius o) x Hr) as Hid.
  rewrite Eq in Hid |- *. cbn [vec_finite vx vy isfinite of_int andb]. by rewrite Hid.
Qed.

Lemma Watermelon_update_settled g w o bo :
  wms g !! w = Some o → bodies g !! body o = Some bo →
  pos_of (Watermelon_update w g) w = settled o (position bo).
Proof. exact (Watermelon_update_pos g w o bo). Qed.

Lemma Watermelon_update_bodies w g b :
  is_Some (bodies g !! b) → is_Some (bodies (Watermelon_update w g) !! b).
Proof.
  intros Hb.
  destruct (Watermelon_update_writes w g) as (p1 & p2 & _ & _ & [-> | [-> | [-> | ->]]]);
    auto using bodies_set_position_is_Some.
Qed.

(** X20. [update] applied a second time leaves the piece where the first
    application left it; and it changes nothing at all about a piece that is
    not Waiting and is at finite coordinates. *)
Theorem update_settles (g : Game) (w : positive) :
  Inv g → w ∈ watermelons g →
  pos_of (Watermelon_update w (Watermelon_update w g)) w = pos_of (Watermelon_update w g) w
  ∧ (state (wm_of g w) ≠ WAITING → vec_finite (pos_of g w) = true →
     Watermelon_update w g = g).
Proof.
  intros HI Hw. split.
  - destruct (inv_live g HI w Hw) as (o & Ho & _).
    destruct (st_wms g (inv_store g HI) w o Ho) as (_ & Hlv & Hr & bo & _ & Hbo & _).
    destruct (radius_bounds o Hr Hlv) as [H1 H2].
    destruct (Watermelon_update_frame w g) as (Ewms & _).
    destruct (Watermelon_update_bodies w g (body o)) as (bo1 & Hbo1); [eauto|].
    assert (Ho1 : wms (Watermelon_update w g) !! w = Some o) by (by rewrite Ewms).
    pose proof (Watermelon_update_settled g w o bo Ho Hbo) as E1.
    assert (Ep : pos_of (Watermelon_update w g) w = position bo1).
    { unfold pos_of. by rewrite (wm_of_lookup _ _ _ Ho1), (body_of_lookup _ _ _ Hbo1). }
    rewrite (Watermelon_update_settled _ w o bo1 Ho1 Hbo1), <- Ep, E1.
    apply settled_idem. lia.
  - intros Hst Hfin. unfold Watermelon_update. unfold vec_finite in Hfin.
    apply andb_true_iff in Hfin as [-> ->]. cbn [negb orb]. by rewrite decide_False.
Qed.

Lemma update_settles_witness :
  pos_of (Watermelon_update 5 (Watermelon_update 5 lost_waiting)) 5
  = pos_of (Watermelon_update 5 lost_waiting) 5.
Proof.
  apply update_settles; [|left].
  apply Inv_set_position; [apply new_game_Inv|]. intros bo Hbo Hu. vm_compute in Hbo.
  injection Hbo as <-. discriminate Hu.
Defined.

(** ** The arrow keys *)

Lemma update_loop_other l g w :
  Inv g → l ⊆ watermelons g → w ∈ watermelons g → w ∉ l →
  wm_of (foldl (λ g wm, Watermelon_update wm g) g l) w = wm_of g w
  ∧ pos_of (foldl (λ g wm, Watermelon_update wm g) g l) w = pos_of g w.
Proof.
  revert g. induction l as [|x l IH]; intros g HI Hl Hw Hn; [done|]. cbn [foldl].
  apply not_elem_of_cons in Hn as [Hne Hn].
  destruct (Watermelon_update_frame x g) as (_ & El & _).
  assert (Hx : x ∈ watermelons g) by (apply Hl; left).
  destruct (update_other x w g HI Hx Hw) as [E1 E2]; [congruence|].
  rewrite <- E1, <- E2. apply IH; [by apply Watermelon_update_Inv| |by rewrite El|done].
  rewrite El. intros y Hy. apply Hl. by right.
Qed.

Lemma update_loop_pos l g w :
  Inv g → l ⊆ watermelons g → NoDup l → w ∈ l →
  wm_of (foldl (λ g wm, Watermelon_update wm g) g l) w = wm_of g w
  ∧ pos_of (foldl (λ g wm, Watermelon_update wm g) g l) w = settled (wm_of g w) (pos_of g w).
Proof.
  revert g. induction l as [|x l IH]; intros g HI Hl Hnd Hw; [by apply elem_of_nil in Hw|].
  cbn [foldl]. apply NoDup_cons in Hnd as [Hx Hnd].
  destruct (Watermelon_update_frame x g) as (Ewms & El & _).
  assert (Hxl : x ∈ watermelons g) by (apply Hl; left).
  assert (Hl' : l ⊆ watermelons (Watermelon_update x g))
    by (rewrite El; intros y Hy; apply Hl; by right).
  pose proof (Watermelon_update_Inv x g HI) as HI1.
  destruct (decide (x = w)) as [->|Hne].
  - destruct (update_loop_other l (Watermelon_update w g) w HI1 Hl') as [E1 E2];
      [by rewrite El|done|].
    rewrite E1, E2.
    destruct (inv_live g HI w Hxl) as (o & Ho & _).
    destruct (st_wms g (inv_store g HI) w o Ho) as (_ & _ & _ & bo & _ & Hbo & _).
    rewrite (Watermelon_update_settled g w o bo Ho Hbo).
    unfold pos_of, wm_of at 1. rewrite Ewms. fold (wm_of g w).
    by rewrite (wm_of_lookup _ _ _ Ho), (body_of_lookup _ _ _ Hbo).
  - apply elem_of_cons in Hw as [?|Hw]; [done|].
    assert (Hwl : w ∈ watermelons g) by (apply Hl; by right).
    destruct (update_other x w g HI Hxl Hwl Hne) as [E1 E2].
    rewrite <- E1, <- E2. by apply IH.
Qed.

Lemma process_merges_pos l g g' w :
  Inv g → merge_pairs g = l → for_each process_pair l g = Done g' → is_Some (wms g !! w) →
  wm_of g' w = wm_of g w ∧ pos_of g' w = pos_of g w.
Proof.
  revert g. induction l as [|p l IH]; intros g HI E; cbn [for_each].
  - by intros [= <-].
  - assert (Hp : p ∈ merge_pairs g) by (rewrite E; left).
    assert (Hnd : NoDup (p :: l)) by (rewrite <- E; apply flat_pairs_nodup, HI).
    rewrite (process_pair_Done p g HI Hp). cbn [mbind outcome_bind]. intros Hrest [o Ho].
    destruct (after_merge_other p g w HI Hp) as [E1 E2]; [eauto|].
    rewrite <- E1, <- E2.
    apply (IH (after_merge p g)); [by apply after_merge_Inv|by apply after_merge_pairs|done|].
    destruct (after_merge_kept p g HI Hp w o Ho) as (o' & Ho' & _). eauto.
Qed.

Lemma apply_move_waiting m g w :
  Inv g → is_Some (wms g !! w) → state (wm_of g w) = WAITING →
  wm_of (apply_move m g) w = wm_of g w ∧ pos_of (apply_move m g) w = pos_of g w
  ∧ waiting_wm (apply_move m g) = waiting_wm g.
Proof.
  intros HI [o Ho] Hst. unfold apply_move.
  destruct (bool_decide (m.1 ∈ space_bodies g)) eqn:Hin; [|done].
  destruct (bool_decide (body_type (body_of g m.1) = DYNAMIC)); [|done].
  apply bool_decide_eq_true in Hin. cbn [andb]. split; [done|]. split; [|done].
  apply pos_of_set_position_other. rewrite (wm_of_lookup _ _ _ Ho) in Hst |- *.
  destruct (waiting_unregistered g _ o HI Ho Hst) as [Hnb _]. by intros E; rewrite E in Hnb.
Qed.

Lemma report_contact_waiting c g w :
  state (wm_of (report_contact c g) w) = state (wm_of g w)
  ∧ pos_of (report_contact c g) w = pos_of g w
  ∧ waiting_wm (report_contact c g) = waiting_wm g.
Proof.
  unfold report_contact. destruct (_ && _); [|done].
  unfold collision_handler.
  destruct (user_data _) as [w1|]; [|done].
  destruct (user_data _) as [w2|]; [|done].
  destruct (_ && _); [|done]. split; [|split; [|done]].
  - change (state (wm_of (flag w2 (flag w1 g)) w) = state (wm_of g w)).
    destruct (flag_wm_of w2 (flag w1 g) w) as (-> & _).
    by destruct (flag_wm_of w1 g w) as (-> & _).
  - change (position (body_of g (body (wm_of (flag w2 (flag w1 g)) w))) = pos_of g w).
    destruct (flag_wm_of w2 (flag w1 g) w) as (_ & -> & _).
    by destruct (flag_wm_of w1 g w) as (_ & -> & _).
Qed.

Lemma space_step_waiting ph g w :
  Inv g → is_Some (wms g !! w) → state (wm_of g w) = WAITING →
  state (wm_of (space_step ph g) w) = WAITING ∧ pos_of (space_step ph g) w = pos_of g w
  ∧ waiting_wm (space_step ph g) = waiting_wm g.
Proof.
  intros HI Hw Hst. unfold space_step.
  assert (H1 : state (wm_of (foldl (λ g m, apply_move m g) g (ph_moves ph)) w) = WAITING
               ∧ pos_of (foldl (λ g m, apply_move m g) g (ph_moves ph)) w = pos_of g w
               ∧ waiting_wm (foldl (λ g m, apply_move m g) g (ph_moves ph)) = waiting_wm g).
  { generalize (ph_moves ph) as l. intros l. revert g HI Hw Hst.
    induction l as [|m l IH]; intros g HI Hw Hst; [done|]. cbn [foldl].
    destruct (apply_move_waiting m g w HI Hw Hst) as (E1 & E2 & E3).
    destruct (apply_move_frame m g) as (Ewms & _).
    rewrite <- E2, <- E3. apply IH; [by apply apply_move_Inv|by rewrite Ewms|by rewrite E1]. }
  destruct H1 as (S1 & <- & <-). revert S1.
  generalize (foldl (λ g m, apply_move m g) g (ph_moves ph)) as h.
  generalize (ph_contacts ph) as l. induction l as [|c l IH]; intros h S1; [done|]. cbn [foldl].
  destruct (report_contact_waiting c h w) as (E1 & E2 & E3).
  rewrite <- E2, <- E3. apply IH. by rewrite E1.
Qed.

Lemma move_waiting_pos inp g :
  Inv g → game_over g = false → state (wm_of g (waiting_wm g)) = WAITING →
  waiting_wm (move_waiting inp g) = waiting_wm g
  ∧ pos_of (move_waiting inp g) (waiting_wm g)
    = (if pressed_right inp then λ p, vec_add p (vec_of_ints 5 0) else id)
        ((if pressed_left inp then λ p, vec_sub p (vec_of_ints 5 0) else id)
           (pos_of g (waiting_wm g))).
Proof.
  intros HI Hg Hst. unfold move_waiting. rewrite Hg, bool_decide_true by done. cbn [negb andb].
  destruct (inv_waiting g HI) as (o & Ho).
  destruct (st_wms g (inv_store g HI) _ o Ho) as (_ & _ & _ & bo & _ & Hbo & _).
  unfold pos_of at 2. rewrite (wm_of_lookup _ _ _ Ho) in *.
  assert (Hb : body (wm_of g (waiting_wm g)) = body o) by (by rewrite (wm_of_lookup _ _ _ Ho)).
  destruct (pressed_left inp), (pressed_right inp); cbn zeta; (split; [done|]); cbn [id].
  - rewrite pos_of_set_position_same;
      [|done|apply bodies_set_position_is_Some; eauto].
    by rewrite body_of_set_position, decide_True, Hbo, (body_of_lookup _ _ _ Hbo).
  - by rewrite pos_of_set_position_same by eauto.
  - by rewrite pos_of_set_position_same by eauto.
  - unfold pos_of. by rewrite (wm_of_lookup _ _ _ Ho).
Qed.

(** X21. A frame of a running game with an empty event queue moves the
    Waiting piece by the arrow keys: 5 to the left for K_LEFT, 5 to the right
    for K_RIGHT, nothing for both or neither, and then back into the range
    from 45 to 555.  The piece stays Waiting at height 50, whatever the
    physics engine does in that frame. *)
Theorem arrow_keys_shift_waiting_piece (g : Game) (l r : bool) (ph : PhysOut) (x : Q) :
  reachable g → game_over g = false → state (wm_of g (waiting_wm g)) = WAITING →
  pos_of g (waiting_wm g) = mkVec (Finite x) (of_int 50) →
  ∃ g' x', frame (mkInput [] l r) ph g = Done g'
    ∧ waiting_wm g' = waiting_wm g ∧ state (wm_of g' (waiting_wm g)) = WAITING
    ∧ pos_of g' (waiting_wm g) = mkVec (Finite x') (of_int 50)
    ∧ let t := (x - (if l then 5 else 0) + (if r then 5 else 0))%Q in
      ((t <= inject_Z 45)%Q → (x' == inject_Z 45)%Q)
      ∧ ((inject_Z 45 <= t)%Q → (t <= inject_Z 555)%Q → (x' == t)%Q)
      ∧ ((inject_Z 555 <= t)%Q → (x' == inject_Z 555)%Q).
Proof.
  intros Hr Hg Hst Hpos. pose proof (reachable_Inv g Hr) as HI.
  destruct (inv_waiting g HI) as (o & Ho).
  pose proof Hst as Hst'. rewrite (wm_of_lookup _ _ _ Ho) in Hst'.
  destruct (ta_pieces g (reachable_Tally g Hr) _ o Ho) as (_ & _ & Hlvl).
  destruct (Hlvl Hst') as [Hl1 _].
  destruct (st_wms g (inv_store g HI) _ o Ho) as (_ & _ & Hrad & _).
  rewrite Hl1 in Hrad. change (_calculate_radius 1) with 45 in Hrad.
  assert (Hc : can_spawn g = true).
  { destruct (can_spawn g) eqn:E; [done|]. by destruct (inv_spawn g HI E). }
  set (inp := mkInput [] l r).
  destruct (move_waiting_pos inp g HI Hg Hst) as [Ew1 Ep1].
  destruct (move_waiting_frame inp g) as (Ewms1 & El1 & _ & Eg1 & Ec1 & _).
  pose proof (move_waiting_Inv inp g HI) as HI1.
  rewrite Hpos in Ep1. cbn [pressed_left pressed_right inp] in Ep1.
  assert (Hm : ∃ t' y', pos_of (move_waiting inp g) (waiting_wm g) = mkVec (Finite t') (Finite y')
             ∧ (t' == x - (if l then 5 else 0) + (if r then 5 else 0))%Q).
  { rewrite Ep1. destruct l, r; cbn; eexists _, _; (split; [reflexivity|]);
      rewrite ?Qred_correct; change (inject_Z 5) with 5%Q; ring. }
  destruct Hm as (t' & y' & Ep1' & Et). clear Ep1.
  assert (Hwm1 : wm_of (move_waiting inp g) (waiting_wm g) = o)
    by (unfold wm_of; by rewrite Ewms1, Ho).
  assert (Hlive1 : waiting_wm g ∈ watermelons (move_waiting inp g)).
  { rewrite <- Ew1. apply (inv_waiting_live _ HI1). by rewrite Ew1, Hwm1. }
  unfold frame, _handle_input. change (events inp) with (@nil event).
  cbn [for_each mbind outcome_bind].
  rewrite Eg1, Hg. unfold _update. rewrite Ec1, Hc. cbn [negb].
  destruct (update_all_Inv _ HI1) as (HI2 & Hfin2 & _ & _ & Ewms2 & _).
  destruct (update_loop_pos (watermelons (move_waiting inp g)) (move_waiting inp g)
              (waiting_wm g) HI1) as [Ewm2 Ep2]; [done|apply HI1|done|].
  fold (update_all (move_waiting inp g)) in Ewm2, Ep2.
  pose proof (update_loop_waiting (watermelons (move_waiting inp g)) (move_waiting inp g)) as Ew2.
  fold (update_all (move_waiting inp g)) in Ew2.
  destruct (process_merges_loop _ _ HI2 eq_refl) as (g3 & E3 & HI3 & _ & Hfin3 & _ & _ & Ew3).
  destruct (process_merges_pos _ _ g3 (waiting_wm g) HI2 eq_refl E3) as [Ewm3 Ep3];
    [by rewrite Ewms2, Ewms1; eauto|].
  unfold _process_merges. rewrite E3. cbn [mbind outcome_bind]. unfold Physics_step.
  rewrite (evict_finite _ g3) by (by apply Hfin3). cbn [mbind outcome_bind].
  assert (Hst3 : state (wm_of g3 (waiting_wm g)) = WAITING) by (by rewrite Ewm3, Ewm2, Hwm1).
  destruct (space_step_waiting ph g3 (waiting_wm g) HI3) as (S4 & Ep4 & Ew4); [|done|].
  { destruct (wms g3 !! waiting_wm g) eqn:E; [eauto|].
    unfold wm_of in Hst3. by rewrite E in Hst3. }
  assert (Hset : pos_of g3 (waiting_wm g) = settled o (mkVec (Finite t') (Finite y')))
    by (by rewrite Ep3, Ep2, Hwm1, Ep1').
  unfold settled in Hset. rewrite decide_True in Hset by done.
  cbn [vec_finite vx vy isfinite andb] in Hset. rewrite Hrad in Hset.
  destruct (clamp_spec 45 (WIDTH - 45) t') as (q & Eq & Q1 & Q2 & Q3); [done|].
  rewrite Eq in Hset.
  exists (space_step ph g3), q. split; [done|].
  split; [by rewrite Ew4, Ew3, Ew2, Ew1|]. split; [done|]. split; [by rewrite Ep4|].
  cbn zeta. rewrite <- Et. change (WIDTH - 45) with 555 in Q2, Q3. done.
Qed.

Lemma arrow_keys_shift_waiting_piece_witness :
  ∃ g' x', frame (mkInput [] true false) still new_game = Done g'
    ∧ pos_of g' 5 = mkVec (Finite x') (of_int 50) ∧ (x' == 295)%Q.
Proof.
  destruct (arrow_keys_shift_waiting_piece new_game true false still (inject_Z 300)
              reachable_start eq_refl eq_refl eq_refl)
    as (g' & x' & Hrun & _ & _ & Hp & _ & Hmid & _).
  exists g', x'. split; [exact Hrun|]. split; [exact Hp|].
  rewrite Hmid; [reflexivity|discriminate|discriminate].
Defined.
